(** * DARKNEXT crawl-and-extract pipeline: a shallow embedding

    The development follows the Python sources module by module:
    [utils.py], [tor_crawler.py], [content_parser.py] and [main.py].
    Python [str] values that are URLs, keywords or page text handed to the
    extractor are modelled as [string] (one [ascii] per character), and
    the operations on them are those of Python on ASCII text: the case
    mappings, the blanks and the character classes of the Unicode tables,
    which Python applies outside ASCII, are not modelled, and the
    statements that depend on them are stated for ASCII text
    ([isascii]).  The decoded body of an HTTP response is a list of code
    points, so that its length in characters and its size in bytes can be
    told apart.

    The Python standard library and the third-party packages the code calls
    ([urllib.parse], [requests], [aiohttp], [bs4]) are not part of the
    repository: they are taken as interfaces (type classes), and small
    concrete instances are given to run the definitions on examples. *)

From Stdlib Require Import ZArith NArith Ascii String List Bool Lia Sorted.
From Stdlib.Strings Require Byte.
From stdpp Require Import base tactics option list gmap sets strings.

Local Open Scope Z_scope.

(* ===================================================================== *)
(** * Python string operations used by the sources *)
(* ===================================================================== *)

Module PyStr.

(** [len(s)] *)
Definition len (s : string) : Z := Z.of_nat (String.length s).

Definition is_upper (c : ascii) : bool :=
  let n := nat_of_ascii c in (65 <=? n)%nat && (n <=? 90)%nat.
Definition is_lower (c : ascii) : bool :=
  let n := nat_of_ascii c in (97 <=? n)%nat && (n <=? 122)%nat.
Definition is_digit (c : ascii) : bool :=
  let n := nat_of_ascii c in (48 <=? n)%nat && (n <=? 57)%nat.
Definition is_alpha (c : ascii) : bool := is_upper c || is_lower c.

Definition lower_char (c : ascii) : ascii :=
  if is_upper c then ascii_of_nat (nat_of_ascii c + 32) else c.
Definition upper_char (c : ascii) : ascii :=
  if is_lower c then ascii_of_nat (nat_of_ascii c - 32) else c.

Fixpoint map_chars (f : ascii -> ascii) (s : string) : string :=
  match s with
  | EmptyString => EmptyString
  | String c s' => String (f c) (map_chars f s')
  end.

(** [s.lower()] and [s.upper()] on ASCII text, where they map character
    by character.  (Outside ASCII they need not: the capital form of the
    German sharp s is two letters.) *)
Definition lower : string -> string := map_chars lower_char.
Definition upper : string -> string := map_chars upper_char.

(** [s.startswith(p)] *)
Definition startswith (p s : string) : bool := String.prefix p s.

(** [s.endswith(suffix)] *)
Definition endswith (suffix s : string) : bool :=
  let n := String.length s in
  let m := String.length suffix in
  (m <=? n)%nat && String.eqb (substring (n - m) m s) suffix.

(** [c in s] for a character [c] *)
Fixpoint contains_char (c : ascii) (s : string) : bool :=
  match s with
  | EmptyString => false
  | String d s' => Ascii.eqb c d || contains_char c s'
  end.

(** [s[n:]] for [0 <= n] *)
Fixpoint drop (n : nat) (s : string) : string :=
  match n, s with
  | O, _ => s
  | S _, EmptyString => EmptyString
  | S k, String _ s' => drop k s'
  end.

(** [s[:n]] for [0 <= n] *)
Fixpoint take (n : nat) (s : string) : string :=
  match n, s with
  | O, _ => EmptyString
  | S _, EmptyString => EmptyString
  | S k, String c s' => String c (take k s')
  end.

(** [s[a:b]] for [0 <= a], [0 <= b] *)
Definition slice (a b : nat) (s : string) : string := take (b - a) (drop a s).

(** [s.replace(old, new)] for a non-empty [old]: the occurrences of [old]
    are replaced from left to right, without overlap.  [skip] counts the
    characters of an occurrence that are still to be dropped. *)
Fixpoint replace_go (old new : string) (skip : nat) (s : string) : string :=
  match s with
  | EmptyString => EmptyString
  | String c s' =>
      match skip with
      | S k => replace_go old new k s'
      | O =>
          if String.prefix old s
          then new +:+ replace_go old new (String.length old - 1) s'
          else String c (replace_go old new 0 s')
      end
  end.

(** With an empty [old], Python puts [new] before every character and at
    the end. *)
Fixpoint intersperse (new s : string) : string :=
  match s with
  | EmptyString => new
  | String c s' => new +:+ String c (intersperse new s')
  end.

Definition replace (old new s : string) : string :=
  match old with
  | EmptyString => intersperse new s
  | _ => replace_go old new 0 s
  end.

(** [s.lstrip(chars)], [s.rstrip(chars)] and [s.strip(chars)] for a
    predicate on characters. *)
Fixpoint lstrip (p : ascii -> bool) (s : string) : string :=
  match s with
  | EmptyString => EmptyString
  | String c s' => if p c then lstrip p s' else s
  end.

Fixpoint rstrip (p : ascii -> bool) (s : string) : string :=
  match s with
  | EmptyString => EmptyString
  | String c s' =>
      match rstrip p s' with
      | EmptyString => if p c then EmptyString else String c EmptyString
      | r => String c r
      end
  end.

Definition strip (p : ascii -> bool) (s : string) : string :=
  rstrip p (lstrip p s).

Fixpoint filter_chars (p : ascii -> bool) (s : string) : string :=
  match s with
  | EmptyString => EmptyString
  | String c s' => if p c then String c (filter_chars p s') else filter_chars p s'
  end.

Fixpoint all_chars (p : ascii -> bool) (s : string) : bool :=
  match s with
  | EmptyString => true
  | String c s' => p c && all_chars p s'
  end.

(** Python's [str.isspace] on ASCII: space, tab, newline, vertical tab,
    form feed, carriage return and the separators 28 to 31.  (Outside
    ASCII there are more blanks, such as the no-break space.) *)
Definition is_space (c : ascii) : bool :=
  let n := nat_of_ascii c in
  (n =? 32)%nat || ((9 <=? n)%nat && (n <=? 13)%nat)
  || ((28 <=? n)%nat && (n <=? 31)%nat).

End PyStr.

(* ===================================================================== *)
(** * [urllib.parse]: the two fields the sources read *)
(* ===================================================================== *)

Module urllib.

(** The part of [urlparse]'s result that the sources look at. *)
Record ParseResult := mkParse { scheme : string; netloc : string }.

(** [urlparse] and [urljoin] belong to the Python standard library.
    [urlparse url = None] and [urljoin base url = None] stand for a raised
    [ValueError]. *)
Class UrlLib := {
  urlparse : string -> option ParseResult;
  urljoin : string -> string -> option string
}.

(** ** A concrete parser, after CPython's [urlsplit]

    It covers what decides [scheme] and [netloc]: leading control
    characters and spaces are stripped, tabs and line breaks removed, the
    scheme is the text before the first [:] when it starts with a letter
    and holds only scheme characters, and the netloc is what follows [//]
    up to the next [/], [?] or [#].  A netloc with one square bracket but
    not the other raises; the text between two brackets is not looked at
    (recent versions of CPython raise unless it is an IP address).  The
    text is ASCII. *)

Definition is_c0_or_space (c : ascii) : bool := (nat_of_ascii c <=? 32)%nat.

Definition is_unsafe (c : ascii) : bool :=
  let n := nat_of_ascii c in (n =? 9)%nat || (n =? 10)%nat || (n =? 13)%nat.

Definition is_scheme_char (c : ascii) : bool :=
  PyStr.is_alpha c || PyStr.is_digit c
  || Ascii.eqb c "+" || Ascii.eqb c "-" || Ascii.eqb c ".".

(** [url.find(':')] *)
Fixpoint find_colon (s : string) : option nat :=
  match s with
  | EmptyString => None
  | String c s' =>
      if Ascii.eqb c ":" then Some O else option_map S (find_colon s')
  end.

Definition split_scheme (url : string) : string * string :=
  match find_colon url, url with
  | Some (S i), String c _ =>
      if PyStr.is_alpha c && PyStr.all_chars is_scheme_char (PyStr.take (S i) url)
      then (PyStr.lower (PyStr.take (S i) url), PyStr.drop (S (S i)) url)
      else (EmptyString, url)
  | _, _ => (EmptyString, url)
  end.

Definition is_delim (c : ascii) : bool :=
  Ascii.eqb c "/" || Ascii.eqb c "?" || Ascii.eqb c "#".

(** [_splitnetloc(url, 2)]: the text before the first delimiter. *)
Fixpoint until_delim (s : string) : string :=
  match s with
  | EmptyString => EmptyString
  | String c s' => if is_delim c then EmptyString else String c (until_delim s')
  end.

Definition urlsplit (url0 : string) : option ParseResult :=
  let url := PyStr.filter_chars (fun c => negb (is_unsafe c))
               (PyStr.lstrip is_c0_or_space url0) in
  let '(sch, rest) := split_scheme url in
  if PyStr.startswith "//" rest then
    let nl := until_delim (PyStr.drop 2 rest) in
    if xorb (PyStr.contains_char "[" nl) (PyStr.contains_char "]" nl)
    then None
    else Some (mkParse sch nl)
  else Some (mkParse sch EmptyString).

(** A join that is enough for absolute links: an [href] with a scheme is
    kept, anything else is appended to the base (relative references are
    not resolved). *)
Definition join_simple (base href : string) : string :=
  match fst (split_scheme href) with
  | EmptyString => base +:+ href
  | _ => href
  end.

(** [urljoin(base, url)] returns the other text when one is empty, and
    parses both otherwise: it raises when [urlsplit] does. *)
Definition join (base href : string) : option string :=
  match base, href with
  | EmptyString, _ => Some href
  | _, EmptyString => Some base
  | _, _ =>
      match urlsplit base, urlsplit href with
      | Some _, Some _ => Some (join_simple base href)
      | _, _ => None
      end
  end.

Definition cpython : UrlLib := {| urlparse := urlsplit; urljoin := join |}.

End urllib.

(* ===================================================================== *)
(** * [base64.b32decode]: when it raises *)
(* ===================================================================== *)

Module base64.

(** The RFC 4648 alphabet: [A]-[Z] and [2]-[7]. *)
Definition in_b32_alphabet (c : ascii) : bool :=
  let n := nat_of_ascii c in
  PyStr.is_upper c || ((50 <=? n)%nat && (n <=? 55)%nat).

Definition is_pad (c : ascii) : bool := Ascii.eqb c "=".

(** [b32decode(s)] returns (rather than raising [binascii.Error]) exactly
    when the length is a multiple of 8, every character left of the
    padding is in the alphabet and the padding has 0, 1, 3, 4 or 6
    characters.  The length test comes first in CPython. *)
Definition b32decode_ok (s : string) : bool :=
  if negb (String.length s mod 8 =? 0)%nat then false
  else
    let body := PyStr.rstrip is_pad s in
    let padchars := (String.length s - String.length body)%nat in
    PyStr.all_chars in_b32_alphabet body
    && existsb (Nat.eqb padchars) (0 :: 1 :: 3 :: 4 :: 6 :: nil)%nat.

End base64.

(* ===================================================================== *)
(** * [utils.py] *)
(* ===================================================================== *)

Module utils.
Import urllib.

Section WithUrlLib.
Context `{UrlLib}.

(** [validate_onion_url(url)]; every exception is turned into [False]. *)
Definition validate_onion_url (url : string) : bool :=
  match urlparse url with
  | None => false
  | Some parsed =>
      if negb (existsb (String.eqb (scheme parsed)) ("http" :: "https" :: nil))
      then false
      else if negb (PyStr.endswith ".onion" (netloc parsed))
      then false
      else
        let domain := PyStr.replace ".onion" "" (netloc parsed) in
        if negb (existsb (Z.eqb (PyStr.len domain)) (16 :: 56 :: nil))
        then false
        else
          if base64.b32decode_ok (PyStr.upper domain +:+ "======")
          then true
          else false
  end.

(** [extract_domain(url)] *)
Definition extract_domain (url : string) : string :=
  match urlparse url with
  | Some parsed => netloc parsed
  | None => EmptyString
  end.

End WithUrlLib.
End utils.

(* ===================================================================== *)
(** * [re]: the backtracking matcher, for the operators the patterns use *)
(* ===================================================================== *)

Module re.

(** Pattern syntax.  [Rep greedy lo hi r] is [r{lo,hi}] (no upper bound
    when [hi = None]), lazy when [greedy = false]; [WordB] is [\b];
    [Group] is the capturing group (the patterns have at most one). *)
Inductive regex : Type :=
| Eps
| Chr (p : ascii -> bool)
| Seq (r1 r2 : regex)
| Alt (r1 r2 : regex)
| Rep (greedy : bool) (lo : nat) (hi : option nat) (r : regex)
| WordB
| Group (r : regex).

(** [\w] on ASCII text: letters, digits and the underscore.  (On a
    [str] pattern Python also counts the letters and digits outside ASCII
    as word characters.) *)
Definition is_word (c : ascii) : bool :=
  PyStr.is_alpha c || PyStr.is_digit c || Ascii.eqb c "_".

Definition is_word_opt (o : option ascii) : bool :=
  match o with Some c => is_word c | None => false end.

(** The matcher's position in the subject: the character just before it,
    the text still ahead, the offset, and the span of the group. *)
Record mstate := mkState {
  prev : option ascii;
  rest : string;
  pos : nat;
  grp : option (nat * nat)
}.

Definition next_char (st : mstate) : option ascii :=
  match rest st with
  | EmptyString => None
  | String c _ => Some c
  end.

Definition at_boundary (st : mstate) : bool :=
  xorb (is_word_opt (prev st)) (is_word_opt (next_char st)).

Definition below (hi : option nat) (count : nat) : bool :=
  match hi with
  | None => true
  | Some h => (count <? h)%nat
  end.

Definition first_some {A} (a b : option A) : option A :=
  match a with Some _ => a | None => b end.

(** [m r st k]: match [r] at [st], then continue with [k]; the first
    success in backtracking order wins.  An iteration of a repetition
    has to consume a character, which every repeated sub-pattern of this
    program does. *)
Fixpoint m (r : regex) (st : mstate) (k : mstate -> option mstate)
  {struct r} : option mstate :=
  match r with
  | Eps => k st
  | Chr p =>
      match rest st with
      | String c s' =>
          if p c then k (mkState (Some c) s' (S (pos st)) (grp st)) else None
      | EmptyString => None
      end
  | Seq r1 r2 => m r1 st (fun st' => m r2 st' k)
  | Alt r1 r2 => first_some (m r1 st k) (m r2 st k)
  | WordB => if at_boundary st then k st else None
  | Group r1 =>
      m r1 st (fun st' =>
        k (mkState (prev st') (rest st') (pos st') (Some (pos st, pos st'))))
  | Rep greedy lo hi r1 =>
      (fix loop (fuel count : nat) (st : mstate) {struct fuel} : option mstate :=
         let stop := if (lo <=? count)%nat then k st else None in
         let more :=
           match fuel with
           | O => None
           | S fuel' =>
               if below hi count
               then m r1 st (fun st' =>
                      if (pos st <? pos st')%nat
                      then loop fuel' (S count) st'
                      else None)
               else None
           end in
         if greedy then first_some more stop else first_some stop more)
        (String.length (rest st)) O st
  end.

(** A match object: [start()], [end()] and the span of group 1. *)
Record Match := mkMatch {
  m_start : nat;
  m_end : nat;
  m_group : option (nat * nat)
}.

Definition start_state (text : string) : mstate :=
  mkState None text O None.

(** One character further in the subject. *)
Definition advance (st : mstate) : option mstate :=
  match rest st with
  | EmptyString => None
  | String c s' => Some (mkState (Some c) s' (S (pos st)) None)
  end.

(** [pattern.match] at the position of [st]. *)
Definition match_here (r : regex) (st : mstate) : option mstate :=
  m r (mkState (prev st) (rest st) (pos st) None) Some.

(** The scan of [finditer]: try the current position; after a match go on
    from its end, otherwise one character further.  The patterns of this
    program never match the empty string; after an empty match the scan
    moves on by one character. *)
Fixpoint scan (r : regex) (fuel : nat) (st : mstate) : list Match :=
  match fuel with
  | O => nil
  | S fuel' =>
      match match_here r st with
      | Some st' =>
          mkMatch (pos st) (pos st') (grp st')
          :: (if (pos st <? pos st')%nat
              then scan r fuel' st'
              else match advance st with
                   | Some st1 => scan r fuel' st1
                   | None => nil
                   end)
      | None =>
          match advance st with
          | Some st1 => scan r fuel' st1
          | None => nil
          end
      end
  end.

(** [re.finditer(pattern, text)] *)
Definition finditer (r : regex) (text : string) : list Match :=
  scan r (S (String.length text)) (start_state text).

(** [pattern.findall(text)]: the text of group 1 when the pattern has a
    group, of the whole match otherwise. *)
Definition match_text (text : string) (mt : Match) : string :=
  match m_group mt with
  | Some (a, b) => PyStr.slice a b text
  | None => PyStr.slice (m_start mt) (m_end mt) text
  end.

Definition findall (r : regex) (text : string) : list string :=
  map (match_text text) (finditer r text).

(** ** Building patterns *)

Definition chr (c : ascii) : regex := Chr (Ascii.eqb c).

(** A literal; with [re.IGNORECASE] the comparison is on lower case.
    This is the folding of ASCII text.  (With the flag Python also reads
    a few characters outside ASCII as the letters i, k and s.) *)
Definition chr_i (c : ascii) : regex :=
  Chr (fun d => Ascii.eqb (PyStr.lower_char d) (PyStr.lower_char c)).

Fixpoint lit (s : string) : regex :=
  match s with
  | EmptyString => Eps
  | String c s' => Seq (chr c) (lit s')
  end.

Fixpoint lit_i (s : string) : regex :=
  match s with
  | EmptyString => Eps
  | String c s' => Seq (chr_i c) (lit_i s')
  end.

Definition in_range (lo hi c : ascii) : bool :=
  (nat_of_ascii lo <=? nat_of_ascii c)%nat && (nat_of_ascii c <=? nat_of_ascii hi)%nat.

(** A character class [[a-bc-d...xyz]]: ranges and single characters.
    The classes compiled with [re.IGNORECASE] list both cases of every
    letter, so that on ASCII text the flag adds nothing to them. *)
Definition cls (ranges : list (ascii * ascii)) (singles : string) : regex :=
  Chr (fun c => existsb (fun '(lo, hi) => in_range lo hi c) ranges
                || PyStr.contains_char c singles).

(** [\d] and [\s] on ASCII text. *)
Definition digit : regex := Chr PyStr.is_digit.
Definition space : regex := Chr PyStr.is_space.
Definition any_char : regex := Chr (fun _ => true).

Definition opt (r : regex) : regex := Rep true 0 (Some 1%nat) r.
Definition star (r : regex) : regex := Rep true 0 None r.
Definition plus (r : regex) : regex := Rep true 1 None r.
Definition lazy_star (r : regex) : regex := Rep false 0 None r.
Definition times (n : nat) (r : regex) : regex := Rep true n (Some n) r.
Definition between (lo hi : nat) (r : regex) : regex := Rep true lo (Some hi) r.
Definition at_least (lo : nat) (r : regex) : regex := Rep true lo None r.

Fixpoint seq (rs : list regex) : regex :=
  match rs with
  | nil => Eps
  | r :: nil => r
  | r :: rs' => Seq r (seq rs')
  end.

Fixpoint alt (rs : list regex) : regex :=
  match rs with
  | nil => Chr (fun _ => false)
  | r :: nil => r
  | r :: rs' => Alt r (alt rs')
  end.

(** [re.escape(s)] followed by compilation yields the literal [s]. *)
Definition escaped (ignorecase : bool) (s : string) : regex :=
  if ignorecase then lit_i s else lit s.

End re.

(* ===================================================================== *)
(** * [content_parser.py] *)
(* ===================================================================== *)

Module content_parser.
Import re.

(** The double quote, as a character. *)
Definition dquote : ascii := ascii_of_nat 34.

(** ** [_compile_patterns] *)

(** [\b[A-Za-z0-9._%+-]+@[A-Za-z0-9.-]+\.[A-Z|a-z]{2,}\b] *)
Definition email_pattern : regex :=
  seq (WordB
       :: plus (cls (("A","Z") :: ("a","z") :: ("0","9") :: nil)%char "._%+-")
       :: chr "@"
       :: plus (cls (("A","Z") :: ("a","z") :: ("0","9") :: nil)%char ".-")
       :: chr "."
       :: at_least 2 (cls (("A","Z") :: ("a","z") :: nil)%char "|")
       :: WordB :: nil).

(** [\b[13][a-km-zA-HJ-NP-Z1-9]{25,34}\b] *)
Definition btc_legacy_pattern : regex :=
  seq (WordB
       :: cls nil "13"
       :: between 25 34
            (cls (("a","k") :: ("m","z") :: ("A","H") :: ("J","N")
                  :: ("P","Z") :: ("1","9") :: nil)%char "")
       :: WordB :: nil).

(** [\bbc1[a-z0-9]{39,59}\b] *)
Definition btc_segwit_pattern : regex :=
  seq (WordB :: lit "bc1"
       :: between 39 59 (cls (("a","z") :: ("0","9") :: nil)%char "")
       :: WordB :: nil).

(** [\b0x[a-fA-F0-9]{40}\b] *)
Definition eth_pattern : regex :=
  seq (WordB :: lit "0x"
       :: times 40 (cls (("a","f") :: ("A","F") :: ("0","9") :: nil)%char "")
       :: WordB :: nil).

(** [\b4[0-9AB][1-9A-HJ-NP-Za-km-z]{93}\b] *)
Definition xmr_pattern : regex :=
  seq (WordB :: chr "4"
       :: cls (("0","9") :: nil)%char "AB"
       :: times 93
            (cls (("1","9") :: ("A","H") :: ("J","N") :: ("P","Z")
                  :: ("a","k") :: ("m","z") :: nil)%char "")
       :: WordB :: nil).

(** [-----BEGIN PGP (?:PUBLIC|PRIVATE) KEY BLOCK-----.*?-----END PGP
    (?:PUBLIC|PRIVATE) KEY BLOCK-----] with [re.DOTALL] *)
Definition pgp_pattern : regex :=
  seq (lit "-----BEGIN PGP "
       :: alt (lit "PUBLIC" :: lit "PRIVATE" :: nil)
       :: lit " KEY BLOCK-----"
       :: lazy_star any_char
       :: lit "-----END PGP "
       :: alt (lit "PUBLIC" :: lit "PRIVATE" :: nil)
       :: lit " KEY BLOCK-----" :: nil).

(** [[-.\s]] *)
Definition sep_dot : regex :=
  Chr (fun c => Ascii.eqb c "-" || Ascii.eqb c "." || PyStr.is_space c).

(** [[-\s]] *)
Definition sep : regex :=
  Chr (fun c => Ascii.eqb c "-" || PyStr.is_space c).

(** [(?:\+?1[-.\s]?)?\(?[0-9]{3}\)?[-.\s]?[0-9]{3}[-.\s]?[0-9]{4}] *)
Definition phone_pattern : regex :=
  seq (opt (seq (opt (chr "+") :: chr "1" :: opt sep_dot :: nil))
       :: opt (chr "(")
       :: times 3 (cls (("0","9") :: nil)%char "")
       :: opt (chr ")")
       :: opt sep_dot
       :: times 3 (cls (("0","9") :: nil)%char "")
       :: opt sep_dot
       :: times 4 (cls (("0","9") :: nil)%char "")
       :: nil).

(** [\b(?:\d{4}[-\s]?){3}\d{4}\b] *)
Definition cc_pattern : regex :=
  seq (WordB
       :: times 3 (seq (times 4 digit :: opt sep :: nil))
       :: times 4 digit
       :: WordB :: nil).

(** [\b(?:[0-9]{1,3}\.){3}[0-9]{1,3}\b] *)
Definition ip_pattern : regex :=
  seq (WordB
       :: times 3 (seq (between 1 3 (cls (("0","9") :: nil)%char "")
                        :: chr "." :: nil))
       :: between 1 3 (cls (("0","9") :: nil)%char "")
       :: WordB :: nil).

Definition hex : regex :=
  cls (("0","9") :: ("a","f") :: ("A","F") :: nil)%char "".

(** [http[s]?://(?:[a-zA-Z]|[0-9]|[$-_@.&+]|[!*\(\),]|(?:%[0-9a-fA-F][0-9a-fA-F]))+] *)
Definition url_pattern : regex :=
  seq (lit "http" :: opt (cls nil "s") :: lit "://"
       :: plus (alt (cls (("a","z") :: ("A","Z") :: nil)%char ""
                     :: cls (("0","9") :: nil)%char ""
                     :: cls (("$","_") :: nil)%char "@.&+"
                     :: cls nil "!*(),"
                     :: seq (chr "%" :: hex :: hex :: nil)
                     :: nil))
       :: nil).

(** [ssh-(?:rsa|dss|ed25519) [A-Za-z0-9+/]+=*] *)
Definition ssh_key_pattern : regex :=
  seq (lit "ssh-"
       :: alt (lit "rsa" :: lit "dss" :: lit "ed25519" :: nil)
       :: chr " "
       :: plus (cls (("A","Z") :: ("a","z") :: ("0","9") :: nil)%char "+/")
       :: star (chr "=")
       :: nil).

(** The class of the two quote characters, single and double. *)
Definition quote : regex :=
  Chr (fun c => Ascii.eqb c "'" || Ascii.eqb c dquote).

(** The common tail [Q?\s*[:=]\s*Q?(TOKEN{20,})Q?], where [Q] is the class
    of the two quote characters. *)
Definition api_tail (token : regex) : list regex :=
  opt quote :: star space :: cls nil ":=" :: star space :: opt quote
  :: Group (at_least 20 token) :: opt quote :: nil.

(** The three patterns, compiled with [re.IGNORECASE]:
    [api[_-]?key...([A-Za-z0-9_-]{20,})...],
    [token...([A-Za-z0-9_.-]{20,})...] and
    [secret...([A-Za-z0-9_.-]{20,})...]. *)
Definition api_key_patterns : list regex :=
  seq (lit_i "api" :: opt (cls nil "_-") :: lit_i "key"
       :: api_tail (cls (("A","Z") :: ("a","z") :: ("0","9") :: nil)%char "_-"))
  :: seq (lit_i "token"
          :: api_tail (cls (("A","Z") :: ("a","z") :: ("0","9") :: nil)%char "_.-"))
  :: seq (lit_i "secret"
          :: api_tail (cls (("A","Z") :: ("a","z") :: ("0","9") :: nil)%char "_.-"))
  :: nil.

(** ** Data *)

(** An entry of [keyword_matches]. *)
Record KeywordMatch := mkKeywordMatch {
  keyword : string;
  position : nat;
  context : string
}.

(** The [entities] dict, in insertion order. *)
Definition EntityMap := list (string * list string).

(** The fields of a page that [parse_content] reads. *)
Record PageData := mkPage {
  pd_url : string;
  pd_title : string;
  pd_content : string;
  pd_timestamp : Z;
  pd_content_length : Z
}.

(** The dict [parse_content] returns. *)
Record Finding := mkFinding {
  f_url : string;
  f_title : string;
  f_timestamp : Z;
  keyword_matches : list KeywordMatch;
  entities : EntityMap;
  content_snippet : string;
  content_length : Z;
  has_matches : bool
}.

(** [list(set(xs))]: one copy of every value, in the set's own order. *)
Definition list_set (xs : list string) : list string :=
  elements (list_to_set xs : gset string).

(** ** Helpers of the class *)

(** [_get_context(content, start, end, context_length=100)] *)
Definition _get_context (content : string) (start end_ : nat) : string :=
  let context_length := 100%nat in
  let context_start := (start - context_length)%nat in
  let context_end := Nat.min (String.length content) (end_ + context_length) in
  let context := PyStr.slice context_start context_end content in
  let context := if (0 <? context_start)%nat then "..." +:+ context else context in
  let context :=
    if (context_end <? String.length content)%nat then context +:+ "..." else context in
  PyStr.strip PyStr.is_space context.

(** [_create_snippet(content, keyword_matches, max_length=500)] *)
Definition _create_snippet (content : string) (kms : list KeywordMatch) : string :=
  let max_length := 500%nat in
  match kms with
  | nil =>
      PyStr.take max_length content
      +:+ (if (max_length <? String.length content)%nat then "..." else "")
  | first_match :: _ =>
      let position := position first_match in
      let start := (position - max_length / 2)%nat in
      let end_ := Nat.min (String.length content) (start + max_length) in
      let snippet := PyStr.slice start end_ content in
      let snippet := if (0 <? start)%nat then "..." +:+ snippet else snippet in
      let snippet :=
        if (end_ <? String.length content)%nat then snippet +:+ "..." else snippet in
      PyStr.strip PyStr.is_space snippet
  end.

(** [str.isdigit] on ASCII: non-empty and all digits. *)
Definition isdigit (s : string) : bool :=
  match s with
  | EmptyString => false
  | _ => PyStr.all_chars PyStr.is_digit s
  end.

(** [_is_valid_cc_format(cc)] *)
Definition _is_valid_cc_format (cc : string) : bool :=
  let cc_clean :=
    PyStr.filter_chars
      (fun c => negb (Ascii.eqb c "-" || PyStr.is_space c)) cc in
  if negb (isdigit cc_clean) then false
  else
    let length := String.length cc_clean in
    (13 <=? length)%nat && (length <=? 19)%nat.

(** [ip.split('.')] *)
Fixpoint split_dot (s : string) : list string :=
  match s with
  | EmptyString => EmptyString :: nil
  | String c s' =>
      if Ascii.eqb c "."
      then EmptyString :: split_dot s'
      else match split_dot s' with
           | nil => String c EmptyString :: nil
           | p :: ps => String c p :: ps
           end
  end.

(** [int(part)] on a string of decimal digits; [None] is [ValueError].
    Signs, blanks and underscores, which [int] also reads, do not occur in
    what the IP pattern matches and are refused here. *)
Fixpoint int_digits (acc : Z) (s : string) : option Z :=
  match s with
  | EmptyString => Some acc
  | String c s' =>
      if PyStr.is_digit c
      then int_digits (10 * acc + (Z.of_nat (nat_of_ascii c) - 48)) s'
      else None
  end.

Definition int (s : string) : option Z :=
  match s with
  | EmptyString => None
  | _ => int_digits 0 s
  end.

(** The loop of [_is_valid_ip] over the parts. *)
Fixpoint octets_ok (parts : list string) : bool :=
  match parts with
  | nil => true
  | part :: parts' =>
      match int part with
      | None => false
      | Some num =>
          if negb ((0 <=? num) && (num <=? 255)) then false
          else octets_ok parts'
      end
  end.

(** [_is_valid_ip(ip)] *)
Definition _is_valid_ip (ip : string) : bool :=
  let parts := split_dot ip in
  if negb (length parts =? 4)%nat then false
  else octets_ok parts.

(** ** [_find_keyword_matches] *)

(** [rf'\b{re.escape(keyword)}\b'] with [re.IGNORECASE] *)
Definition keyword_pattern (kw : string) : regex :=
  Seq WordB (Seq (escaped true kw) WordB).

Definition matches_of_keyword (content kw : string) : list KeywordMatch :=
  map (fun mt => mkKeywordMatch kw (m_start mt)
                   (_get_context content (m_start mt) (m_end mt)))
      (finditer (keyword_pattern kw) content).

(** [keywords] lists [self.keywords] in the order the set is iterated. *)
Definition _find_keyword_matches (keywords : list string) (content : string)
  : list KeywordMatch :=
  flat_map (matches_of_keyword content) keywords.

(** ** [_extract_entities] *)

(** The dict before the empty lists are removed. *)
Definition all_entities (content : string) : EntityMap :=
  let btc_legacy := findall btc_legacy_pattern content in
  let btc_segwit := findall btc_segwit_pattern content in
  let cc_matches := findall cc_pattern content in
  let ip_matches := findall ip_pattern content in
  let api_keys := flat_map (fun pattern => findall pattern content) api_key_patterns in
  ("emails", list_set (findall email_pattern content))
  :: ("bitcoin_addresses", list_set (btc_legacy ++ btc_segwit))
  :: ("ethereum_addresses", list_set (findall eth_pattern content))
  :: ("monero_addresses", list_set (findall xmr_pattern content))
  :: ("phone_numbers", list_set (findall phone_pattern content))
  :: ("credit_cards", filter (fun cc => _is_valid_cc_format cc = true) cc_matches)
  :: ("ip_addresses", filter (fun ip => _is_valid_ip ip = true) ip_matches)
  :: ("urls", list_set (findall url_pattern content))
  :: ("ssh_keys", list_set (findall ssh_key_pattern content))
  :: ("pgp_keys", list_set (findall pgp_pattern content))
  :: ("api_keys", list_set api_keys)
  :: nil.

(** A list is truthy when it is not empty. *)
Definition truthy {A} (v : list A) : bool :=
  match v with nil => false | _ => true end.

(** [{k: v for k, v in entities.items() if v}] *)
Definition remove_empty (e : EntityMap) : EntityMap :=
  filter (fun kv => truthy (snd kv) = true) e.

Definition _extract_entities (content : string) : EntityMap :=
  remove_empty (all_entities content).

(** [entities.get(kind)] *)
Fixpoint lookup_kind (kind : string) (e : EntityMap) : option (list string) :=
  match e with
  | nil => None
  | (k, v) :: e' => if String.eqb k kind then Some v else lookup_kind kind e'
  end.

(** ** [parse_content] *)

(** [any(entities.values())] *)
Definition any_values (e : EntityMap) : bool :=
  existsb (fun kv => truthy (snd kv)) e.

(** [extract_entities] is [config['content']['extract_entities']]
    (default [True]). *)
Definition parse_content (keywords : list string) (extract_entities : bool)
    (page_data : PageData) : Finding :=
  let content := PyStr.lower (pd_content page_data) in
  let url := pd_url page_data in
  let keyword_matches := _find_keyword_matches keywords content in
  let entities :=
    if extract_entities then _extract_entities (pd_content page_data) else nil in
  mkFinding url (pd_title page_data) (pd_timestamp page_data)
    keyword_matches entities
    (_create_snippet (pd_content page_data) keyword_matches)
    (pd_content_length page_data)
    ((0 <? length keyword_matches)%nat || any_values entities).

(** ** [_load_keywords] *)

(** The lines of a word file that count: stripped, not empty, and not
    starting with the comment mark. *)
Definition word_lines (comment_char : string) (lines : list string) : list string :=
  filter (fun line => negb (String.eqb line "")
                      && negb (PyStr.startswith comment_char line) = true)
    (map (PyStr.strip PyStr.is_space) lines).

(** [_load_keywords(filepath)]: [file] holds the lines of the file, and is
    [None] for a file that cannot be read, which yields the empty set. *)
Definition _load_keywords (file : option (list string)) : list string :=
  match file with
  | None => nil
  | Some lines => list_set (map PyStr.lower (word_lines "#" lines))
  end.

(** ** [get_statistics] *)

Record Statistics := mkStatistics {
  total_pages : Z;
  pages_with_matches : Z;
  total_keyword_matches : Z;
  keyword_frequency : gmap string Z;
  entity_counts : gmap string Z;
  unique_entities : Z
}.

(** [sum(xs)] *)
Definition py_sum (xs : list Z) : Z := fold_left Z.add xs 0.

(** [freq[keyword] = freq.get(keyword, 0) + 1] *)
Definition count_keyword (freq : gmap string Z) (km : KeywordMatch)
  : gmap string Z :=
  <[keyword km := default 0 (freq !! keyword km) + 1]> freq.

(** The body of the loop over [result['entities'].items()]: the count of
    the kind and the set of the marked values. *)
Definition count_entities (acc : gmap string Z * gset string)
    (kv : string * list string) : gmap string Z * gset string :=
  let entity_type := fst kv in
  let entities := snd kv in
  let counts :=
    match fst acc !! entity_type with
    | None => <[entity_type := 0]> (fst acc)
    | Some _ => fst acc
    end in
  let counts :=
    <[entity_type :=
        default 0 (counts !! entity_type) + Z.of_nat (length entities)]> counts in
  let unique :=
    fold_left (fun unique entity => {[ entity_type +:+ ":" +:+ entity ]} ∪ unique)
      entities (snd acc) in
  (counts, unique).

(** [get_statistics(parsed_results)] *)
Definition get_statistics (parsed_results : list Finding) : Statistics :=
  let frequency :=
    fold_left (fun freq result => fold_left count_keyword (keyword_matches result) freq)
      parsed_results ∅ in
  let counted :=
    fold_left (fun acc result => fold_left count_entities (entities result) acc)
      parsed_results (∅, ∅) in
  mkStatistics
    (Z.of_nat (length parsed_results))
    (py_sum (map (fun _ => 1)
               (filter (fun r => has_matches r = true) parsed_results)))
    (py_sum (map (fun r => Z.of_nat (length (keyword_matches r))) parsed_results))
    frequency
    (fst counted)
    (Z.of_nat (size (snd counted))).

End content_parser.

(* ===================================================================== *)
(** * [tor_crawler.py] *)
(* ===================================================================== *)

Module tor_crawler.
Import urllib.

(** ** Response bodies *)

(** A decoded body is a Python [str]: a list of code points.  Its raw form
    is a list of bytes. *)
Definition codepoint := N.
Definition pystr := list codepoint.

Definition byte_of (n : N) : Byte.byte :=
  match Byte.of_N n with Some b => b | None => Byte.x00 end.

(** UTF-8, the encoding of the examples. *)
Definition utf8_encode_cp (c : codepoint) : list Byte.byte :=
  (if c <? 128 then byte_of c :: nil
   else if c <? 2048 then
     byte_of (192 + c / 64) :: byte_of (128 + c mod 64) :: nil
   else if c <? 65536 then
     byte_of (224 + c / 4096) :: byte_of (128 + (c / 64) mod 64)
     :: byte_of (128 + c mod 64) :: nil
   else
     byte_of (240 + c / 262144) :: byte_of (128 + (c / 4096) mod 64)
     :: byte_of (128 + (c / 64) mod 64) :: byte_of (128 + c mod 64) :: nil)%N.

Definition utf8_encode (s : pystr) : list Byte.byte := flat_map utf8_encode_cp s.

(** [len(x)] as a Python integer. *)
Definition len {A} (l : list A) : Z := Z.of_nat (length l).

(** [s[:n]] for any integer [n]: a negative [n] counts from the end. *)
Definition slice_to {A} (n : Z) (s : list A) : list A :=
  if 0 <=? n then take (Z.to_nat n) s
  else take (length s - Z.to_nat (- n)) s.

(** ** The outside world *)

(** What [requests] hands back: [response.status_code],
    [response.content] (bytes), [response.text] (decoded) and
    [response.headers]. *)
Record Response := mkResponse {
  status_code : Z;
  content : list Byte.byte;
  text : pystr;
  headers : list (string * string)
}.

(** The outcome of [session.get]: a response or one of the exceptions
    [crawl_page] handles. *)
Inductive GetOutcome : Type :=
| Returned (r : Response)
| RaisedTimeout
| RaisedConnectionError
| RaisedOther.

(** The network and the HTML parser.  A request changes the state of the
    world, and the same URL may answer differently each time.
    [soup_raises content] says that [BeautifulSoup(content, 'html.parser')]
    or a call on the soup raises an exception; when it does not,
    [soup_get_text], [soup_title] and [soup_hrefs] give what the calls
    return.  [soup_hrefs] lists the [href] of every anchor that has one. *)
Class Web := {
  World : Type;
  session_get : World -> string -> World * GetOutcome;
  clock : World -> Z;
  soup_raises : pystr -> bool;
  soup_get_text : pystr -> pystr;
  soup_title : pystr -> pystr;
  soup_hrefs : pystr -> list string
}.

(** The entries of [config] the crawler reads. *)
Record Config := mkConfig {
  max_pages_per_site : Z;
  max_content_length : Z;
  min_content_length : Z
}.

(** The defaults of the [config.get] calls. *)
Definition default_config : Config := mkConfig 10 1048576 100.

(** The dict [crawl_page] returns. *)
Record Page := mkPage {
  p_url : string;
  p_status_code : Z;
  p_content : pystr;
  p_raw_html : pystr;
  p_title : pystr;
  p_links : list string;
  p_headers : list (string * string);
  p_timestamp : Z;
  p_content_length : Z
}.

Section Crawler.
Context `{UrlLib} `{Web}.
Variable config : Config.

(** [_is_valid_onion_url(url)] *)
Definition _is_valid_onion_url (url : string) : bool :=
  match urlparse url with
  | Some parsed =>
      existsb (String.eqb (scheme parsed)) ("http" :: "https" :: nil)
      && PyStr.endswith ".onion" (netloc parsed)
  | None => false
  end.

(** [_same_domain(url1, url2)] *)
Definition _same_domain (url1 url2 : string) : bool :=
  match urlparse url1, urlparse url2 with
  | Some p1, Some p2 => String.eqb (netloc p1) (netloc p2)
  | _, _ => false
  end.

(** The body kept by [crawl_page]: cut when the raw bytes are more than
    [max_content_length]. *)
Definition retained (response : Response) : pystr :=
  let max_length := max_content_length config in
  if max_length <? len (content response)
  then slice_to max_length (text response)
  else text response.

(** [[urljoin(url, href) for href in hrefs]]: the first [href] on which
    [urljoin] raises ends the loop over the anchors. *)
Fixpoint join_all (url : string) (hrefs : list string) : option (list string) :=
  match hrefs with
  | nil => Some nil
  | href :: hrefs' =>
      match urljoin url href with
      | None => None
      | Some full_url =>
          match join_all url hrefs' with
          | None => None
          | Some full_urls => Some (full_url :: full_urls)
          end
      end
  end.

(** What [crawl_page] does with a response.  An exception raised by the
    parser or by [urljoin] is caught by the last [except] clause: the
    result is [None]. *)
Definition process_response (w : World) (url : string) (response : Response)
  : option Page :=
  if negb (status_code response =? 200) then None
  else
    let content := retained response in
    if soup_raises content then None
    else
      let text_content := soup_get_text content in
      let min_length := min_content_length config in
      if len text_content <? min_length then None
      else
        match join_all url (soup_hrefs content) with
        | None => None
        | Some full_urls =>
            let links :=
              filter (fun full_url => _is_valid_onion_url full_url = true)
                     full_urls in
            Some (mkPage url (status_code response) text_content content
                    (soup_title content) links (headers response) (clock w)
                    (len content))
        end.

(** [crawl_page(url)].  The random pause before the request, with a delay
    that is not negative, has no effect on the result and is left out. *)
Definition crawl_page (w : World) (url : string) : World * option Page :=
  let '(w1, outcome) := session_get w url in
  match outcome with
  | Returned response => (w1, process_response w1 url response)
  | RaisedTimeout => (w1, None)
  | RaisedConnectionError => (w1, None)
  | RaisedOther => (w1, None)
  end.

(** ** [crawl_site] *)

(** The variables of the loop, the world, and a log of the URLs handed
    to [crawl_page], oldest first (the log is not in the source; it
    records what the loop fetched). *)
Record Frontier := mkFrontier {
  world : World;
  results : list Page;
  visited_urls : gset string;
  urls_to_visit : list string;
  fetched : list string
}.

(** The body of [for link in page_data.get('links', [])]. *)
Definition enqueue (base_url : string) (visited : gset string)
    (queue : list string) (link : string) : list string :=
  if bool_decide (link ∉ visited)
     && bool_decide (link ∉ queue)
     && _same_domain base_url link
  then queue ++ link :: nil
  else queue.

(** One turn of the [while] loop; [None] when its condition is false. *)
Definition crawl_step (base_url : string) (st : Frontier) : option Frontier :=
  match urls_to_visit st with
  | nil => None
  | url :: queue =>
      if negb (len (results st) <? max_pages_per_site config) then None
      else if bool_decide (url ∈ visited_urls st)
      then Some (mkFrontier (world st) (results st) (visited_urls st)
                   queue (fetched st))
      else
        let visited := {[url]} ∪ visited_urls st in
        let '(w1, page_data) := crawl_page (world st) url in
        match page_data with
        | Some pd =>
            Some (mkFrontier w1 (results st ++ pd :: nil) visited
                    (fold_left (enqueue base_url visited) (p_links pd) queue)
                    (fetched st ++ url :: nil))
        | None =>
            Some (mkFrontier w1 (results st) visited queue
                    (fetched st ++ url :: nil))
        end
  end.

(** The loop, run for at most [fuel] turns: [None] when the fuel runs
    out before the condition fails. *)
Fixpoint crawl_loop (base_url : string) (fuel : nat) (st : Frontier)
  : option Frontier :=
  match crawl_step base_url st with
  | None => Some st
  | Some st' =>
      match fuel with
      | O => None
      | S fuel' => crawl_loop base_url fuel' st'
      end
  end.

Definition initial (w : World) (base_url : string) : Frontier :=
  mkFrontier w nil ∅ (base_url :: nil) nil.

(** [crawl_site(base_url)], with the final state of the loop. *)
Definition crawl_site (fuel : nat) (w : World) (base_url : string)
  : option Frontier :=
  crawl_loop base_url fuel (initial w base_url).

(** ** [crawl_urls_from_file] *)

(** The lines kept from the file: stripped, not empty, no comment. *)
Definition read_urls (lines : list string) : list string :=
  map (PyStr.strip PyStr.is_space)
    (filter (fun line =>
               let s := PyStr.strip PyStr.is_space line in
               negb (String.eqb s "") && negb (PyStr.startswith "#" s) = true)
            lines).

(** The [for url in urls] loop: results and fetch log of all sites. *)
Fixpoint crawl_urls (fuel : nat) (w : World) (urls : list string)
  : option (World * list Page * list string) :=
  match urls with
  | nil => Some (w, nil, nil)
  | url :: urls' =>
      if _is_valid_onion_url url then
        match crawl_site fuel w url with
        | None => None
        | Some st =>
            match crawl_urls fuel (world st) urls' with
            | None => None
            | Some (w', all_results, log) =>
                Some (w', results st ++ all_results, fetched st ++ log)
            end
        end
      else crawl_urls fuel w urls'
  end.

(** [crawl_urls_from_file(filepath)]; [file = None] is a file that
    cannot be opened, which yields no result. *)
Definition crawl_urls_from_file (fuel : nat) (w : World)
    (file : option (list string))
  : option (World * list Page * list string) :=
  match file with
  | None => Some (w, nil, nil)
  | Some lines => crawl_urls fuel w (read_urls lines)
  end.

End Crawler.

(** ** [AsyncTorCrawler] *)

(** The outcome of one [session.get] and [response.text()] of [aiohttp]. *)
Inductive AsyncOutcome : Type :=
| AResponse (status : Z) (body : pystr) (hdrs : list (string * string))
| ATimeout
| AError.

(** The dict [crawl_page_async] returns (it has no [links]). *)
Record AsyncPage := mkAsyncPage {
  a_url : string;
  a_status_code : Z;
  a_content : pystr;
  a_raw_html : pystr;
  a_title : pystr;
  a_headers : list (string * string);
  a_content_length : Z
}.

(** An entry of what [asyncio.gather(..., return_exceptions=True)]
    yields: the value a task returned, or the exception it raised. *)
Inductive Gathered : Type :=
| Value (v : option AsyncPage)
| ExceptionObject.

Section AsyncCrawler.
Context `{Web}.
Variable config : Config.

(** The body kept by [crawl_page_async]: cut when the decoded text is
    longer than [max_content_length]. *)
Definition retained_async (body : pystr) : pystr :=
  let max_length := max_content_length config in
  if max_length <? len body then slice_to max_length body else body.

(** [crawl_page_async(session, url)], given what the request did.  An
    exception raised by the parser is caught: the result is [None]. *)
Definition crawl_page_async (url : string) (outcome : AsyncOutcome)
  : option AsyncPage :=
  match outcome with
  | AResponse status body hdrs =>
      if negb (status =? 200) then None
      else
        let content := retained_async body in
        if soup_raises content then None
        else
          let text_content := soup_get_text content in
          let min_length := min_content_length config in
          if len text_content <? min_length then None
          else Some (mkAsyncPage url status text_content content
                       (soup_title content) hdrs (len content))
  | ATimeout => None
  | AError => None
  end.

(** [asyncio.gather] over the tasks, with [return_exceptions=True]: one entry per
    task, in the order of the tasks. *)
Definition gather (jobs : list (string * AsyncOutcome)) : list Gathered :=
  map (fun '(url, outcome) => Value (crawl_page_async url outcome)) jobs.

(** [[r for r in results if r is not None and not isinstance(r, Exception)]] *)
Fixpoint valid_results (results : list Gathered) : list AsyncPage :=
  match results with
  | nil => nil
  | Value (Some r) :: rest => r :: valid_results rest
  | Value None :: rest => valid_results rest
  | ExceptionObject :: rest => valid_results rest
  end.

(** [crawl_urls_async(urls)]; [net] gives, task by task, what the
    network did with the request. *)
Definition crawl_urls_async (net : list AsyncOutcome) (urls : list string)
  : list AsyncPage :=
  valid_results (gather (zip urls net)).

End AsyncCrawler.

End tor_crawler.

(* ===================================================================== *)
(** * [main.py]: continuous monitoring *)
(* ===================================================================== *)

Module main.
Import urllib tor_crawler.

(** What the monitor does, one entry per action: the start of scan [n],
    a page fetch of the crawler, a one-second sleep of the wait. *)
Inductive Event : Type :=
| ScanStart (n : nat)
| Fetch (url : string)
| Sleep.

Section Monitor.
Context `{UrlLib} `{Web}.
Variable config : Config.

(** The signal handler sets [self.running = False] once [stop_after]
    actions have been done; [log] holds the actions done so far. *)
Variable stop_after : nat.

(** Reading [self.running]. *)
Definition running (log : list Event) : bool :=
  (length log <? stop_after)%nat.

(** [run_single_scan(urls_file)], as far as the crawl goes: the pages
    are then parsed, stored and reported one by one, without a further
    request. *)
Definition run_single_scan (fuel : nat) (w : World) (file : option (list string))
  : option (World * list Event) :=
  match crawl_urls_from_file config fuel w file with
  | None => None
  | Some (w', _, log) => Some (w', map Fetch log)
  end.

(** [for _ in range(interval): if not self.running: break; time.sleep(1)] *)
Fixpoint wait (ticks : nat) (log : list Event) : list Event :=
  match ticks with
  | O => log
  | S ticks' =>
      if negb (running log) then log
      else wait ticks' (log ++ Sleep :: nil)
  end.

(** The [while self.running] loop of [run_continuous_monitoring], for at
    most [scans] scans. *)
Fixpoint monitor (scans fuel : nat) (file : option (list string))
    (interval : Z) (w : World) (scan_count : nat) (log : list Event)
  : option (list Event) :=
  if negb (running log) then Some log
  else
    match scans with
    | O => None
    | S scans' =>
        let scan_count := S scan_count in
        let log := log ++ ScanStart scan_count :: nil in
        match run_single_scan fuel w file with
        | None => None
        | Some (w', events) =>
            monitor scans' fuel file interval w' scan_count
              (wait (Z.to_nat interval) (log ++ events))
        end
    end.

(** [run_continuous_monitoring(urls_file, interval)] *)
Definition run_continuous_monitoring (scans fuel : nat)
    (file : option (list string)) (interval : Z) (w : World)
  : option (list Event) :=
  monitor scans fuel file interval w O nil.

End Monitor.
End main.

(* ===================================================================== *)
(** * [utils.py]: word lists, text, file names and HTML *)
(* ===================================================================== *)

Module utils_text.
Import urllib.

(** ** [load_wordlist] *)

(** [load_wordlist(filepath, comment_char)]; [file = None] is a file that
    does not exist. *)
Definition load_wordlist (file : option (list string)) (comment_char : string)
  : list string :=
  match file with
  | None => nil
  | Some lines =>
      map PyStr.lower
        (filter (fun line => negb (String.eqb line "")
                             && negb (PyStr.startswith comment_char line) = true)
           (map (PyStr.strip PyStr.is_space) lines))
  end.

(** ** [sanitize_text] *)

(** [ord(char) >= 32 or char in '\n\t'] *)
Definition keeps (c : ascii) : bool :=
  (32 <=? nat_of_ascii c)%nat || Ascii.eqb c "010" || Ascii.eqb c "009".

(** [s.split()]: the maximal runs of characters that are not blanks. *)
Fixpoint words (s : string) : list string :=
  match s with
  | EmptyString => nil
  | String c s' =>
      if PyStr.is_space c then words s'
      else
        match s' with
        | EmptyString => String c EmptyString :: nil
        | String d _ =>
            if PyStr.is_space d then String c EmptyString :: words s'
            else match words s' with
                 | w :: ws => String c w :: ws
                 | nil => String c EmptyString :: nil
                 end
        end
  end.

(** [sep.join(parts)] *)
Fixpoint join (sep : string) (parts : list string) : string :=
  match parts with
  | nil => EmptyString
  | part :: nil => part
  | part :: parts' => part +:+ sep +:+ join sep parts'
  end.

(** [s[:n]] for any integer [n]: a negative [n] counts from the end. *)
Definition slice_to (n : Z) (s : string) : string :=
  if 0 <=? n then PyStr.take (Z.to_nat n) s
  else PyStr.take (String.length s - Z.to_nat (- n)) s.

(** [sanitize_text(text, max_length)] on ASCII text; [max_length = None]
    is the default. *)
Definition sanitize_text (text : string) (max_length : option Z) : string :=
  let sanitized := PyStr.filter_chars keeps text in
  let sanitized := join " " (words sanitized) in
  match max_length with
  | Some n =>
      if negb (n =? 0) && (n <? PyStr.len sanitized)
      then slice_to n sanitized +:+ "..."
      else sanitized
  | None => sanitized
  end.

(** ** [create_safe_filename] *)

(** The class [[\w\-_.]] on ASCII text. *)
Definition is_safe_char (c : ascii) : bool :=
  re.is_word c || Ascii.eqb c "-" || Ascii.eqb c "_" || Ascii.eqb c ".".

Section SafeFilename.
Context `{UrlLib}.

(** [urlparse(url).path], which the interface of [urllib] above leaves
    out, and the text of [datetime.now().strftime('%Y%m%d_%H%M%S')]. *)
Variable path_of : string -> string.
Variable timestamp : string.

(** [create_safe_filename(url, max_length)]; [None] is the exception of
    [urlparse]. *)
Definition create_safe_filename (url : string) (max_length : Z) : option string :=
  match urlparse url with
  | None => None
  | Some parsed =>
      let domain :=
        match netloc parsed with
        | EmptyString => "unknown"
        | _ => netloc parsed
        end in
      let path := PyStr.replace "/" "_" (path_of url) in
      let safe_chars :=
        PyStr.map_chars (fun c => if is_safe_char c then c else "_"%char)
          (domain +:+ path) in
      let safe_chars :=
        if max_length <? PyStr.len safe_chars
        then slice_to max_length safe_chars
        else safe_chars in
      Some (timestamp +:+ "_" +:+ safe_chars)
  end.

End SafeFilename.

(** ** [clean_html] *)

(** [re.sub(pattern, '', text)]: the scan of [finditer], keeping the
    characters outside the matches.  The fuel of [sub_empty] is never used
    up (lemma [delete_matches_fuel]). *)
Fixpoint delete_matches (r : re.regex) (fuel : nat) (st : re.mstate) : string :=
  match fuel with
  | O => re.rest st
  | S fuel' =>
      let keep_one :=
        match re.rest st with
        | EmptyString => EmptyString
        | String c s' =>
            String c (delete_matches r fuel'
                        (re.mkState (Some c) s' (S (re.pos st)) None))
        end in
      match re.match_here r st with
      | Some st' =>
          if (re.pos st <? re.pos st')%nat then delete_matches r fuel' st'
          else keep_one
      | None => keep_one
      end
  end.

Definition sub_empty (r : re.regex) (text : string) : string :=
  delete_matches r (S (String.length text)) (re.start_state text).

(** [<tag[^>]*>.*?</tag>] with [re.IGNORECASE | re.DOTALL], for a tag
    made of letters, as all tags of [clean_html] are. *)
Definition tag_pattern (tag : string) : re.regex :=
  re.seq (re.lit_i (String "<" tag)
          :: re.star (re.Chr (fun c => negb (Ascii.eqb c ">")))
          :: re.chr_i ">"
          :: re.lazy_star re.any_char
          :: re.lit_i ("</" +:+ tag +:+ ">")
          :: nil).

(** [<!--.*?-->] with [re.DOTALL] *)
Definition comment_pattern : re.regex :=
  re.seq (re.lit "<!--" :: re.lazy_star re.any_char :: re.lit "-->" :: nil).

Definition unwanted_tags : list string :=
  "noscript" :: "iframe" :: "embed" :: "object" :: "applet" :: nil.

(** [clean_html(html_content)] *)
Definition clean_html (html_content : string) : string :=
  let html_content := sub_empty (tag_pattern "script") html_content in
  let html_content := sub_empty (tag_pattern "style") html_content in
  let html_content := sub_empty comment_pattern html_content in
  fold_left (fun html_content tag => sub_empty (tag_pattern tag) html_content)
    unwanted_tags html_content.

End utils_text.

(* ===================================================================== *)
(** * [utils.py]: the rate limiter *)
(* ===================================================================== *)

Module utils_rate.

(** The times are clock readings in whole ticks; the source reads
    [time.time()], and the rounding of its floating-point seconds is not
    modelled. *)
Record RateLimiter := mkRateLimiter {
  max_requests : Z;
  time_window : Z;
  requests : list Z
}.

(** [RateLimiter(max_requests, time_window)] *)
Definition new_limiter (max_requests time_window : Z) : RateLimiter :=
  mkRateLimiter max_requests time_window nil.

(** [can_make_request()], with the reading [now] of the clock: the
    limiter with the old requests removed, and the answer. *)
Definition can_make_request (now : Z) (rl : RateLimiter) : RateLimiter * bool :=
  let kept := filter (fun req_time => now - req_time < time_window rl) (requests rl) in
  (mkRateLimiter (max_requests rl) (time_window rl) kept,
   Z.of_nat (length kept) <? max_requests rl).

(** [make_request()]: the clock is read once for the check, [now], and
    once more for the record, [now']. *)
Definition make_request (now now' : Z) (rl : RateLimiter) : RateLimiter * bool :=
  let '(rl', allowed) := can_make_request now rl in
  if allowed
  then (mkRateLimiter (max_requests rl') (time_window rl') (requests rl' ++ now' :: nil),
        true)
  else (rl', false).

(** [min(xs)]; [None] is the [ValueError] for an empty list. *)
Definition py_min (xs : list Z) : option Z :=
  match xs with
  | nil => None
  | x :: xs' => Some (fold_left Z.min xs' x)
  end.

(** [time_until_next_request()]; [None] is an exception. *)
Definition time_until_next_request (now now' : Z) (rl : RateLimiter)
  : RateLimiter * option Z :=
  let '(rl', allowed) := can_make_request now rl in
  if allowed then (rl', Some 0)
  else
    match py_min (requests rl') with
    | None => (rl', None)
    | Some oldest_request => (rl', Some (time_window rl' - (now' - oldest_request)))
    end.

(** A sequence of calls of [make_request], each with its two readings of
    the clock: the limiter at the end and the answers. *)
Fixpoint make_requests (readings : list (Z * Z)) (rl : RateLimiter)
  : RateLimiter * list bool :=
  match readings with
  | nil => (rl, nil)
  | (now, now') :: readings' =>
      let '(rl', allowed) := make_request now now' rl in
      let '(rl'', answers) := make_requests readings' rl' in
      (rl'', allowed :: answers)
  end.

End utils_rate.

(* ===================================================================== *)
(** * [database_handler.py]: the file-based storage *)
(* ===================================================================== *)

Module database_handler.

(** A line of [findings.jsonl] as the reader sees it: blank after
    [strip], a finding that [json.loads] reads, or text on which
    [json.loads] raises. *)
Inductive Line (A : Type) : Type :=
| Blank
| Stored (finding : A)
| Malformed.

Arguments Blank {A}.
Arguments Stored {A} finding.
Arguments Malformed {A}.

Section FileBasedStorage.
Context {A : Type}.

(** [x.get('timestamp', 0)], a number. *)
Variable timestamp_of : A -> Z.

(** The loop over the lines: the findings read, and whether the loop ended
    without exception. *)
Fixpoint read_findings (limit : Z) (lines : list (Line A)) (findings : list A)
  : list A * bool :=
  match lines with
  | nil => (findings, true)
  | Blank :: lines' => read_findings limit lines' findings
  | Malformed :: _ => (findings, false)
  | Stored finding :: lines' =>
      let findings := findings ++ finding :: nil in
      if limit <=? Z.of_nat (length findings) then (findings, true)
      else read_findings limit lines' findings
  end.

(** [findings.sort(key=..., reverse=True)]: by decreasing time stamp,
    findings of equal time stamp in their former order. *)
Fixpoint insert_desc (x : A) (l : list A) : list A :=
  match l with
  | nil => x :: nil
  | y :: l' =>
      if timestamp_of x <? timestamp_of y then y :: insert_desc x l'
      else x :: l
  end.

Definition sort_desc (l : list A) : list A := foldr insert_desc nil l.

(** [FileBasedStorage.get_findings(limit)]; [file = None] is a file that
    does not exist.  After an exception the findings read so far are
    returned as they are. *)
Definition get_findings (limit : Z) (file : option (list (Line A))) : list A :=
  match file with
  | None => nil
  | Some lines =>
      let '(findings, ended) := read_findings limit lines nil in
      if ended then sort_desc findings else findings
  end.

End FileBasedStorage.
End database_handler.

(* ===================================================================== *)
(** * A small web to run the crawler on *)
(* ===================================================================== *)

Module toy.
Import urllib tor_crawler.

Definition home : string := "http://aaaaaaaaaaaaaaaa.onion/".
Definition market : string := "http://aaaaaaaaaaaaaaaa.onion/market".
Definition forum : string := "http://aaaaaaaaaaaaaaaa.onion/forum".
Definition down : string := "http://aaaaaaaaaaaaaaaa.onion/down".
Definition elsewhere : string := "http://bbbbbbbbbbbbbbbb.onion/".
Definition clearnet : string := "http://example.com/".
Definition cafe : string := "http://aaaaaaaaaaaaaaaa.onion/cafe".

(** The body of a page is its number; the body of [cafe] is three times
    the letter e with an acute accent (code point 233, two bytes in
    UTF-8).  Every page links to the four pages of the site, which
    includes itself, and to two other hosts: the link graph is cyclic. *)
Definition all_links : list string :=
  home :: market :: forum :: down :: home :: elsewhere :: clearnet :: nil.

Definition body_of (url : string) : option pystr :=
  if String.eqb url home then Some (1 :: nil)%N
  else if String.eqb url market then Some (2 :: nil)%N
  else if String.eqb url forum then Some (3 :: nil)%N
  else if String.eqb url cafe then Some (233 :: 233 :: 233 :: nil)%N
  else None.

Definition respond (body : pystr) : GetOutcome :=
  Returned (mkResponse 200 (utf8_encode body) body nil).

(** The page [down] times out; unknown pages refuse the connection. *)
Definition get (w : nat) (url : string) : nat * GetOutcome :=
  (S w,
   match body_of url with
   | Some body => respond body
   | None => if String.eqb url down then RaisedTimeout else RaisedConnectionError
   end).

Definition web : Web := {|
  World := nat;
  session_get := get;
  clock := Z.of_nat;
  soup_raises := fun _ => false;
  soup_get_text := fun body => body;
  soup_title := fun _ => nil;
  soup_hrefs := fun _ => all_links
|}.

(** The same site, where every page holds one anchor with an [href]
    that [urljoin] refuses. *)
Definition broken : Web := {|
  World := nat;
  session_get := get;
  clock := Z.of_nat;
  soup_raises := fun _ => false;
  soup_get_text := fun body => body;
  soup_title := fun _ => nil;
  soup_hrefs := fun _ => "http://[x"%string :: nil
|}.

Definition config : Config := mkConfig 10 1048576 1.

(** No request made yet. *)
Definition start : @World web := O.

(** A host body of five characters. *)
Definition short_url : string := "http://short.onion/x".

(** Two pages handed to the parser, each with one keyword and one email
    address in its text. *)
Definition shop : content_parser.PageData :=
  content_parser.mkPage home "Shop" "Buy Bitcoin now, write to a@b.com" 0 33.

Definition shop_with_digits : content_parser.PageData :=
  content_parser.mkPage home "Shop" "Bitcoin: write to 5551234567@b.com" 0 34.

(** A batch of five requests, two of which time out. *)
Definition ok_page : AsyncOutcome := AResponse 200 (1 :: nil)%N nil.

Definition five_urls : list string :=
  toy.home :: toy.down :: toy.market :: toy.down :: toy.forum :: nil.

Definition two_timeouts : list AsyncOutcome :=
  ok_page :: ATimeout :: ok_page :: ATimeout :: ok_page :: nil.

End toy.

(* ===================================================================== *)
(** * Vocabulary of the statements *)
(* ===================================================================== *)

Section FrontierVocabulary.
Import urllib tor_crawler.
Context `{UrlLib} `{Web}.
Variable config : Config.
Variable base_url : string.

(** The three ways a turn of the loop can go. *)
Inductive turn (st : Frontier) : Frontier -> Prop :=
| turn_skip url queue :
    urls_to_visit st = url :: queue ->
    len (results st) < max_pages_per_site config ->
    url ∈ visited_urls st ->
    turn st (mkFrontier (world st) (results st) (visited_urls st) queue (fetched st))
| turn_page url queue w1 pd :
    urls_to_visit st = url :: queue ->
    len (results st) < max_pages_per_site config ->
    url ∉ visited_urls st ->
    crawl_page config (world st) url = (w1, Some pd) ->
    turn st (mkFrontier w1 (results st ++ pd :: nil) ({[url]} ∪ visited_urls st)
               (fold_left (enqueue base_url ({[url]} ∪ visited_urls st))
                  (p_links pd) queue)
               (fetched st ++ url :: nil))
| turn_dropped url queue w1 :
    urls_to_visit st = url :: queue ->
    len (results st) < max_pages_per_site config ->
    url ∉ visited_urls st ->
    crawl_page config (world st) url = (w1, None) ->
    turn st (mkFrontier w1 (results st) ({[url]} ∪ visited_urls st) queue
               (fetched st ++ url :: nil)).

(** One turn of the loop, as a relation. *)
Definition steps_to (st st' : Frontier) : Prop :=
  crawl_step config base_url st = Some st'.

(** The pages still allowed, and the length of the queue: a turn either
    adds a page, or keeps the pages and shortens the queue. *)
Definition pages_left (st : Frontier) : nat :=
  Z.to_nat (max_pages_per_site config - len (results st)).

(** No URL was fetched twice, and what was fetched is marked visited. *)
Definition fetch_once (st : Frontier) : Prop :=
  NoDup (fetched st) /\ (forall url, url ∈ fetched st -> url ∈ visited_urls st).

(** The pages are within the cap (a negative cap counts as zero). *)
Definition within_cap (st : Frontier) : Prop :=
  len (results st) <= Z.max 0 (max_pages_per_site config).

(** The URL passes the crawler's check. *)
Definition valid (url : string) : Prop := _is_valid_onion_url url = true.

Definition all_valid (st : Frontier) : Prop :=
  Forall valid (urls_to_visit st) /\ Forall valid (fetched st).

End FrontierVocabulary.

Section TextVocabulary.

(** A character of the ASCII range. *)
Definition is_ascii_char (c : ascii) : bool := (nat_of_ascii c <? 128)%nat.

(** [s.isascii()].  On such a text [str.lower], [str.upper],
    [str.strip] and [str.split], and the classes [\w], [\s] and [\b] of
    [re], with [re.IGNORECASE] or without it, are what [PyStr] and [re]
    say; outside ASCII Python follows the Unicode tables, which are not
    modelled. *)
Definition isascii (s : string) : bool := PyStr.all_chars is_ascii_char s.

End TextVocabulary.

Section KeywordVocabulary.
Import re content_parser.

Definition first_char (s : string) : option ascii :=
  match s with
  | EmptyString => None
  | String c _ => Some c
  end.

Fixpoint last_char (s : string) : option ascii :=
  match s with
  | EmptyString => None
  | String c s' =>
      match last_char s' with
      | Some d => Some d
      | None => Some c
      end
  end.

(** The keyword occurs at offset [i], whatever the case of the letters,
    with no word character just before it and none just after it. *)
Definition occurs_at (kw content : string) (i : nat) : Prop :=
  exists pre mid post,
    content = pre +:+ mid +:+ post
    /\ String.length pre = i
    /\ PyStr.lower mid = PyStr.lower kw
    /\ is_word_opt (last_char pre) = false
    /\ is_word_opt (first_char post) = false.

(** The keyword begins and ends with a word character. *)
Definition word_ended (kw : string) : Prop :=
  is_word_opt (first_char kw) = true /\ is_word_opt (last_char kw) = true.

(** The offsets at which [finditer] reports the keyword. *)
Definition recorded (kw content : string) : list nat :=
  map position (matches_of_keyword content kw).

(** The matcher stands in [content] where [st] says. *)
Definition at_pos (content : string) (st : mstate) : Prop :=
  exists pre,
    content = pre +:+ rest st
    /\ String.length pre = pos st
    /\ prev st = last_char pre.

(** Read [kw] off the front of [s], ignoring case: the last character
    read and the text left. *)
Fixpoint strip_ci (kw : string) (p : option ascii) (s : string)
  : option (option ascii * string) :=
  match kw with
  | EmptyString => Some (p, s)
  | String c kw' =>
      match s with
      | String d s' =>
          if Ascii.eqb (PyStr.lower_char d) (PyStr.lower_char c)
          then strip_ci kw' (Some d) s'
          else None
      | EmptyString => None
      end
  end.

End KeywordVocabulary.

Section MonitorVocabulary.
Import main.
Variable stop_after : nat.

(** After the stop, the log holds fetches only; and a sleep that is the
    last action before the stop is the last action of all. *)
Definition stops_cleanly (log : list Event) : Prop :=
  (forall i e, (stop_after <= i)%nat -> log !! i = Some e -> exists url, e = Fetch url)
  /\ (forall i, S i = stop_after -> log !! i = Some Sleep -> length log = stop_after).

End MonitorVocabulary.

Section CrawlVocabulary.
Import urllib tor_crawler.
Context `{UrlLib} `{Web}.
Variable config : Config.
Variable base_url : string.

(** The URL is the seed or has the network location of the seed. *)
Definition on_seed_domain (url : string) : Prop :=
  url = base_url \/ _same_domain base_url url = true.

Definition confined (st : Frontier) : Prop :=
  Forall on_seed_domain (urls_to_visit st) /\ Forall on_seed_domain (fetched st).

(** What holds of a page that [crawl_page] returns. *)
Definition page_ok (pd : Page) : Prop :=
  p_status_code pd = 200
  /\ min_content_length config <= len (p_content pd)
  /\ p_content_length pd = len (p_raw_html pd)
  /\ Forall (fun link => _is_valid_onion_url link = true) (p_links pd).

Definition results_ok (st : Frontier) : Prop :=
  map p_url (results st) `sublist_of` fetched st
  /\ Forall page_ok (results st).

(** What holds of a page that [crawl_page_async] returns. *)
Definition async_page_ok (page : AsyncPage) : Prop :=
  a_status_code page = 200
  /\ min_content_length config <= len (a_content page)
  /\ a_content_length page = len (a_raw_html page).

End CrawlVocabulary.

Section FetchVocabulary.
Import urllib tor_crawler.
Context `{UrlLib} `{Web}.
Variable config : Config.

(** What makes a fetch give no page, for a response with this status
    whose body, as the client keeps it, is [kept]: a status other than
    200, a parser that raises, or a text that is too short. *)
Definition unusable (status : Z) (kept : pystr) : Prop :=
  status <> 200
  \/ soup_raises kept = true
  \/ len (soup_get_text kept) < min_content_length config.

(** An anchor of the kept body on whose [href] [urljoin] raises. *)
Definition broken_link (url : string) (kept : pystr) : Prop :=
  exists href, href ∈ soup_hrefs kept /\ urljoin url href = None.

(** The fetch of the concurrent client gives a page. *)
Definition succeeds (outcome : AsyncOutcome) : bool :=
  match outcome with
  | AResponse status body _ =>
      (status =? 200)
      && negb (soup_raises (retained_async config body))
      && (min_content_length config
          <=? len (soup_get_text (retained_async config body)))
  | ATimeout => false
  | AError => false
  end.

End FetchVocabulary.

Section SnippetVocabulary.
Import re.

(** The state of the matcher on the lower-cased text. *)
Definition lower_state (st : mstate) : mstate :=
  mkState (option_map PyStr.lower_char (prev st)) (PyStr.lower (rest st))
    (pos st) (grp st).

End SnippetVocabulary.

Section EntityVocabulary.
Import content_parser.

(** The kinds of entity, in the order of the dict. *)
Definition entity_kinds : list string :=
  "emails" :: "bitcoin_addresses" :: "ethereum_addresses" :: "monero_addresses"
  :: "phone_numbers" :: "credit_cards" :: "ip_addresses" :: "urls"
  :: "ssh_keys" :: "pgp_keys" :: "api_keys" :: nil.

(** [entities.get(kind, [])] *)
Definition values_of (kind : string) (e : EntityMap) : list string :=
  match lookup_kind kind e with
  | Some values => values
  | None => nil
  end.

(** The value of a string of decimal digits. *)
Definition decimal (s : string) : Z :=
  fold_left (fun acc c => 10 * acc + (Z.of_nat (nat_of_ascii c) - 48))
    (list_ascii_of_string s) 0.

(** A non-empty string of digits that reads as a number up to 255. *)
Definition is_octet (s : string) : Prop :=
  s <> "" /\ PyStr.all_chars PyStr.is_digit s = true /\ decimal s <= 255.

(** Four octets with dots between them. *)
Definition dotted_quad (ip : string) : Prop :=
  exists a b c d,
    ip = a +:+ "." +:+ b +:+ "." +:+ c +:+ "." +:+ d
    /\ is_octet a /\ is_octet b /\ is_octet c /\ is_octet d.

(** Digits, hyphens and blanks only, of which 13 to 19 digits. *)
Definition card_number (cc : string) : Prop :=
  PyStr.all_chars
    (fun c => PyStr.is_digit c || Ascii.eqb c "-" || PyStr.is_space c) cc = true
  /\ (13 <= String.length (PyStr.filter_chars PyStr.is_digit cc) <= 19)%nat.

(** [".".join(parts)] *)
Fixpoint join_dot (parts : list string) : string :=
  match parts with
  | nil => ""
  | p :: nil => p
  | p :: ps => p +:+ "." +:+ join_dot ps
  end.

End EntityVocabulary.

Section WordFileVocabulary.

(** A word as the loaders keep it: not empty, in lower case, without blanks
    around it, and not a comment. *)
Definition kept_word (comment_char word : string) : Prop :=
  word <> ""
  /\ PyStr.lower word = word
  /\ PyStr.strip PyStr.is_space word = word
  /\ PyStr.startswith comment_char word = false.

End WordFileVocabulary.

Section StatisticsVocabulary.
Import content_parser.

(** The sum of the values of a tally. *)
Definition map_total (tally : gmap string Z) : Z :=
  map_fold (fun _ v acc => v + acc) 0 tally.

(** All keyword matches of the findings, and how many are of [kw]. *)
Definition all_matches (results : list Finding) : list KeywordMatch :=
  flat_map keyword_matches results.

Definition occurrences (kw : string) (results : list Finding) : Z :=
  Z.of_nat (length (filter (fun km => keyword km = kw) (all_matches results))).

(** All entries of the entity maps of the findings, and how many values
    they list under [kind]. *)
Definition all_entries (results : list Finding) : list (string * list string) :=
  flat_map entities results.

Definition listed (kind : string) (results : list Finding) : Z :=
  Z.of_nat (length (flat_map snd
                      (filter (fun kv => fst kv = kind) (all_entries results)))).

End StatisticsVocabulary.

Section SanitizeVocabulary.

(** A character with a code above 32, the space: no blank of ASCII, and
    none of the control characters below the space.  The delete
    character, code 127, is one of them. *)
Definition visible (c : ascii) : bool := (32 <? nat_of_ascii c)%nat.

(** A non-empty run of visible characters. *)
Definition visible_word (w : string) : Prop :=
  w <> "" /\ PyStr.all_chars visible w = true.

End SanitizeVocabulary.

Section RateVocabulary.
Import utils_rate.

(** The clock does not run backwards: the readings, in the order in which
    they are taken, do not decrease. *)
Fixpoint flat_readings (readings : list (Z * Z)) : list Z :=
  match readings with
  | nil => nil
  | (now, now') :: readings' => now :: now' :: flat_readings readings'
  end.

Definition monotone_clock (readings : list (Z * Z)) : Prop :=
  Sorted Z.le (flat_readings readings).

(** The calls that were allowed, each with its two readings. *)
Fixpoint granted (readings : list (Z * Z)) (answers : list bool) : list (Z * Z) :=
  match readings, answers with
  | r :: readings', true :: answers' => r :: granted readings' answers'
  | _ :: readings', false :: answers' => granted readings' answers'
  | _, _ => nil
  end.

(** Between an allowed call and the one [max] allowed calls later, the
    window has passed: from the record of the earlier one to the check of
    the later one. *)
Definition spaced (max window : Z) (log : list (Z * Z)) : Prop :=
  forall i earlier later,
    log !! i = Some earlier ->
    log !! (i + Z.to_nat max)%nat = Some later ->
    window <= fst later - snd earlier.

(** The recorded times are those of the allowed calls that have not been
    removed, in order; the removed ones are older than the window at time
    [T]. *)
Definition limiter_inv (max window : Z) (rl : RateLimiter) (log : list (Z * Z))
    (T : Z) : Prop :=
  max_requests rl = max
  /\ time_window rl = window
  /\ spaced max window log
  /\ StronglySorted Z.le (requests rl)
  /\ Forall (fun t => t <= T) (requests rl)
  /\ exists old, map snd log = old ++ requests rl
                 /\ Forall (fun t => window <= T - t) old.

End RateVocabulary.

Section StorageVocabulary.
Import database_handler.
Context {A : Type}.

(** The findings of a file, in the order of the lines. *)
Definition stored (lines : list (Line A)) : list A :=
  omap (fun line => match line with Stored finding => Some finding | _ => None end)
    lines.

Definition well_formed (lines : list (Line A)) : Prop :=
  Forall (fun line => line <> Malformed) lines.

End StorageVocabulary.

Section MatcherVocabulary.
Import re.

(** The matcher has read [mid] between the two states. *)
Definition reads (st st' : mstate) : Prop :=
  exists mid,
    rest st = mid +:+ rest st'
    /\ pos st' = (pos st + String.length mid)%nat.

(** The characters of a string. *)
Definition chars (s : string) : list ascii := list_ascii_of_string s.

(** A pattern that matches only where the text has [<]. *)
Definition opens_with_lt (r : regex) : Prop :=
  forall st, first_char (rest st) <> Some "<"%char -> match_here r st = None.

End MatcherVocabulary.

Section CleaningVocabulary.
Import re utils_text.

(** The substitution from a state on, with the fuel of [sub_empty]. *)
Definition sub_from (r : regex) (st : mstate) : string :=
  delete_matches r (S (String.length (rest st))) st.

(** A pattern that matches neither at [<sc] nor at [</]. *)
Definition passes_script (r : regex) : Prop :=
  opens_with_lt r
  /\ (forall st tail,
         rest st = String "<" (String "s" (String "c" tail)) ->
         match_here r st = None)
  /\ (forall st tail,
         rest st = String "<" (String "/" tail) -> match_here r st = None).

End CleaningVocabulary.

Section PatternVocabulary.
Import re.

(** [n] pieces one after the other, each with the property [P]. *)
Inductive repeats (P : string -> Prop) : nat -> string -> Prop :=
| repeats_O : repeats P O ""
| repeats_S (n : nat) (piece s : string) :
    P piece -> repeats P n s -> repeats P (S n) (piece +:+ s).

Definition upto (hi : option nat) (n : nat) : Prop :=
  match hi with
  | Some h => (n <= h)%nat
  | None => True
  end.

(** The texts of a pattern, where it stands apart: a word boundary reads
    nothing, and a group reads what is inside it. *)
Fixpoint derives (r : regex) (s : string) : Prop :=
  match r with
  | Eps => s = ""
  | Chr p => exists c, s = String c "" /\ p c = true
  | Seq r1 r2 => exists s1 s2, s = s1 +:+ s2 /\ derives r1 s1 /\ derives r2 s2
  | Alt r1 r2 => derives r1 s \/ derives r2 s
  | Rep _ lo hi r1 =>
      exists n, (lo <= n)%nat /\ upto hi n /\ repeats (derives r1) n s
  | WordB => s = ""
  | Group r1 => derives r1 s
  end.

Fixpoint no_group (r : regex) : bool :=
  match r with
  | Eps | Chr _ | WordB => true
  | Seq r1 r2 | Alt r1 r2 => no_group r1 && no_group r2
  | Rep _ _ _ r1 => no_group r1
  | Group _ => false
  end.

(** The characters of a class [[a-bc-d...xyz]]. *)
Definition in_class (ranges : list (ascii * ascii)) (singles : string)
    (c : ascii) : bool :=
  existsb (fun '(lo, hi) => in_range lo hi c) ranges
  || PyStr.contains_char c singles.

(** The scan stands in [content] where [st] says. *)
Definition stands_in (content : string) (st : mstate) : Prop :=
  exists pre, content = pre +:+ rest st /\ String.length pre = pos st.

End PatternVocabulary.

Section GroupVocabulary.
Import re.

(** The patterns inside the groups of a pattern. *)
Fixpoint groups (r : regex) : list regex :=
  match r with
  | Eps | Chr _ | WordB => nil
  | Seq r1 r2 | Alt r1 r2 => groups r1 ++ groups r2
  | Rep _ _ _ r1 => groups r1
  | Group r1 => r1 :: groups r1
  end.

(** Every match of the pattern goes through a group. *)
Fixpoint sets_group (r : regex) : bool :=
  match r with
  | Eps | Chr _ | WordB => false
  | Seq r1 r2 => sets_group r1 || sets_group r2
  | Alt r1 r2 => sets_group r1 && sets_group r2
  | Rep _ lo _ r1 => (1 <=? lo)%nat && sets_group r1
  | Group _ => true
  end.

(** The span of the group after a match that began at [st] and read
    [mid]: a piece of [mid] that a group of the pattern derives. *)
Definition group_span (r : regex) (st st' : mstate) (mid : string) : Prop :=
  exists inner pre g post,
    inner ∈ groups r
    /\ mid = pre +:+ g +:+ post
    /\ derives inner g
    /\ grp st' = Some ((pos st + String.length pre)%nat,
                       (pos st + String.length pre + String.length g)%nat).

End GroupVocabulary.

Section PhoneVocabulary.

(** The digits of a text. *)
Definition digits_of (s : string) : string := PyStr.filter_chars PyStr.is_digit s.

(** A character of a phone number: a digit, a sign, a bracket, a hyphen,
    a dot or a blank. *)
Definition phone_char (c : ascii) : bool :=
  PyStr.is_digit c || PyStr.contains_char c "+()-." || PyStr.is_space c.

(** A text of phone characters with [lo] to [hi] digits and at most
    [len] characters. *)
Definition phone_piece (lo hi len : nat) (s : string) : Prop :=
  (lo <= String.length (digits_of s) <= hi)%nat
  /\ PyStr.all_chars phone_char s = true
  /\ (String.length s <= len)%nat.

End PhoneVocabulary.

(* ===================================================================== *)
(** * Facts about the string operations *)
(* ===================================================================== *)

Section StringFacts.

Lemma app_empty_l (s : string) : "" +:+ s = s.
Proof. reflexivity. Qed.

Lemma app_cons (c : ascii) (s t : string) : String c s +:+ t = String c (s +:+ t).
Proof. reflexivity. Qed.

Lemma app_empty_r (s : string) : s +:+ "" = s.
Proof. induction s as [|c s IH]; [reflexivity|]. rewrite app_cons, IH. reflexivity. Qed.

Lemma string_length_app (s t : string) :
  String.length (s +:+ t) = (String.length s + String.length t)%nat.
Proof.
  induction s as [|c s IH]; [reflexivity|].
  rewrite app_cons. simpl. rewrite IH. reflexivity.
Qed.

Lemma substring_all (s : string) : substring 0 (String.length s) s = s.
Proof. induction s as [|c s IH]; simpl; [reflexivity|]. rewrite IH. reflexivity. Qed.

Lemma substring_skip (body suffix : string) :
  substring (String.length body) (String.length suffix) (body +:+ suffix) = suffix.
Proof.
  induction body as [|c body IH].
  - rewrite app_empty_l. apply substring_all.
  - rewrite app_cons. simpl. exact IH.
Qed.

Lemma take_substring (s : string) (k : nat) :
  (k <= String.length s)%nat ->
  s = PyStr.take k s +:+ substring k (String.length s - k) s.
Proof.
  revert k. induction s as [|c s IH]; intros k Hk.
  - destruct k; reflexivity.
  - destruct k as [|k].
    + cbn [PyStr.take]. rewrite app_empty_l, Nat.sub_0_r.
      symmetry. apply substring_all.
    + cbn [PyStr.take substring String.length Nat.sub]. rewrite app_cons.
      f_equal. apply IH. simpl in Hk. lia.
Qed.

(** [endswith] holds exactly of the strings that are some body followed by
    the suffix. *)
Lemma endswith_spec (suffix s : string) :
  PyStr.endswith suffix s = true <-> exists body, s = body +:+ suffix.
Proof.
  unfold PyStr.endswith. rewrite andb_true_iff, Nat.leb_le, String.eqb_eq. split.
  - intros [Hle Hsub].
    exists (PyStr.take (String.length s - String.length suffix) s).
    pose proof (take_substring s (String.length s - String.length suffix)) as E.
    replace (String.length s - (String.length s - String.length suffix))%nat
      with (String.length suffix) in E by lia.
    rewrite Hsub in E. apply E. lia.
  - intros [body ->]. rewrite string_length_app. split; [lia|].
    replace (String.length body + String.length suffix - String.length suffix)%nat
      with (String.length body) by lia.
    apply substring_skip.
Qed.

Lemma length_map_chars (f : ascii -> ascii) (s : string) :
  String.length (PyStr.map_chars f s) = String.length s.
Proof. induction s as [|c s IH]; simpl; congruence. Qed.

Lemma existsb_eqb_two (x a b : string) :
  existsb (String.eqb x) (a :: b :: nil) = true <-> x = a \/ x = b.
Proof.
  simpl. rewrite orb_false_r, orb_true_iff, !String.eqb_eq. reflexivity.
Qed.

End StringFacts.

(* ===================================================================== *)
(** * Onion-address validation *)
(* ===================================================================== *)

Section Validation.
Import urllib tor_crawler.
Context `{UrlLib}.

(** What the crawler's own check decides. *)
Lemma is_valid_onion_url_spec (url : string) :
  _is_valid_onion_url url = true <->
  exists parsed,
    urlparse url = Some parsed
    /\ (scheme parsed = "http" \/ scheme parsed = "https")
    /\ exists body, netloc parsed = body +:+ ".onion".
Proof.
  unfold _is_valid_onion_url. destruct (urlparse url) as [parsed|].
  - rewrite andb_true_iff, existsb_eqb_two, endswith_spec. split.
    + intros [Hs Hn]. exists parsed. auto.
    + intros (p & [= <-] & Hs & Hn). auto.
  - split; [discriminate|]. intros (p & Hp & _). discriminate.
Qed.

(** On ASCII text [upper] keeps the length: the padded string handed to
    [b32decode] has 22 or 62 characters, never a multiple of 8, and the
    decoder raises on every candidate. *)
Lemma b32decode_padded_raises (domain : string) :
  existsb (Z.eqb (PyStr.len domain)) (16 :: 56 :: nil) = true ->
  base64.b32decode_ok (PyStr.upper domain +:+ "======") = false.
Proof.
  unfold PyStr.len. simpl. rewrite orb_false_r, orb_true_iff, !Z.eqb_eq.
  intros Hlen. unfold base64.b32decode_ok.
  rewrite string_length_app. unfold PyStr.upper. rewrite length_map_chars.
  assert (String.length domain = 16%nat \/ String.length domain = 56%nat) as [-> | ->]
    by lia; reflexivity.
Qed.

(** A URL that fails the scheme, suffix or length check of
    [validate_onion_url] is turned down. *)
Lemma validate_onion_url_rejects (url : string) (parsed : ParseResult) :
  urlparse url = Some parsed ->
  ~ (scheme parsed = "http" \/ scheme parsed = "https")
  \/ ~ (exists body, netloc parsed = body +:+ ".onion")
  \/ ~ (PyStr.len (PyStr.replace ".onion" "" (netloc parsed)) = 16
        \/ PyStr.len (PyStr.replace ".onion" "" (netloc parsed)) = 56) ->
  utils.validate_onion_url url = false.
Proof.
  intros Hparse Hfails. unfold utils.validate_onion_url. rewrite Hparse.
  destruct (existsb (String.eqb (scheme parsed)) _) eqn:Hscheme; cbn [negb];
    [|reflexivity].
  destruct (PyStr.endswith ".onion" (netloc parsed)) eqn:Hsuffix; cbn [negb];
    [|reflexivity].
  cbv zeta.
  destruct (existsb (Z.eqb _) _) eqn:Hlen; cbn [negb]; [|reflexivity].
  exfalso. apply existsb_eqb_two in Hscheme. apply endswith_spec in Hsuffix.
  simpl in Hlen. rewrite orb_false_r, orb_true_iff, !Z.eqb_eq in Hlen.
  destruct Hfails as [Hf | [Hf | Hf]]; apply Hf; assumption.
Qed.

(** [validate_onion_url] turns every ASCII URL down. *)
Lemma validate_onion_url_rejects_all (url : string) :
  isascii url = true -> utils.validate_onion_url url = false.
Proof.
  intros _. unfold utils.validate_onion_url.
  destruct (urlparse url) as [parsed|]; [|reflexivity].
  destruct (negb (existsb _ _)); [reflexivity|].
  destruct (negb (PyStr.endswith _ _)); [reflexivity|].
  cbv zeta.
  destruct (existsb (Z.eqb _) _) eqn:Hlen; cbn [negb]; [|reflexivity].
  rewrite (b32decode_padded_raises _ Hlen). reflexivity.
Qed.

End Validation.

(* ===================================================================== *)
(** * The frontier loop of [crawl_site] *)
(* ===================================================================== *)

Section FrontierFacts.
Import urllib tor_crawler.
Context `{UrlLib} `{Web}.
Variable config : Config.
Variable base_url : string.

(** Case analysis on a turn: skipped, fetched with a page, fetched without. *)
Ltac turn_cases H :=
  destruct H as [url queue Hq Hlt Hv | url queue w1 pd Hq Hlt Hv Hp
                | url queue w1 Hq Hlt Hv Hp].

Lemma crawl_step_turn (st st' : Frontier) :
  crawl_step config base_url st = Some st' -> turn config base_url st st'.
Proof.
  unfold crawl_step. intros Hstep.
  destruct (urls_to_visit st) as [|url queue] eqn:Hq; [discriminate|].
  destruct (len (results st) <? max_pages_per_site config) eqn:Hlt;
    cbn [negb] in Hstep; [|discriminate].
  apply Z.ltb_lt in Hlt.
  destruct (bool_decide (url ∈ visited_urls st)) eqn:Hv.
  - apply bool_decide_eq_true in Hv. injection Hstep as <-.
    eapply turn_skip; eauto.
  - apply bool_decide_eq_false in Hv.
    destruct (crawl_page config (world st) url) as [w1 [pd|]] eqn:Hpage;
      injection Hstep as <-.
    + eapply turn_page; eauto.
    + eapply turn_dropped; eauto.
Qed.

(** The loop stops exactly when the queue is empty or the cap is reached. *)
Lemma crawl_step_none (st : Frontier) :
  crawl_step config base_url st = None <->
  urls_to_visit st = nil \/ max_pages_per_site config <= len (results st).
Proof.
  unfold crawl_step.
  destruct (urls_to_visit st) as [|url queue]; [intuition|].
  destruct (len (results st) <? max_pages_per_site config) eqn:Hlt; cbn [negb].
  - apply Z.ltb_lt in Hlt.
    destruct (bool_decide _);
      [|destruct (crawl_page _ _ _) as [w1 [pd|]]];
      (split; [discriminate | intros [?|?]; [discriminate | lia]]).
  - apply Z.ltb_ge in Hlt. intuition.
Qed.

(** A property kept by every turn holds when the loop ends. *)
Lemma crawl_loop_preserves (P : Frontier -> Prop) :
  (forall st st', turn config base_url st st' -> P st -> P st') ->
  forall fuel st st', crawl_loop config base_url fuel st = Some st' -> P st -> P st'.
Proof.
  intros Hturn fuel. induction fuel as [|fuel IH]; intros st st' Hloop HP; simpl in Hloop.
  - destruct (crawl_step config base_url st); [discriminate|]. congruence.
  - destruct (crawl_step config base_url st) as [st1|] eqn:Hstep.
    + eapply IH; [exact Hloop|]. eapply Hturn; [|exact HP].
      apply crawl_step_turn, Hstep.
    + congruence.
Qed.

(** The loop ends in a state where its condition is false. *)
Lemma crawl_loop_preserves_end (fuel : nat) (st st' : Frontier) :
  crawl_loop config base_url fuel st = Some st' ->
  crawl_step config base_url st' = None.
Proof.
  revert st. induction fuel as [|fuel IH]; intros st Hloop; simpl in Hloop;
    destruct (crawl_step config base_url st) as [st1|] eqn:Hstep;
    try discriminate; try congruence.
  eapply IH, Hloop.
Qed.

(** The result does not depend on how much fuel was given. *)
Lemma crawl_loop_deterministic (fuel1 fuel2 : nat) (st a b : Frontier) :
  crawl_loop config base_url fuel1 st = Some a ->
  crawl_loop config base_url fuel2 st = Some b -> a = b.
Proof.
  revert fuel2 st. induction fuel1 as [|fuel1 IH]; intros fuel2 st H1 H2;
    simpl in H1; destruct fuel2 as [|fuel2]; simpl in H2;
    destruct (crawl_step config base_url st) as [st1|]; try discriminate;
    try congruence.
  eapply IH; eassumption.
Qed.

Lemma crawl_loop_more_fuel (fuel extra : nat) (st a : Frontier) :
  crawl_loop config base_url fuel st = Some a ->
  crawl_loop config base_url (fuel + extra) st = Some a.
Proof.
  revert st. induction fuel as [|fuel IH]; intros st Hloop; simpl in Hloop.
  - destruct extra; simpl; destruct (crawl_step config base_url st);
      congruence.
  - simpl. destruct (crawl_step config base_url st); [auto | congruence].
Qed.

(** ** Termination *)

Lemma turn_decreases (st st' : Frontier) :
  turn config base_url st st' ->
  (pages_left config st' < pages_left config st)%nat
  \/ (pages_left config st' = pages_left config st
      /\ length (urls_to_visit st') < length (urls_to_visit st))%nat.
Proof.
  unfold pages_left, len.
  intros Hturn; turn_cases Hturn; cbn [results urls_to_visit].
  - right. rewrite Hq. simpl. lia.
  - left. rewrite length_app. unfold len in Hlt. simpl. lia.
  - right. rewrite Hq. simpl. lia.
Qed.

Lemma crawl_loop_terminates (st : Frontier) :
  exists fuel st', crawl_loop config base_url fuel st = Some st'.
Proof.
  remember (pages_left config st) as a eqn:Ha.
  revert st Ha. induction a as [a IHa] using lt_wf_ind. intros st Ha.
  remember (length (urls_to_visit st)) as q eqn:Hq.
  revert st Ha Hq. induction q as [q IHq] using lt_wf_ind. intros st Ha Hq.
  destruct (crawl_step config base_url st) as [st1|] eqn:Hstep.
  - destruct (turn_decreases _ _ (crawl_step_turn _ _ Hstep)) as [Hlt | [Heq Hlt]].
    + destruct (IHa (pages_left config st1) ltac:(lia) st1 eq_refl) as (fuel & st' & Hloop).
      exists (S fuel), st'. simpl. rewrite Hstep. exact Hloop.
    + destruct (IHq (length (urls_to_visit st1)) ltac:(lia) st1 ltac:(lia) eq_refl)
        as (fuel & st' & Hloop).
      exists (S fuel), st'. simpl. rewrite Hstep. exact Hloop.
  - exists O, st. simpl. rewrite Hstep. reflexivity.
Qed.

(** ** No URL is fetched twice, and the cap holds *)

Lemma turn_fetch_once (st st' : Frontier) :
  turn config base_url st st' -> fetch_once st -> fetch_once st'.
Proof.
  unfold fetch_once.
  intros Hturn; turn_cases Hturn;
    cbn [fetched visited_urls]; intros [Hnd Hin]; [auto| |].
  all: split;
    [ apply NoDup_app; repeat split;
      [ exact Hnd
      | intros x Hx ->%list_elem_of_singleton; apply Hv, Hin, Hx
      | apply NoDup_singleton ]
    | intros x [Hx | ->%list_elem_of_singleton]%elem_of_app;
      [ apply elem_of_union_r, Hin, Hx | apply elem_of_union_l, elem_of_singleton; reflexivity ] ].
Qed.

Lemma turn_within_cap (st st' : Frontier) :
  turn config base_url st st' -> within_cap config st -> within_cap config st'.
Proof.
  unfold within_cap, len.
  intros Hturn; turn_cases Hturn;
    cbn [results]; intros Hcap; try exact Hcap.
  rewrite length_app. unfold len in Hlt. simpl. lia.
Qed.

(** ** Only URLs that pass the crawler's check are fetched *)

Lemma crawl_page_links_valid (w w1 : World) (url : string) (pd : Page) :
  crawl_page config w url = (w1, Some pd) -> Forall valid (p_links pd).
Proof.
  unfold crawl_page. destruct (session_get w url) as [w2 outcome].
  destruct outcome as [response| | |]; intros [= <- Hp]; try discriminate.
  unfold process_response in Hp.
  destruct (negb _); [discriminate|].
  destruct (soup_raises _); [discriminate|].
  destruct (len _ <? _); [discriminate|].
  destruct (join_all _ _); [|discriminate].
  injection Hp as <-. cbn [p_links].
  apply Forall_forall. intros x Hx%list_elem_of_filter. apply Hx.
Qed.

Lemma enqueue_all_valid (visited : gset string) (links queue : list string) :
  Forall valid links -> Forall valid queue ->
  Forall valid (fold_left (enqueue base_url visited) links queue).
Proof.
  intros Hl. revert queue. induction Hl as [|link links Hlink _ IH]; intros queue Hq.
  - exact Hq.
  - simpl. apply IH. unfold enqueue.
    destruct (_ && _ && _); [|exact Hq].
    apply Forall_app. split; [exact Hq|]. constructor; [exact Hlink|constructor].
Qed.

Lemma turn_all_valid (st st' : Frontier) :
  turn config base_url st st' -> all_valid st -> all_valid st'.
Proof.
  unfold all_valid.
  intros Hturn; turn_cases Hturn;
    cbn [fetched urls_to_visit]; rewrite Hq; intros [Hqueue Hf];
    apply Forall_cons in Hqueue as [Hurl Hqueue].
  - auto.
  - split.
    + apply enqueue_all_valid; [|exact Hqueue].
      eapply crawl_page_links_valid, Hp.
    + apply Forall_app. split; [exact Hf|]. constructor; [exact Hurl|constructor].
  - split; [exact Hqueue|].
    apply Forall_app. split; [exact Hf|]. constructor; [exact Hurl|constructor].
Qed.

(** ** Reachable states *)

Lemma crawl_loop_reaches (fuel : nat) (st st' : Frontier) :
  crawl_loop config base_url fuel st = Some st' -> rtc (steps_to config base_url) st st'.
Proof.
  revert st. induction fuel as [|fuel IH]; intros st Hloop; simpl in Hloop;
    destruct (crawl_step config base_url st) as [st1|] eqn:Hstep;
    try discriminate.
  - injection Hloop as <-. apply rtc_refl.
  - eapply rtc_l; [exact Hstep | apply IH, Hloop].
  - injection Hloop as <-. apply rtc_refl.
Qed.

Lemma reachable_preserves (P : Frontier -> Prop) :
  (forall st st', turn config base_url st st' -> P st -> P st') ->
  forall st st', rtc (steps_to config base_url) st st' -> P st -> P st'.
Proof.
  intros Hturn st st' Hreach. induction Hreach as [|a b c Hab _ IH]; [auto|].
  intros HP. apply IH. eapply Hturn; [|exact HP]. apply crawl_step_turn, Hab.
Qed.

End FrontierFacts.

(* ===================================================================== *)
(** * The sites of a seed list *)
(* ===================================================================== *)

Section SeedList.
Import urllib tor_crawler.
Context `{UrlLib} `{Web}.
Variable config : Config.

Lemma crawl_urls_more_fuel (fuel extra : nat) (w : World) (urls : list string) r :
  crawl_urls config fuel w urls = Some r ->
  crawl_urls config (fuel + extra) w urls = Some r.
Proof.
  revert w r. induction urls as [|url urls IH]; intros w r; simpl; [auto|].
  destruct (_is_valid_onion_url url); [|apply IH].
  unfold crawl_site.
  destruct (crawl_loop config url fuel _) as [st|] eqn:Hsite; [|discriminate].
  rewrite (crawl_loop_more_fuel config url fuel extra _ _ Hsite).
  destruct (crawl_urls config fuel (world st) urls) as [[[w' rs] lg]|] eqn:Hrest;
    [|discriminate].
  rewrite (IH _ _ Hrest). auto.
Qed.

Lemma crawl_urls_terminates (w : World) (urls : list string) :
  exists fuel r, crawl_urls config fuel w urls = Some r.
Proof.
  revert w. induction urls as [|url urls IH]; intros w.
  - exists O. simpl. eauto.
  - simpl. destruct (_is_valid_onion_url url); [|apply IH].
    destruct (crawl_loop_terminates config url (initial w url)) as (f1 & st & Hsite).
    destruct (IH (world st)) as (f2 & [[w' rs] lg] & Hrest).
    exists (f1 + f2)%nat. unfold crawl_site.
    rewrite (crawl_loop_more_fuel config url f1 f2 _ _ Hsite).
    rewrite Nat.add_comm.
    rewrite (crawl_urls_more_fuel f2 f1 _ _ _ Hrest). eauto.
Qed.

Lemma crawl_site_fetches_valid (fuel : nat) (w : World) (url : string) st :
  _is_valid_onion_url url = true ->
  crawl_site config fuel w url = Some st ->
  Forall valid (fetched st).
Proof.
  intros Hvalid Hsite.
  refine (proj2 (crawl_loop_preserves config url all_valid
                   (turn_all_valid config url) fuel _ _ Hsite _)).
  split; cbn; [constructor; [exact Hvalid|constructor] | constructor].
Qed.

Lemma crawl_urls_fetches_valid (fuel : nat) (w : World) (urls : list string)
    w' pages log :
  crawl_urls config fuel w urls = Some (w', pages, log) -> Forall valid log.
Proof.
  revert w w' pages log. induction urls as [|url urls IH]; intros w w' pages log; simpl.
  - intros [= <- <- <-]. constructor.
  - destruct (_is_valid_onion_url url) eqn:Hvalid; [|apply IH].
    destruct (crawl_site config fuel w url) as [st|] eqn:Hsite; [|discriminate].
    destruct (crawl_urls config fuel (world st) urls) as [[[w1 rs] lg]|] eqn:Hrest;
      [|discriminate].
    intros [= <- <- <-]. apply Forall_app. split.
    + eapply crawl_site_fetches_valid; eassumption.
    + eapply IH, Hrest.
Qed.

End SeedList.

(* ===================================================================== *)
(** * The frontier controller: validation, invariants, termination *)
(* ===================================================================== *)

Section FrontierClaims.
Import urllib tor_crawler.
Context `{UrlLib} `{Web}.
Variable config : Config.

(** C1, amended.  The frontier controller checks a URL with
    [_is_valid_onion_url]: it accepts exactly the URLs whose scheme is
    [http] or [https] and whose network location ends with [.onion]; the
    length and the base32 alphabet of the host body are not looked at.
    Every URL fetched while crawling a seed file, seed or link, passes
    that check, and the crawl of a seed file ends.  [validate_onion_url],
    which the frontier controller does not call, turns down every URL
    whose scheme is neither [http] nor [https], whose network location
    does not end with [.onion], or whose network location without [.onion]
    has neither 16 nor 56 characters. *)
Theorem C1_frontier_checks_scheme_and_suffix :
  (forall url : string,
      _is_valid_onion_url url = true <->
      exists parsed,
        urlparse url = Some parsed
        /\ (scheme parsed = "http" \/ scheme parsed = "https")
        /\ exists body, netloc parsed = body +:+ ".onion")
  /\ (forall fuel w file w' pages log,
         crawl_urls_from_file config fuel w file = Some (w', pages, log) ->
         Forall (fun url => _is_valid_onion_url url = true) log)
  /\ (forall w file, exists fuel result,
         crawl_urls_from_file config fuel w file = Some result)
  /\ (forall url parsed,
         urlparse url = Some parsed ->
         ~ (scheme parsed = "http" \/ scheme parsed = "https")
         \/ ~ (exists body, netloc parsed = body +:+ ".onion")
         \/ ~ (PyStr.len (PyStr.replace ".onion" "" (netloc parsed)) = 16
               \/ PyStr.len (PyStr.replace ".onion" "" (netloc parsed)) = 56) ->
         utils.validate_onion_url url = false).
Proof.
  split; [apply is_valid_onion_url_spec|]. split; [|split].
  - intros fuel w [lines|] w' pages log; simpl.
    + apply crawl_urls_fetches_valid.
    + intros [= <- <- <-]. constructor.
  - intros w [lines|]; simpl; [apply crawl_urls_terminates|].
    exists O. eauto.
  - apply validate_onion_url_rejects.
Qed.

(** C2.  With a cap that is not negative, every state the loop of
    [crawl_site] reaches from a seed has fetched no URL twice and holds at
    most [max_pages_per_site] pages, whatever the pages link to; and the
    loop does end in such a state. *)
Theorem C2_no_refetch_and_page_cap (w : World) (base_url : string) :
  0 <= max_pages_per_site config ->
  (forall st,
      rtc (steps_to config base_url) (initial w base_url) st ->
      NoDup (fetched st) /\ len (results st) <= max_pages_per_site config)
  /\ exists fuel st,
      crawl_site config fuel w base_url = Some st
      /\ NoDup (fetched st)
      /\ len (results st) <= max_pages_per_site config.
Proof.
  intros Hcap.
  assert (forall st, rtc (steps_to config base_url) (initial w base_url) st ->
            NoDup (fetched st) /\ len (results st) <= max_pages_per_site config)
    as Hinv.
  { intros st Hreach. split.
    - refine (proj1 (reachable_preserves config base_url (fetch_once)
                       (turn_fetch_once config base_url) _ _ Hreach _)).
      split; cbn; [constructor | intros url Hin; inversion Hin].
    - assert (within_cap config st) as Hw.
      { refine (reachable_preserves config base_url (within_cap config)
                  (turn_within_cap config base_url) _ _ Hreach _).
        unfold within_cap, len. cbn. lia. }
      unfold within_cap in Hw. lia. }
  split; [exact Hinv|].
  destruct (crawl_loop_terminates config base_url (initial w base_url))
    as (fuel & st & Hloop).
  exists fuel, st. split; [exact Hloop|].
  apply Hinv. eapply crawl_loop_reaches, Hloop.
Qed.

(** C10.  For every cap and every behaviour of the network, the loop of
    [crawl_site] ends: some amount of fuel yields a final state, in which
    the queue is empty or the cap is reached, and any larger amount yields
    the same state. *)
Theorem C10_crawl_site_terminates (w : World) (base_url : string) :
  exists fuel st,
    crawl_site config fuel w base_url = Some st
    /\ (urls_to_visit st = nil \/ max_pages_per_site config <= len (results st))
    /\ forall fuel', (fuel <= fuel')%nat ->
                     crawl_site config fuel' w base_url = Some st.
Proof.
  destruct (crawl_loop_terminates config base_url (initial w base_url))
    as (fuel & st & Hloop).
  exists fuel, st. split; [exact Hloop|]. split.
  - apply (crawl_step_none config base_url).
    refine (crawl_loop_preserves_end _ _ _ _ _ Hloop).
  - intros fuel' Hle. replace fuel' with (fuel + (fuel' - fuel))%nat by lia.
    apply crawl_loop_more_fuel, Hloop.
Qed.

End FrontierClaims.

(* ===================================================================== *)
(** * The crawler on the small web *)
(* ===================================================================== *)

Section CrawlerExamples.
Import urllib tor_crawler.
#[local] Existing Instance cpython.
#[local] Existing Instance toy.web.

(** C1, counterexample.  The host body of [toy.short_url] is [short], five
    characters long, so the URL fails the stated length check; the
    frontier controller accepts it all the same and fetches it. *)
Lemma C1_short_host_is_fetched :
  urlparse toy.short_url = Some (mkParse "http" "short.onion")
  /\ PyStr.len "short" = 5
  /\ utils.validate_onion_url toy.short_url = false
  /\ _is_valid_onion_url toy.short_url = true
  /\ option_map snd
       (crawl_urls_from_file toy.config 5 toy.start (Some (toy.short_url :: nil)))
     = Some (toy.short_url :: nil).
Proof. vm_compute. repeat split; reflexivity. Qed.

(** A sixteen-character base32 body is turned down by
    [validate_onion_url] as well. *)
Example validate_onion_url_v2_address :
  utils.validate_onion_url toy.home = false.
Proof. reflexivity. Qed.

Lemma C1_witness :
  Forall (fun url => _is_valid_onion_url url = true)
    (toy.home :: toy.market :: toy.forum :: toy.down :: toy.short_url :: nil).
Proof.
  eapply (proj1 (proj2 (C1_frontier_checks_scheme_and_suffix toy.config))
            20%nat toy.start
            (Some (toy.home :: "# a comment" :: "" :: toy.short_url :: nil))).
  vm_compute. reflexivity.
Defined.

(** The crawl of the cyclic site: four fetches, three pages. *)
Example crawl_site_cyclic :
  option_map (fun st => (map p_url (results st), fetched st))
    (crawl_site toy.config 20 toy.start toy.home)
  = Some (toy.home :: toy.market :: toy.forum :: nil,
          toy.home :: toy.market :: toy.forum :: toy.down :: nil).
Proof. vm_compute. reflexivity. Qed.

(** With a cap of two pages the loop stops with two links still queued. *)
Example crawl_site_capped :
  option_map (fun st => (map p_url (results st), urls_to_visit st))
    (crawl_site (mkConfig 2 1048576 1) 20 toy.start toy.home)
  = Some (toy.home :: toy.market :: nil, toy.forum :: toy.down :: nil).
Proof. vm_compute. reflexivity. Qed.

Lemma C2_witness :
  0 <= max_pages_per_site toy.config
  /\ exists fuel st,
      crawl_site toy.config fuel toy.start toy.home = Some st
      /\ NoDup (fetched st)
      /\ len (results st) <= max_pages_per_site toy.config.
Proof.
  split; [cbn; lia|].
  apply (C2_no_refetch_and_page_cap toy.config toy.start toy.home).
  cbn. lia.
Defined.

End CrawlerExamples.

(* ===================================================================== *)
(** * Keyword matching *)
(* ===================================================================== *)

Section KeywordFacts.
Import re content_parser.

(** ** Strings *)

Lemma string_app_assoc (a b c : string) : (a +:+ b) +:+ c = a +:+ b +:+ c.
Proof.
  induction a as [|x a IH]; [reflexivity|]. rewrite !app_cons, IH. reflexivity.
Qed.

Lemma string_app_inj (a a' b b' : string) :
  a +:+ b = a' +:+ b' -> String.length a = String.length a' -> a = a' /\ b = b'.
Proof.
  revert a'. induction a as [|x a IH]; intros [|x' a'] Heq Hlen;
    try discriminate; [auto|].
  rewrite !app_cons in Heq. injection Heq as -> Heq.
  destruct (IH a' Heq) as [-> ->]; [simpl in Hlen; lia | auto].
Qed.

Lemma last_char_app (a b : string) :
  last_char (a +:+ b)
  = match last_char b with Some c => Some c | None => last_char a end.
Proof.
  induction a as [|x a IH]; [rewrite app_empty_l; destruct (last_char b); reflexivity|].
  rewrite app_cons. cbn [last_char]. rewrite IH.
  destruct (last_char b); reflexivity.
Qed.

Lemma last_char_none (s : string) : last_char s = None -> s = "".
Proof. destruct s as [|c s]; [reflexivity|]. simpl. destruct (last_char s); discriminate. Qed.

Lemma is_word_lower (c : ascii) : is_word (PyStr.lower_char c) = is_word c.
Proof. destruct c as [[] [] [] [] [] [] [] []]; reflexivity. Qed.

Lemma lower_first_char (a b : string) :
  PyStr.lower a = PyStr.lower b ->
  is_word_opt (first_char a) = is_word_opt (first_char b).
Proof.
  destruct a as [|x a], b as [|y b]; try discriminate; [reflexivity|].
  intros [= Hxy _]. simpl. rewrite <- (is_word_lower x), Hxy. apply is_word_lower.
Qed.

Lemma lower_last_char (a b : string) :
  PyStr.lower a = PyStr.lower b ->
  is_word_opt (last_char a) = is_word_opt (last_char b).
Proof.
  revert b. induction a as [|x a IH]; intros [|y b]; try discriminate; [reflexivity|].
  intros [= Hxy Hab]. specialize (IH b Hab). cbn [last_char].
  destruct (last_char a) eqn:Ha, (last_char b) eqn:Hb; try exact IH.
  - apply last_char_none in Hb as ->. destruct a; [discriminate Ha | discriminate Hab].
  - apply last_char_none in Ha as ->. destruct b; [discriminate Hb | discriminate Hab].
  - simpl. rewrite <- (is_word_lower x), Hxy. apply is_word_lower.
Qed.

Lemma lower_length (a b : string) :
  PyStr.lower a = PyStr.lower b -> String.length a = String.length b.
Proof.
  intros Heq. unfold PyStr.lower in Heq.
  rewrite <- (length_map_chars PyStr.lower_char a), Heq. apply length_map_chars.
Qed.

(** ** The matcher on a keyword pattern *)

Lemma m_lit_i (kw : string) (st : mstate) (k : mstate -> option mstate) :
  m (lit_i kw) st k
  = match strip_ci kw (prev st) (rest st) with
    | Some (p, r) => k (mkState p r (pos st + String.length kw) (grp st))
    | None => None
    end.
Proof.
  revert st. induction kw as [|c kw IH]; intros [p s n g]; cbn [lit_i m strip_ci].
  - cbn. rewrite Nat.add_0_r. reflexivity.
  - cbn [chr_i m rest prev pos grp]. destruct s as [|d s]; [reflexivity|].
    destruct (Ascii.eqb _ _); [|reflexivity].
    rewrite IH. cbn [prev rest pos grp String.length].
    rewrite Nat.add_succ_r. reflexivity.
Qed.

Lemma strip_ci_sound (kw : string) (p p' : option ascii) (s r : string) :
  strip_ci kw p s = Some (p', r) ->
  exists mid,
    s = mid +:+ r
    /\ PyStr.lower mid = PyStr.lower kw
    /\ p' = match last_char mid with Some c => Some c | None => p end.
Proof.
  revert p s. induction kw as [|c kw IH]; intros p s; cbn [strip_ci].
  - intros [= <- <-]. exists "". auto.
  - destruct s as [|d s]; [discriminate|].
    destruct (Ascii.eqb _ _) eqn:Hdc; [|discriminate].
    apply Ascii.eqb_eq in Hdc. intros (mid & -> & Hlow & ->)%IH.
    exists (String d mid). rewrite app_cons. split; [reflexivity|]. split.
    + unfold PyStr.lower in *. cbn [PyStr.map_chars]. rewrite Hdc, Hlow. reflexivity.
    + cbn [last_char]. destruct (last_char mid); reflexivity.
Qed.

Lemma strip_ci_complete (kw mid : string) (p : option ascii) (r : string) :
  PyStr.lower mid = PyStr.lower kw ->
  strip_ci kw p (mid +:+ r)
  = Some (match last_char mid with Some c => Some c | None => p end, r).
Proof.
  revert p mid. induction kw as [|c kw IH]; intros p [|d mid]; try discriminate.
  - reflexivity.
  - intros [= Hdc Hlow]. rewrite app_cons. cbn [strip_ci].
    rewrite Hdc, Ascii.eqb_refl, (IH _ _ Hlow). cbn [last_char].
    destruct (last_char mid); reflexivity.
Qed.

Lemma match_here_keyword (kw : string) (st : mstate) :
  match_here (keyword_pattern kw) st
  = if at_boundary st then
      match strip_ci kw (prev st) (rest st) with
      | Some (p, r) =>
          let st' := mkState p r (pos st + String.length kw) None in
          if at_boundary st' then Some st' else None
      | None => None
      end
    else None.
Proof.
  unfold match_here, keyword_pattern, escaped. cbn [m].
  change (at_boundary (mkState (prev st) (rest st) (pos st) None))
    with (at_boundary st).
  destruct (at_boundary st); [|reflexivity].
  rewrite m_lit_i. cbn [prev rest pos grp].
  destruct (strip_ci kw (prev st) (rest st)) as [[p r]|]; reflexivity.
Qed.

Lemma at_boundary_chars (st : mstate) :
  at_boundary st
  = xorb (is_word_opt (prev st)) (is_word_opt (first_char (rest st))).
Proof. reflexivity. Qed.

Lemma occurs_at_bound (kw content : string) (i : nat) :
  occurs_at kw content i ->
  (i + String.length kw <= String.length content)%nat.
Proof.
  intros (pre & mid & post & -> & <- & Hlow & _).
  rewrite !string_length_app, (lower_length _ _ Hlow). lia.
Qed.

(** ** The scan *)

Lemma advance_pos (st st1 : mstate) :
  advance st = Some st1 -> pos st1 = S (pos st).
Proof.
  unfold advance. destruct (rest st); [discriminate|]. intros [= <-]. reflexivity.
Qed.

(** Whatever the pattern, a scan reports offsets from its starting
    point on, in strictly increasing order. *)
Lemma scan_from (r : regex) (fuel : nat) (st : mstate) (j : nat) :
  j ∈ map m_start (scan r fuel st) -> (pos st <= j)%nat.
Proof.
  revert st. induction fuel as [|fuel IH]; intros st; cbn [scan].
  - intros Hin. inversion Hin.
  - destruct (match_here r st) as [st'|].
    + cbn [map m_start]. intros [-> | Hin]%elem_of_cons; [lia|].
      destruct (pos st <? pos st')%nat eqn:Hlt.
      * apply Nat.ltb_lt in Hlt. apply IH in Hin. lia.
      * destruct (advance st) as [st1|] eqn:Hadv; [|inversion Hin].
        apply IH in Hin. apply advance_pos in Hadv. lia.
    + destruct (advance st) as [st1|] eqn:Hadv; [|intros Hin; inversion Hin].
      intros Hin%IH. apply advance_pos in Hadv. lia.
Qed.

Lemma scan_sorted (r : regex) (fuel : nat) (st : mstate) :
  StronglySorted lt (map m_start (scan r fuel st)).
Proof.
  revert st. induction fuel as [|fuel IH]; intros st; cbn [scan].
  - constructor.
  - destruct (match_here r st) as [st'|].
    + cbn [map m_start]. constructor.
      * destruct (pos st <? pos st')%nat; [apply IH|].
        destruct (advance st); [apply IH | constructor].
      * apply Forall_forall. intros j Hj.
        destruct (pos st <? pos st')%nat eqn:Hlt.
        -- apply Nat.ltb_lt in Hlt. apply scan_from in Hj. lia.
        -- destruct (advance st) as [st1|] eqn:Hadv; [|inversion Hj].
           apply scan_from in Hj. apply advance_pos in Hadv. lia.
    + destruct (advance st); [apply IH | constructor].
Qed.

Section WordEnded.
Variables kw content : string.
Hypothesis Hkw : word_ended kw.

Lemma word_ended_length : (0 < String.length kw)%nat.
Proof. destruct Hkw as [Hf _]. destruct kw; [discriminate Hf | simpl; lia]. Qed.

Lemma match_here_some (st st' : mstate) :
  at_pos content st ->
  match_here (keyword_pattern kw) st = Some st' ->
  occurs_at kw content (pos st)
  /\ at_pos content st'
  /\ pos st' = (pos st + String.length kw)%nat.
Proof.
  intros (pre & Hc & Hlen & Hprev). rewrite match_here_keyword.
  destruct (at_boundary st) eqn:Hb1; [|discriminate].
  destruct (strip_ci kw (prev st) (rest st)) as [[p r]|] eqn:Hs; [|discriminate].
  cbv zeta. destruct (at_boundary (mkState p r _ None)) eqn:Hb2; [|discriminate].
  intros [= <-]. cbn [pos rest prev].
  destruct (strip_ci_sound _ _ _ _ _ Hs) as (mid & Hrest & Hlow & ->).
  destruct Hkw as [Hfirst Hlast].
  rewrite <- (lower_first_char _ _ Hlow) in Hfirst.
  rewrite <- (lower_last_char _ _ Hlow) in Hlast.
  destruct (last_char mid) as [e|] eqn:Hmid; [|discriminate Hlast].
  rewrite at_boundary_chars in Hb1, Hb2. cbn [prev rest is_word_opt] in Hb2.
  rewrite Hrest in Hb1.
  assert (is_word_opt (prev st) = false) as Hp.
  { destruct mid as [|d mid]; [discriminate Hmid|]. rewrite app_cons in Hb1.
    cbn [first_char is_word_opt] in Hfirst, Hb1. rewrite Hfirst in Hb1.
    destruct (is_word_opt (prev st)); [discriminate Hb1 | reflexivity]. }
  assert (is_word_opt (first_char r) = false) as Hr.
  { cbn [is_word_opt] in Hlast. rewrite Hlast in Hb2.
    destruct (is_word_opt (first_char r)); [discriminate Hb2 | reflexivity]. }
  split; [|split; [|reflexivity]].
  - exists pre, mid, r. rewrite <- Hrest, <- Hprev. auto.
  - exists (pre +:+ mid). cbn [rest pos prev].
    rewrite string_app_assoc, <- Hrest, string_length_app, last_char_app, Hmid,
      (lower_length _ _ Hlow).
    auto.
Qed.

Lemma match_here_none (st : mstate) :
  at_pos content st ->
  match_here (keyword_pattern kw) st = None ->
  ~ occurs_at kw content (pos st).
Proof.
  intros (pre & Hc & Hlen & Hprev) Hnone
         (pre' & mid & post & Hc' & Hlen' & Hlow & Hbefore & Hafter).
  rewrite Hc in Hc'. apply string_app_inj in Hc' as [<- Hrest]; [|lia].
  rewrite match_here_keyword, Hrest, (strip_ci_complete _ _ _ _ Hlow) in Hnone.
  destruct Hkw as [Hfirst Hlast].
  rewrite <- (lower_first_char _ _ Hlow) in Hfirst.
  rewrite <- (lower_last_char _ _ Hlow) in Hlast.
  destruct (last_char mid) as [e|] eqn:Hmid; [|discriminate Hlast].
  rewrite !at_boundary_chars in Hnone. cbn [prev rest] in Hnone.
  rewrite Hrest, Hprev, Hbefore in Hnone.
  destruct mid as [|d mid]; [discriminate Hmid|]. rewrite app_cons in Hnone.
  cbn [first_char is_word_opt] in Hfirst, Hlast, Hnone.
  rewrite Hfirst in Hnone. cbn [xorb] in Hnone.
  rewrite at_boundary_chars in Hnone. cbn [prev rest is_word_opt] in Hnone.
  rewrite Hlast, Hafter in Hnone. discriminate Hnone.
Qed.


Lemma string_length_rest (st : mstate) :
  at_pos content st ->
  String.length content = (pos st + String.length (rest st))%nat.
Proof. intros (pre & -> & <- & _). apply string_length_app. Qed.

Lemma advance_at_pos (st st1 : mstate) :
  at_pos content st -> advance st = Some st1 ->
  at_pos content st1
  /\ pos st1 = S (pos st)
  /\ S (String.length (rest st1)) = String.length (rest st).
Proof.
  intros (pre & Hc & Hlen & Hprev). unfold advance.
  destruct (rest st) as [|c s'] eqn:Hrest; [discriminate|].
  intros [= <-]. cbn [rest pos prev]. split; [|auto].
  exists (pre +:+ String c ""). cbn [rest pos prev].
  rewrite string_app_assoc, app_cons, app_empty_l, string_length_app, last_char_app.
  simpl. split; [exact Hc|]. split; [lia|reflexivity].
Qed.

(** The offsets reported from [st] on: the occurrences that do not
    start inside an earlier reported one. *)
Lemma scan_keyword (fuel : nat) (st : mstate) (i : nat) :
  at_pos content st ->
  (String.length (rest st) < fuel)%nat ->
  i ∈ map m_start (scan (keyword_pattern kw) fuel st) <->
  (pos st <= i)%nat
  /\ occurs_at kw content i
  /\ forall j, j ∈ map m_start (scan (keyword_pattern kw) fuel st) ->
               (j < i)%nat -> (j + String.length kw <= i)%nat.
Proof.
  pose proof word_ended_length as Hpos.
  revert st. induction fuel as [|fuel IH]; intros st Hat Hfuel; [lia|].
  cbn [scan].
  destruct (match_here (keyword_pattern kw) st) as [st'|] eqn:Hm.
  - destruct (match_here_some _ _ Hat Hm) as (Hocc & Hat' & Hpos').
    assert ((pos st <? pos st')%nat = true) as -> by (apply Nat.ltb_lt; lia).
    pose proof (string_length_rest _ Hat) as L1.
    pose proof (string_length_rest _ Hat') as L2.
    specialize (IH st' Hat' ltac:(lia)).
    cbn [map m_start]. rewrite elem_of_cons, IH. split.
    + intros [-> | (Hle & Hi & Hno)].
      * split; [lia|]. split; [exact Hocc|].
        intros j [-> | Hj%(scan_from (keyword_pattern kw))]%elem_of_cons; lia.
      * split; [lia|]. split; [exact Hi|].
        intros j [-> | Hj]%elem_of_cons; [lia | auto].
    + intros (Hle & Hi & Hno).
      destruct (decide (i = pos st)) as [-> | Hne]; [left; reflexivity|].
      right. split.
      * pose proof (Hno (pos st) ltac:(left; reflexivity)). lia.
      * split; [exact Hi|]. intros j Hj. apply Hno. right. exact Hj.
  - pose proof (match_here_none _ Hat Hm) as Hnocc.
    destruct (advance st) as [st1|] eqn:Hadv.
    + destruct (advance_at_pos _ _ Hat Hadv) as (Hat1 & Hpos1 & Hlen1).
      rewrite (IH st1 Hat1 ltac:(lia)). split.
      * intros (Hle & Hi & Hno). split; [lia | auto].
      * intros (Hle & Hi & Hno). split; [|auto].
        destruct (decide (i = pos st)) as [-> | Hne]; [contradiction | lia].
    + split; [intros Hin; inversion Hin|].
      intros (Hle & Hi%occurs_at_bound & _).
      pose proof (string_length_rest _ Hat) as L1.
      unfold advance in Hadv. destruct (rest st); [simpl in L1; lia | discriminate].
Qed.

(** The same for the whole text. *)
Lemma recorded_spec (i : nat) :
  i ∈ recorded kw content <->
  occurs_at kw content i
  /\ forall j, j ∈ recorded kw content -> (j < i)%nat ->
               (j + String.length kw <= i)%nat.
Proof.
  unfold recorded, matches_of_keyword. rewrite map_map. cbn [position].
  change (map (fun mt => m_start mt) ?l) with (map m_start l).
  unfold finditer. rewrite scan_keyword.
  - cbn [pos start_state]. split; [intros (_ & ?); auto | intros ?; split; [lia|auto]].
  - exists "". auto.
  - cbn [rest start_state]. lia.
Qed.

End WordEnded.

(** ** Keywords made of word characters only *)

Lemma string_app_split (a b c d : string) :
  a +:+ b = c +:+ d -> (String.length a <= String.length c)%nat ->
  exists e, c = a +:+ e /\ b = e +:+ d.
Proof.
  revert c. induction a as [|x a IH]; intros c Heq Hlen.
  - exists c. auto.
  - destruct c as [|y c]; [simpl in Hlen; lia|].
    rewrite !app_cons in Heq. injection Heq as -> Heq.
    destruct (IH c Heq) as (e & -> & ->); [simpl in Hlen; lia|].
    exists e. auto.
Qed.

Lemma all_word_lower (a b : string) :
  PyStr.lower a = PyStr.lower b ->
  PyStr.all_chars is_word a = PyStr.all_chars is_word b.
Proof.
  revert b. induction a as [|x a IH]; intros [|y b]; try discriminate; [reflexivity|].
  intros [= Hxy Hab]. simpl. rewrite (IH b Hab).
  rewrite <- (is_word_lower x), Hxy, is_word_lower. reflexivity.
Qed.

Lemma all_word_app (a b : string) :
  PyStr.all_chars is_word (a +:+ b)
  = PyStr.all_chars is_word a && PyStr.all_chars is_word b.
Proof.
  induction a as [|x a IH]; [reflexivity|].
  rewrite app_cons. simpl. rewrite IH, andb_assoc. reflexivity.
Qed.

Lemma all_word_last (a : string) :
  PyStr.all_chars is_word a = true -> a <> "" ->
  is_word_opt (last_char a) = true.
Proof.
  induction a as [|x a IH]; [congruence|]. simpl.
  intros [Hx Ha]%andb_true_iff _. destruct a as [|y a]; [exact Hx|].
  specialize (IH Ha ltac:(discriminate)).
  destruct (last_char (String y a)); [exact IH | discriminate IH].
Qed.

(** Two occurrences of such a keyword never overlap. *)
Lemma occurrences_apart (kw content : string) (i j : nat) :
  PyStr.all_chars is_word kw = true ->
  occurs_at kw content j -> occurs_at kw content i ->
  (j < i)%nat -> (j + String.length kw <= i)%nat.
Proof.
  intros Hall (pj & mj & qj & Hcj & Hlj & Hlowj & _ & _)
         (pi & mi & qi & Hci & Hli & Hlowi & Hbefore & _) Hlt.
  destruct (Nat.le_gt_cases (j + String.length kw) i) as [|Hin]; [assumption|].
  exfalso. rewrite Hcj in Hci.
  destruct (string_app_split _ _ _ _ Hci ltac:(lia)) as (e & Hpi & Hrest).
  assert (String.length e = i - j)%nat as He
    by (rewrite <- Hli, Hpi, string_length_app; lia).
  symmetry in Hrest.
  destruct (string_app_split _ _ _ _ Hrest
              ltac:(rewrite (lower_length _ _ Hlowj); lia)) as (f & Hmj & _).
  rewrite <- (all_word_lower _ _ Hlowj), Hmj, all_word_app in Hall.
  apply andb_true_iff in Hall as [He_word _].
  assert (e <> "") as Hne by (intros ->; simpl in He; lia).
  pose proof (all_word_last e He_word Hne) as Hlast.
  rewrite Hpi, last_char_app in Hbefore.
  destruct (last_char e); [congruence | discriminate Hlast].
Qed.

Lemma all_word_ended (kw : string) :
  PyStr.all_chars is_word kw = true -> kw <> "" -> word_ended kw.
Proof.
  intros Hall Hne. split; [|apply all_word_last; assumption].
  destruct kw as [|c kw]; [congruence|]. simpl in *.
  apply andb_true_iff in Hall. apply Hall.
Qed.

Lemma recorded_all_word (kw content : string) (i : nat) :
  PyStr.all_chars is_word kw = true -> kw <> "" ->
  i ∈ recorded kw content <-> occurs_at kw content i.
Proof.
  intros Hall Hne. pose proof (all_word_ended kw Hall Hne) as Hkw.
  rewrite (recorded_spec kw content Hkw). split; [intros [? _]; assumption|].
  intros Hi. split; [exact Hi|]. intros j Hj Hlt.
  apply (recorded_spec kw content Hkw) in Hj as [Hj _].
  eapply occurrences_apart; eassumption.
Qed.

End KeywordFacts.

(* ===================================================================== *)
(** * The extractor: keyword matches, entities, findings *)
(* ===================================================================== *)

Section ExtractorClaims.
Import re content_parser.

Lemma matches_of_keyword_keyword (content kw : string) (km : KeywordMatch) :
  km ∈ matches_of_keyword content kw -> keyword km = kw.
Proof.
  unfold matches_of_keyword. intros (mt & -> & _)%list_elem_of_fmap. reflexivity.
Qed.

Lemma matches_of_keyword_sorted (content kw : string) :
  StronglySorted lt (map position (matches_of_keyword content kw)).
Proof.
  unfold matches_of_keyword. rewrite map_map. cbn [position].
  apply (scan_sorted (keyword_pattern kw)).
Qed.

Lemma find_keyword_matches_elem (keywords : list string) (content : string)
    (km : KeywordMatch) :
  km ∈ _find_keyword_matches keywords content <->
  exists kw, kw ∈ keywords /\ km ∈ matches_of_keyword content kw.
Proof.
  unfold _find_keyword_matches. rewrite list_elem_of_In, in_flat_map.
  split; intros (kw & Hkw & Hkm); exists kw.
  - rewrite !list_elem_of_In. auto.
  - rewrite <- !list_elem_of_In. auto.
Qed.

Lemma find_keyword_matches_recorded (keywords : list string) (content kw : string)
    (i : nat) :
  (exists km, km ∈ _find_keyword_matches keywords content
              /\ keyword km = kw /\ position km = i)
  <-> kw ∈ keywords /\ i ∈ recorded kw content.
Proof.
  unfold recorded. split.
  - intros (km & (kw' & Hkw' & Hkm)%find_keyword_matches_elem & <- & <-).
    rewrite (matches_of_keyword_keyword _ _ _ Hkm). split; [exact Hkw'|].
    apply list_elem_of_fmap. eauto.
  - intros (Hkw & (km & -> & Hkm)%list_elem_of_fmap). exists km.
    split; [|split; [eapply matches_of_keyword_keyword, Hkm | reflexivity]].
    apply find_keyword_matches_elem. eauto.
Qed.

(** C3, amended.  The matches are listed keyword by keyword, in the order
    in which the keyword set is iterated; the matches of one keyword
    follow each other by strictly increasing offset.  The first element is
    thus the match at the smallest offset among those of its own keyword,
    not among all matches. *)
Theorem C3_matches_grouped_by_keyword (keywords : list string) (content : string) :
  NoDup keywords ->
  (exists blocks,
      _find_keyword_matches keywords content = concat blocks
      /\ Forall2 (fun kw block =>
                    Forall (fun km => keyword km = kw) block
                    /\ StronglySorted lt (map position block))
                 keywords blocks)
  /\ (forall km rest km',
         _find_keyword_matches keywords content = km :: rest ->
         km' ∈ rest -> keyword km' = keyword km ->
         (position km < position km')%nat).
Proof.
  intros Hnd. split.
  - exists (map (matches_of_keyword content) keywords). split.
    + unfold _find_keyword_matches. apply flat_map_concat_map.
    + clear Hnd. induction keywords as [|kw kws IH]; constructor; [|exact IH].
      split; [|apply matches_of_keyword_sorted].
      apply Forall_forall. intros km. apply matches_of_keyword_keyword.
  - induction Hnd as [|kw kws Hnotin Hnd IH]; intros km rest km' Heq Hin Hsame.
    + discriminate Heq.
    + unfold _find_keyword_matches in Heq. cbn [flat_map] in Heq.
      pose proof (matches_of_keyword_sorted content kw) as Hsorted.
      pose proof (matches_of_keyword_keyword content kw) as Hkey.
      destruct (matches_of_keyword content kw) as [|km0 block].
      * eapply IH; eassumption.
      * injection Heq as -> <-.
        apply elem_of_app in Hin as [Hin | Hin].
        -- cbn [map] in Hsorted. apply StronglySorted_inv in Hsorted as [_ Hall].
           rewrite Forall_forall in Hall. apply Hall.
           apply list_elem_of_fmap. eauto.
        -- exfalso. apply Hnotin.
           apply find_keyword_matches_elem in Hin as (kw' & Hkw' & Hkm').
           rewrite (matches_of_keyword_keyword _ _ _ Hkm') in Hsame.
           rewrite Hsame, (Hkey km) in Hkw' by left. exact Hkw'.
Qed.


(** ** Entities *)

Lemma truthy_nonempty {A} (v : list A) : truthy v = true <-> v <> nil.
Proof. destruct v; simpl; split; congruence. Qed.

Lemma list_set_NoDup (xs : list string) : NoDup (list_set xs).
Proof. unfold list_set. apply NoDup_elements. Qed.

Lemma list_set_elem (xs : list string) (x : string) : x ∈ list_set xs <-> x ∈ xs.
Proof. unfold list_set. rewrite elem_of_elements, elem_of_list_to_set. reflexivity. Qed.

(** No kind of the result map holds an empty list. *)
Lemma extract_entities_nonempty (content kind : string) (values : list string) :
  (kind, values) ∈ _extract_entities content -> values <> nil.
Proof.
  unfold _extract_entities, remove_empty.
  intros [Ht _]%list_elem_of_filter. apply truthy_nonempty, Ht.
Qed.

(** The nine kinds that go through [list(set(...))] hold no value twice. *)
Lemma extract_entities_dedup (content kind : string) (values : list string) :
  (kind, values) ∈ _extract_entities content ->
  kind <> "credit_cards" -> kind <> "ip_addresses" ->
  NoDup values.
Proof.
  unfold _extract_entities, remove_empty.
  intros [_ Hin]%list_elem_of_filter Hcc Hip. unfold all_entities in Hin.
  cbv zeta in Hin. rewrite !elem_of_cons in Hin.
  destruct Hin as [Hin|[Hin|[Hin|[Hin|[Hin|[Hin|[Hin|[Hin|[Hin|[Hin|[Hin|Hin]]]]]]]]]]];
    try (injection Hin as -> ->; first [apply list_set_NoDup | congruence]).
  inversion Hin.
Qed.

(** ** Findings *)

Lemma any_values_spec (e : EntityMap) :
  any_values e = true <->
  exists kind values, (kind, values) ∈ e /\ values <> nil.
Proof.
  unfold any_values. rewrite existsb_exists. split.
  - intros ([kind values] & Hin%list_elem_of_In & Ht%truthy_nonempty). eauto.
  - intros (kind & values & Hin%list_elem_of_In & Ht%truthy_nonempty).
    exists (kind, values). auto.
Qed.

(** The values found are all the same text: the set holds it once. *)
Lemma list_set_one (xs : list string) (x : string) :
  (forall v, v ∈ xs <-> v = x) -> list_set xs = x :: nil.
Proof.
  intros Hxs. unfold list_set.
  assert (list_to_set xs =@{gset string} {[ x ]}) as ->.
  { apply set_eq. intros v. rewrite elem_of_list_to_set, elem_of_singleton.
    apply Hxs. }
  apply elements_singleton.
Qed.

Lemma remove_empty_nil (e : EntityMap) :
  remove_empty e = nil <-> forall kind values, (kind, values) ∈ e -> values = nil.
Proof.
  unfold remove_empty. induction e as [|[k v] e IH].
  - split; [|reflexivity]. intros _ kind values Hin. inversion Hin.
  - rewrite (filter_cons _ (k, v) e). cbn [snd]. destruct v as [|x v]; cbn [truthy].
    + rewrite decide_False by discriminate. rewrite IH. split.
      * intros He kind values [[= -> ->] | Hin]%elem_of_cons; eauto.
      * intros He kind values Hin. apply (He kind). right. exact Hin.
    + rewrite decide_True by reflexivity. split; [discriminate|].
      intros He. exfalso. discriminate (He k (x :: v)). left.
Qed.

(** A map without empty lists has a list with values, unless it is
    empty. *)
Lemma any_values_remove_empty (e : EntityMap) :
  any_values (remove_empty e) = true <-> remove_empty e <> nil.
Proof.
  unfold any_values, remove_empty. induction e as [|[k v] e IH].
  - simpl. split; [discriminate | intros Hf; destruct Hf; reflexivity].
  - rewrite (filter_cons _ (k, v) e). cbn [snd]. destruct v as [|x v]; cbn [truthy].
    + rewrite decide_False by discriminate. exact IH.
    + rewrite decide_True by reflexivity. cbn [existsb snd truthy orb].
      split; [discriminate | reflexivity].
Qed.


End ExtractorClaims.

(* ===================================================================== *)
(** * The extractor on small texts *)
(* ===================================================================== *)

Section ExtractorExamples.
Import re content_parser.

(** C3, counterexample.  Whichever of the two keywords the set yields
    first, there is a text whose first listed match is not the match at
    the smallest offset: the matches of the first keyword come first. *)
Lemma C3_first_match_not_leftmost :
  map (fun km => (keyword km, position km))
    (_find_keyword_matches ("wallet" :: "bitcoin" :: nil) "bitcoin wallet")
  = ("wallet", 8%nat) :: ("bitcoin", 0%nat) :: nil
  /\ map (fun km => (keyword km, position km))
       (_find_keyword_matches ("bitcoin" :: "wallet" :: nil) "wallet bitcoin")
     = ("bitcoin", 7%nat) :: ("wallet", 0%nat) :: nil.
Proof. vm_compute. split; reflexivity. Qed.

Lemma C3_witness :
  NoDup ("wallet" :: "bitcoin" :: nil)
  /\ exists blocks,
      _find_keyword_matches ("wallet" :: "bitcoin" :: nil)
        "bitcoin wallet, a wallet for bitcoin" = concat blocks
      /\ Forall2 (fun kw block =>
                    Forall (fun km => keyword km = kw) block
                    /\ StronglySorted lt (map position block))
                 ("wallet" :: "bitcoin" :: nil) blocks.
Proof.
  assert (NoDup ("wallet" :: "bitcoin" :: nil)) as Hnd.
  { refine (bool_decide_unpack _ _). vm_compute. exact I. }
  split; [exact Hnd|].
  exact (proj1 (C3_matches_grouped_by_keyword ("wallet" :: "bitcoin" :: nil)
                  "bitcoin wallet, a wallet for bitcoin" Hnd)).
Defined.

(** Every occurrence of a keyword is listed, each with its offset. *)
Example every_occurrence_listed :
  map (fun km => (keyword km, position km))
    (_find_keyword_matches ("wallet" :: "bitcoin" :: nil)
       "bitcoin wallet, a wallet for bitcoin")
  = ("wallet", 8%nat) :: ("wallet", 18%nat)
    :: ("bitcoin", 0%nat) :: ("bitcoin", 29%nat) :: nil.
Proof. vm_compute. reflexivity. Qed.


(** A phrase that overlaps itself: the occurrence at offset 3 starts
    inside the one recorded at offset 0 and is passed over. *)
Example overlapping_occurrence_skipped :
  occurs_at "aa aa" "aa aa aa" 3
  /\ map position (_find_keyword_matches ("aa aa" :: nil) "aa aa aa") = 0%nat :: nil.
Proof.
  split; [|vm_compute; reflexivity].
  exists "aa ", "aa aa", "". repeat split; reflexivity.
Qed.


(** The two texts of the specification. *)
Example bitcoin_wallet_matches :
  map position (_find_keyword_matches ("bitcoin" :: nil) "Bitcoin wallet") = 0%nat :: nil.
Proof. vm_compute. reflexivity. Qed.

Example bitcoincash_does_not_match :
  _find_keyword_matches ("bitcoin" :: nil) "bitcoincash" = nil.
Proof. vm_compute. reflexivity. Qed.



Example one_keyword_one_email :
  has_matches (parse_content ("bitcoin" :: nil) true toy.shop) = true
  /\ map (fun km => (keyword km, position km))
       (keyword_matches (parse_content ("bitcoin" :: nil) true toy.shop))
     = ("bitcoin", 4%nat) :: nil
  /\ entities (parse_content ("bitcoin" :: nil) true toy.shop)
     = ("emails", "a@b.com" :: nil) :: nil.
Proof. vm_compute. repeat split; reflexivity. Qed.

(** C4, at the failing input.  An IP address, or a card number, that
    stands twice in the text is listed twice: these two kinds are filtered
    but not passed through a set.  The email address that stands twice is
    listed once. *)
Theorem C4_ip_and_card_values_repeat :
  lookup_kind "ip_addresses" (_extract_entities "10.0.0.1 and 10.0.0.1")
  = Some ("10.0.0.1" :: "10.0.0.1" :: nil)
  /\ lookup_kind "credit_cards"
       (_extract_entities "4111-1111-1111-1111 4111-1111-1111-1111")
     = Some ("4111-1111-1111-1111" :: "4111-1111-1111-1111" :: nil)
  /\ _extract_entities "a@b.com and a@b.com" = ("emails", "a@b.com" :: nil) :: nil.
Proof. vm_compute. repeat split; reflexivity. Qed.

(** The candidates of the specification. *)
Example cc_and_ip_candidates :
  _is_valid_cc_format "4111-1111-1111-1111" = true
  /\ _is_valid_cc_format "123-456" = false
  /\ _is_valid_ip "999.1.1.1" = false
  /\ _is_valid_ip "192.168.1.1" = true.
Proof. vm_compute. repeat split; reflexivity. Qed.

(** A text without anything to extract gives the empty map. *)
Example nothing_to_extract : _extract_entities "nothing of interest" = nil.
Proof. vm_compute. reflexivity. Qed.

End ExtractorExamples.

(* ===================================================================== *)
(** * Fetching: oversized bodies, and batches *)
(* ===================================================================== *)

Section FetchClaims.
Import urllib tor_crawler.
Context `{UrlLib} `{Web}.
Variable config : Config.

Lemma len_slice_to {A} (n : Z) (s : list A) :
  0 <= n -> len (slice_to n s) = Z.min n (len s).
Proof.
  intros Hn. unfold slice_to, len.
  destruct (0 <=? n) eqn:Hle; [|apply Z.leb_gt in Hle; lia].
  rewrite length_take. lia.
Qed.

Lemma slice_to_take {A} (n : Z) (s : list A) :
  0 <= n -> slice_to n s = take (Z.to_nat n) s.
Proof.
  intros Hn. unfold slice_to.
  destruct (0 <=? n) eqn:Hle; [reflexivity | apply Z.leb_gt in Hle; lia].
Qed.

Lemma join_all_none (url : string) (hrefs : list string) :
  join_all url hrefs = None <->
  exists href, href ∈ hrefs /\ urljoin url href = None.
Proof.
  induction hrefs as [|href hrefs IH]; cbn [join_all].
  - split; [discriminate|]. intros (href & Hin & _). inversion Hin.
  - destruct (urljoin url href) as [full_url|] eqn:Hj.
    + destruct (join_all url hrefs) as [full_urls|].
      * split; [discriminate|]. intros (h & Hin & Hh).
        apply elem_of_cons in Hin as [-> | Hin]; [congruence|].
        assert (Some full_urls = None) as Hf by (apply IH; eauto).
        discriminate Hf.
      * split; [|reflexivity]. intros _.
        destruct (proj1 IH eq_refl) as (h & Hin & Hh).
        exists h. split; [right; exact Hin | exact Hh].
    + split; [|reflexivity]. intros _. exists href. split; [left | exact Hj].
Qed.

(** What [crawl_page] makes of a response, told by the body it keeps. *)
Lemma process_response_none (w : World) (url : string) (response : Response) :
  process_response config w url response = None <->
  unusable config (status_code response) (retained config response)
  \/ broken_link url (retained config response).
Proof.
  unfold process_response, unusable, broken_link. cbv zeta.
  rewrite <- join_all_none.
  destruct (status_code response =? 200) eqn:Hs; cbn [negb].
  - apply Z.eqb_eq in Hs.
    destruct (soup_raises (retained config response)) eqn:Hr.
    + split; [auto | reflexivity].
    + destruct (len _ <? min_content_length config) eqn:Hm.
      * apply Z.ltb_lt in Hm. split; [auto | reflexivity].
      * apply Z.ltb_ge in Hm.
        destruct (join_all url _) as [full_urls|].
        -- split; [discriminate|].
           intros [[Hf | [Hf | Hf]] | Hf]; try discriminate; lia.
        -- split; [auto | reflexivity].
  - apply Z.eqb_neq in Hs. split; [auto | reflexivity].
Qed.

Lemma process_response_some (w : World) (url : string) (response : Response)
    (page : Page) :
  process_response config w url response = Some page ->
  p_raw_html page = retained config response
  /\ p_content page = soup_get_text (retained config response)
  /\ p_content_length page = len (retained config response).
Proof.
  unfold process_response. cbv zeta.
  destruct (negb _); [discriminate|].
  destruct (soup_raises _); [discriminate|].
  destruct (len _ <? _); [discriminate|].
  destruct (join_all _ _); [|discriminate].
  intros [= <-]. cbn. auto.
Qed.

(** What makes a single fetch of the concurrent client yield nothing. *)
Lemma crawl_page_async_none (url : string) (outcome : AsyncOutcome) :
  crawl_page_async config url outcome = None <->
  outcome = ATimeout \/ outcome = AError
  \/ exists status body hdrs,
      outcome = AResponse status body hdrs
      /\ unusable config status (retained_async config body).
Proof.
  unfold unusable.
  destruct outcome as [status body hdrs| |]; cbn [crawl_page_async].
  - destruct (status =? 200) eqn:Hs; cbn [negb].
    + apply Z.eqb_eq in Hs.
      destruct (soup_raises (retained_async config body)) eqn:Hr.
      * split; [|reflexivity]. intros _. right. right.
        exists status, body, hdrs. auto.
      * destruct (len _ <? min_content_length config) eqn:Hm.
        -- apply Z.ltb_lt in Hm. split; [|reflexivity]. intros _. right. right.
           exists status, body, hdrs. auto.
        -- apply Z.ltb_ge in Hm. split; [discriminate|].
           intros [Hf | [Hf | (s & b & h & [= <- <- <-] & [Hf | [Hf | Hf]])]];
             try discriminate; try congruence; lia.
    + apply Z.eqb_neq in Hs. split; [|reflexivity]. intros _. right. right.
      exists status, body, hdrs. auto.
  - split; [auto | reflexivity].
  - split; [auto | reflexivity].
Qed.

(** C9, amended.  A body over the cap is cut to the first
    [max_content_length] characters of the decoded text, and the fetch
    goes on with the cut text as with any other body.  No page is
    returned exactly when the status is not 200, the parser raises on the
    cut text, the text of the cut body is too short, or [urljoin] raises
    on a link of the cut body: the size is none of the reasons.  A page
    that is returned has the cut text as [raw_html], and a
    [content_length] of at most the cap, counted in characters.  The
    sequential client tests the size on the raw bytes, the concurrent
    client on the decoded text, where the cut text has exactly
    [max_content_length] characters. *)
Theorem C9_oversized_body_is_cut (w w1 : World) (url : string) (response : Response) :
  0 <= max_content_length config ->
  session_get w url = (w1, Returned response) ->
  max_content_length config < len (content response) ->
  let kept := take (Z.to_nat (max_content_length config)) (text response) in
  len kept = Z.min (max_content_length config) (len (text response))
  /\ (crawl_page config w url = (w1, None)
      <-> unusable config (status_code response) kept \/ broken_link url kept)
  /\ (~ (unusable config (status_code response) kept \/ broken_link url kept) ->
      exists page,
        crawl_page config w url = (w1, Some page)
        /\ p_raw_html page = kept
        /\ p_content page = soup_get_text kept
        /\ p_content_length page = len kept
        /\ p_content_length page <= max_content_length config)
  /\ (forall status body hdrs,
         max_content_length config < len body ->
         let cut := take (Z.to_nat (max_content_length config)) body in
         (crawl_page_async config url (AResponse status body hdrs) = None
          <-> unusable config status cut)
         /\ (~ unusable config status cut ->
             exists page,
               crawl_page_async config url (AResponse status body hdrs) = Some page
               /\ a_raw_html page = cut
               /\ a_content page = soup_get_text cut
               /\ a_content_length page = max_content_length config)).
Proof.
  intros Hcap Hget Hover kept.
  assert (len kept = Z.min (max_content_length config) (len (text response))) as Hlen.
  { subst kept. rewrite <- slice_to_take by exact Hcap. apply len_slice_to, Hcap. }
  assert (retained config response = kept) as Hkept.
  { unfold retained. apply Z.ltb_lt in Hover. rewrite Hover.
    apply slice_to_take, Hcap. }
  assert (crawl_page config w url = (w1, process_response config w1 url response))
    as Hpage.
  { unfold crawl_page. rewrite Hget. reflexivity. }
  split; [exact Hlen|]. split; [|split].
  - rewrite Hpage, <- Hkept, <- process_response_none.
    split; [intros [= ->]; reflexivity | intros ->; reflexivity].
  - intros Hok. rewrite Hpage.
    destruct (process_response config w1 url response) as [page|] eqn:Hp.
    + apply process_response_some in Hp as (Hraw & Htext & Hcl).
      rewrite Hkept in Hraw, Htext, Hcl.
      exists page. repeat (split; [first [reflexivity | assumption]|]). lia.
    + exfalso. apply Hok. rewrite <- Hkept.
      exact (proj1 (process_response_none w1 url response) Hp).
  - intros status body hdrs Hbody cut.
    assert (retained_async config body = cut) as Hcut.
    { unfold retained_async. apply Z.ltb_lt in Hbody. rewrite Hbody.
      apply slice_to_take, Hcap. }
    assert (crawl_page_async config url (AResponse status body hdrs) = None
            <-> unusable config status cut) as Hnone.
    { split.
      - intros Hn.
        apply crawl_page_async_none in Hn
          as [Hf | [Hf | (s & b & h & [= <- <- <-] & Hu)]];
          [discriminate | discriminate | rewrite <- Hcut; exact Hu].
      - intros Hu. apply crawl_page_async_none. right. right.
        exists status, body, hdrs. rewrite Hcut. auto. }
    split; [exact Hnone|].
    intros Hok.
    destruct (crawl_page_async config url (AResponse status body hdrs))
      as [page|] eqn:Hp; [|exfalso; exact (Hok (proj1 Hnone eq_refl))].
    exists page. split; [reflexivity|].
    cbn [crawl_page_async] in Hp. rewrite Hcut in Hp.
    destruct (negb _); [discriminate|].
    destruct (soup_raises _); [discriminate|].
    destruct (len _ <? _); [discriminate|].
    injection Hp as <-. cbn [a_raw_html a_content a_content_length].
    split; [reflexivity|]. split; [reflexivity|].
    subst cut. rewrite <- slice_to_take, len_slice_to by exact Hcap. lia.
Qed.

End FetchClaims.

Section BatchClaims.
Import tor_crawler.
Context `{Web}.
Variable config : Config.

Lemma valid_results_app (a b : list Gathered) :
  valid_results (a ++ b) = valid_results a ++ valid_results b.
Proof.
  induction a as [|[[page|]|] a IH]; simpl; rewrite ?IH; reflexivity.
Qed.

Lemma gather_app (a b : list (string * AsyncOutcome)) :
  gather config (a ++ b) = gather config a ++ gather config b.
Proof. unfold gather. apply map_app. Qed.

(** A fetch that succeeds gives the page of its URL. *)
Lemma crawl_page_async_succeeds (url : string) (outcome : AsyncOutcome) :
  succeeds config outcome = true ->
  exists page,
    crawl_page_async config url outcome = Some page
    /\ a_url page = url /\ a_status_code page = 200.
Proof.
  destruct outcome as [status body hdrs| |]; cbn [succeeds crawl_page_async];
    [|discriminate..].
  intros [[Hs Hr%negb_true_iff]%andb_true_iff Hm%Z.leb_le]%andb_true_iff.
  rewrite Hs, Hr. cbn [negb]. apply Z.ltb_ge in Hm. rewrite Hm.
  eexists. split; [reflexivity|]. cbn [a_url a_status_code].
  split; [reflexivity | apply Z.eqb_eq, Hs].
Qed.

(** A fetch that fails gives nothing. *)
Lemma crawl_page_async_fails (url : string) (outcome : AsyncOutcome) :
  succeeds config outcome = false <-> crawl_page_async config url outcome = None.
Proof.
  destruct (succeeds config outcome) eqn:Hs.
  - destruct (crawl_page_async_succeeds url outcome Hs) as (page & -> & _).
    split; discriminate.
  - split; [intros _|reflexivity].
    destruct outcome as [status body hdrs| |]; cbn [succeeds crawl_page_async] in *;
      try reflexivity.
    destruct (status =? 200); cbn [negb andb] in *; [|reflexivity].
    destruct (soup_raises _); cbn [negb andb] in *; [reflexivity|].
    apply Z.leb_gt, Z.ltb_lt in Hs. rewrite Hs. reflexivity.
Qed.

(** C7.  In a batch, the fetch of one URL contributes its page when it
    succeeds and nothing when it fails, that is on a time-out, an error,
    a status other than 200, a parser that raises or a text that is too
    short; the results of the URLs before it and after it are what they
    would be without it.  The batch yields as many pages as fetches
    succeeded. *)
Theorem C7_failures_are_local (urls1 urls2 : list string) (url : string)
    (net1 net2 : list AsyncOutcome) (outcome : AsyncOutcome) :
  length urls1 = length net1 ->
  let batch :=
    crawl_urls_async config (net1 ++ outcome :: net2) (urls1 ++ url :: urls2) in
  (succeeds config outcome = false
   <-> outcome = ATimeout \/ outcome = AError
       \/ exists status body hdrs,
           outcome = AResponse status body hdrs
           /\ unusable config status (retained_async config body))
  /\ (succeeds config outcome = false ->
      batch = crawl_urls_async config net1 urls1 ++ crawl_urls_async config net2 urls2
      /\ batch = crawl_urls_async config (net1 ++ net2) (urls1 ++ urls2))
  /\ (succeeds config outcome = true ->
      exists page,
        crawl_page_async config url outcome = Some page
        /\ a_url page = url
        /\ a_status_code page = 200
        /\ batch = crawl_urls_async config net1 urls1
                   ++ page :: crawl_urls_async config net2 urls2)
  /\ length batch
     = length (filter (fun job => succeeds config job.2 = true)
                 (zip (urls1 ++ url :: urls2) (net1 ++ outcome :: net2))).
Proof.
  intros Hlen batch.
  assert (forall jobs,
            length (valid_results (gather config jobs))
            = length (filter (fun job => succeeds config job.2 = true) jobs))
    as Hcount.
  { induction jobs as [|[u o] jobs IH]; [reflexivity|].
    cbn [gather map valid_results]. rewrite filter_cons. cbn [fst snd].
    fold (gather config jobs).
    destruct (succeeds config o) eqn:Hs.
    - destruct (crawl_page_async_succeeds u o Hs) as (page & -> & _).
      rewrite decide_True by reflexivity. simpl. f_equal. exact IH.
    - rewrite (proj1 (crawl_page_async_fails u o) Hs).
      rewrite decide_False by discriminate. exact IH. }
  assert (batch
          = crawl_urls_async config net1 urls1
            ++ match crawl_page_async config url outcome with
               | Some page => page :: nil
               | None => nil
               end
            ++ crawl_urls_async config net2 urls2) as Hsplit.
  { subst batch. unfold crawl_urls_async.
    rewrite zip_with_app by exact Hlen. cbn [zip_with].
    rewrite gather_app, valid_results_app. f_equal.
    cbn [gather map valid_results].
    destruct (crawl_page_async config url outcome); reflexivity. }
  split; [|split; [|split]].
  - rewrite (crawl_page_async_fails url outcome). apply crawl_page_async_none.
  - intros Hnone%(crawl_page_async_fails url). rewrite Hsplit, Hnone. cbn [app].
    split; [reflexivity|].
    unfold crawl_urls_async. rewrite zip_with_app by exact Hlen.
    rewrite gather_app, valid_results_app. reflexivity.
  - intros Hs. destruct (crawl_page_async_succeeds url outcome Hs)
      as (page & Hp & Hurl & Hstatus).
    exists page. rewrite Hsplit, Hp. auto.
  - apply Hcount.
Qed.

End BatchClaims.

(* ===================================================================== *)
(** * Continuous monitoring and the stop flag *)
(* ===================================================================== *)

Section MonitorClaims.
Import urllib tor_crawler main.
Context `{UrlLib} `{Web}.
Variable config : Config.
Variable stop_after : nat.

Lemma wait_spec (ticks : nat) (log : list Event) :
  exists k,
    wait stop_after ticks log = log ++ replicate k Sleep
    /\ (k = O \/ (length log + k <= stop_after)%nat).
Proof.
  revert log. induction ticks as [|ticks IH]; intros log; cbn [wait].
  - exists O. rewrite app_nil_r. auto.
  - unfold running. destruct (length log <? stop_after)%nat eqn:Hrun; cbn [negb].
    + apply Nat.ltb_lt in Hrun.
      destruct (IH (log ++ Sleep :: nil)) as (k & -> & Hk).
      exists (S k). rewrite <- app_assoc. split; [reflexivity|].
      right. rewrite length_app in Hk. simpl in Hk. lia.
    + exists O. rewrite app_nil_r. auto.
Qed.

Lemma lookup_replicate_sleep (k i : nat) (e : Event) :
  replicate k Sleep !! i = Some e -> e = Sleep /\ (i < k)%nat.
Proof. intros [-> Hlt]%lookup_replicate. auto. Qed.

Lemma lookup_fetches (urls : list string) (i : nat) (e : Event) :
  map Fetch urls !! i = Some e -> exists url, e = Fetch url.
Proof.
  intros Hl. apply list_lookup_fmap_Some in Hl as (url & -> & _). eauto.
Qed.

(** One round of the monitor keeps the log clean. *)
Lemma round_stops_cleanly (log : list Event) (n : nat) (urls : list string)
    (ticks : nat) :
  (length log < stop_after)%nat ->
  stops_cleanly stop_after log ->
  stops_cleanly stop_after
    (wait stop_after ticks ((log ++ ScanStart n :: nil) ++ map Fetch urls)).
Proof.
  intros Hrun [Hafter Hsleep].
  destruct (wait_spec ticks ((log ++ ScanStart n :: nil) ++ map Fetch urls))
    as (k & -> & Hk).
  set (log2 := (log ++ ScanStart n :: nil) ++ map Fetch urls) in *.
  assert (forall i e, (log2 ++ replicate k Sleep) !! i = Some e ->
            ((i < length log)%nat /\ log !! i = Some e)
            \/ (i = length log /\ e = ScanStart n)
            \/ (exists url, e = Fetch url)
            \/ (e = Sleep /\ (length log2 <= i < length log2 + k)%nat)) as Hcases.
  { intros i e Hl. apply lookup_app_Some in Hl as [Hl | [Hge Hl]].
    - subst log2. apply lookup_app_Some in Hl as [Hl | [Hge Hl]].
      + apply lookup_app_Some in Hl as [Hl | [Hge Hl]].
        * left. split; [eapply lookup_lt_Some, Hl | exact Hl].
        * right. left. destruct (i - length log)%nat eqn:Hd; [|discriminate].
          injection Hl as <-. split; [lia | reflexivity].
      + right. right. left. eapply lookup_fetches, Hl.
    - right. right. right. apply lookup_replicate_sleep in Hl as [-> Hlt].
      split; [reflexivity | lia]. }
  split.
  - intros i e Hi Hl.
    destruct (Hcases i e Hl) as [[_ Hl'] | [[-> _] | [Hf | [_ Hr]]]].
    + eapply Hafter; eassumption.
    + lia.
    + exact Hf.
    + destruct Hk as [-> | Hk]; lia.
  - intros i Hi Hl. rewrite length_app, length_replicate.
    destruct (Hcases i Sleep Hl) as [[Hlt Hl'] | [[_ Hf] | [[url Hf] | [_ Hr]]]].
    + specialize (Hsleep i Hi Hl'). lia.
    + discriminate Hf.
    + discriminate Hf.
    + destruct Hk as [-> | Hk]; lia.
Qed.

Lemma monitor_stops_cleanly (scans fuel : nat) (file : option (list string))
    (interval : Z) (w : World) (scan_count : nat) (log log' : list Event) :
  monitor config stop_after scans fuel file interval w scan_count log = Some log' ->
  stops_cleanly stop_after log -> stops_cleanly stop_after log'.
Proof.
  revert w scan_count log.
  induction scans as [|scans IH]; intros w scan_count log; cbn [monitor];
    unfold running; destruct (length log <? stop_after)%nat eqn:Hrun; cbn [negb];
    try discriminate; try (intros [= <-]; auto; fail).
  apply Nat.ltb_lt in Hrun. unfold run_single_scan.
  destruct (crawl_urls_from_file config fuel w file) as [[[w' pages] urls]|];
    [|discriminate].
  intros Hm Hclean. eapply IH; [exact Hm|].
  apply round_stops_cleanly; assumption.
Qed.

(** ** The monitor ends *)

Lemma monitor_more_fuel (scans fuel extra : nat) (file : option (list string))
    (interval : Z) (w : World) (scan_count : nat) (log log' : list Event) :
  monitor config stop_after scans fuel file interval w scan_count log = Some log' ->
  monitor config stop_after scans (fuel + extra) file interval w scan_count log
  = Some log'.
Proof.
  revert w scan_count log.
  induction scans as [|scans IH]; intros w scan_count log; cbn [monitor];
    destruct (negb (running stop_after log)); try discriminate; auto.
  unfold run_single_scan, crawl_urls_from_file. destruct file as [lines|].
  - destruct (crawl_urls config fuel w (read_urls lines)) as [[[w' pages] urls]|] eqn:Hc;
      [|discriminate].
    rewrite (crawl_urls_more_fuel config fuel extra _ _ _ Hc). apply IH.
  - apply IH.
Qed.

Lemma length_wait (ticks : nat) (log : list Event) :
  (length log <= length (wait stop_after ticks log))%nat.
Proof.
  destruct (wait_spec ticks log) as (k & -> & _). rewrite length_app. lia.
Qed.

Lemma monitor_terminates (file : option (list string)) (interval : Z) (n : nat) :
  forall (w : World) (scan_count : nat) (log : list Event),
    (stop_after - length log <= n)%nat ->
    exists scans fuel log',
      monitor config stop_after scans fuel file interval w scan_count log = Some log'.
Proof.
  induction n as [|n IH]; intros w scan_count log Hn.
  - exists O, O, log. cbn [monitor]. unfold running.
    assert ((length log <? stop_after)%nat = false) as -> by (apply Nat.ltb_ge; lia).
    reflexivity.
  - destruct (length log <? stop_after)%nat eqn:Hrun.
    + apply Nat.ltb_lt in Hrun.
      assert (exists f1 r, crawl_urls_from_file config f1 w file = Some r)
        as (f1 & [[w' pages] urls] & Hscan).
      { destruct file as [lines|]; [apply crawl_urls_terminates|].
        exists O. simpl. eauto. }
      set (log2 := wait stop_after (Z.to_nat interval)
                     ((log ++ ScanStart (S scan_count) :: nil) ++ map Fetch urls)).
      destruct (IH w' (S scan_count) log2) as (scans & f2 & log' & Hm).
      { pose proof (length_wait (Z.to_nat interval)
                      ((log ++ ScanStart (S scan_count) :: nil) ++ map Fetch urls)) as Hw.
        fold log2 in Hw. rewrite !length_app in Hw. simpl in Hw. lia. }
      exists (S scans), (f1 + f2)%nat, log'. cbn [monitor]. unfold running.
      apply Nat.ltb_lt in Hrun. rewrite Hrun. cbn [negb]. unfold run_single_scan.
      assert (crawl_urls_from_file config (f1 + f2) w file = Some (w', pages, urls))
        as ->.
      { destruct file as [lines|]; [|exact Hscan].
        apply crawl_urls_more_fuel, Hscan. }
      rewrite Nat.add_comm. apply monitor_more_fuel. exact Hm.
    + exists O, O, log. cbn [monitor]. unfold running. rewrite Hrun. reflexivity.
Qed.


End MonitorClaims.

(* ===================================================================== *)
(** * Fetching and monitoring on the small web *)
(* ===================================================================== *)

Section FetchExamples.
Import urllib tor_crawler main.
#[local] Existing Instance cpython.
#[local] Existing Instance toy.web.

(** C9, counterexample.  With a cap of 4, the body of [cafe] has six
    bytes and counts as too large.  Its text has three characters, so the
    cut at four characters keeps all of it: the kept text has neither four
    characters nor at most four bytes. *)
Lemma C9_multibyte_body_over_cap :
  exists page,
    crawl_page (mkConfig 10 4 1) toy.start toy.cafe = (1%nat, Some page)
    /\ len (utf8_encode (233 :: 233 :: 233 :: nil)%N) = 6
    /\ p_raw_html page = (233 :: 233 :: 233 :: nil)%N
    /\ p_content_length page = 3
    /\ len (utf8_encode (p_raw_html page)) = 6.
Proof. eexists. vm_compute. repeat split; reflexivity. Qed.

Lemma C9_witness :
  exists page,
    crawl_page (mkConfig 10 2 1) toy.start toy.cafe = (1%nat, Some page)
    /\ p_raw_html page = (233 :: 233 :: nil)%N
    /\ p_content page = (233 :: 233 :: nil)%N
    /\ p_content_length page = 2
    /\ p_content_length page <= 2.
Proof.
  refine (proj1 (proj2 (proj2 (C9_oversized_body_is_cut (mkConfig 10 2 1) toy.start
                                 1%nat toy.cafe
                                 (mkResponse 200
                                    (utf8_encode (233 :: 233 :: 233 :: nil)%N)
                                    (233 :: 233 :: 233 :: nil)%N nil)
                                 _ _ _))) _).
  - cbn. lia.
  - reflexivity.
  - vm_compute. reflexivity.
  - intros [[Hf | [Hf | Hf]] | Hf].
    + apply Hf. reflexivity.
    + discriminate Hf.
    + vm_compute in Hf. discriminate Hf.
    + apply join_all_none in Hf. vm_compute in Hf. discriminate Hf.
Defined.

(** A link on which [urljoin] raises: the page is lost, whatever its
    size. *)
Example broken_link_gives_no_page :
  urljoin toy.home "http://[x" = None
  /\ crawl_page (H0 := toy.broken) toy.config toy.start toy.home = (1%nat, None).
Proof. vm_compute. split; reflexivity. Qed.

Lemma C7_witness :
  length (toy.home :: nil) = length (toy.ok_page :: nil)
  /\ length (crawl_urls_async toy.config toy.two_timeouts toy.five_urls) = 3%nat.
Proof.
  split; [reflexivity|].
  exact (proj2 (proj2 (proj2 (C7_failures_are_local toy.config (toy.home :: nil)
                  (toy.market :: toy.down :: toy.forum :: nil) toy.down
                  (toy.ok_page :: nil) (toy.ok_page :: ATimeout :: toy.ok_page :: nil)
                  ATimeout eq_refl)))).
Defined.

(** Five URLs, two of which time out: three pages, in the order of the
    URLs. *)
Example five_urls_two_timeouts :
  map a_url (crawl_urls_async toy.config toy.two_timeouts toy.five_urls)
  = toy.home :: toy.market :: toy.forum :: nil.
Proof. vm_compute. reflexivity. Qed.


(** A stop during the wait, after the second sleep: no third sleep, no
    second scan. *)
Example stop_during_wait :
  run_continuous_monitoring toy.config 7 5 20 (Some (toy.home :: nil)) 3600 toy.start
  = Some (ScanStart 1 :: Fetch toy.home :: Fetch toy.market
          :: Fetch toy.forum :: Fetch toy.down :: Sleep :: Sleep :: nil).
Proof. vm_compute. reflexivity. Qed.

(** Without a stop within the first scans, a second scan follows the
    wait. *)
Example second_scan_after_wait :
  run_continuous_monitoring toy.config 9 5 20 (Some (toy.home :: nil)) 2 toy.start
  = Some (ScanStart 1 :: Fetch toy.home :: Fetch toy.market
          :: Fetch toy.forum :: Fetch toy.down :: Sleep :: Sleep
          :: ScanStart 2 :: Fetch toy.home :: Fetch toy.market
          :: Fetch toy.forum :: Fetch toy.down :: nil).
Proof. vm_compute. reflexivity. Qed.

End FetchExamples.

(* ===================================================================== *)
(** * More on the crawler: scope, results, seed lists, batches *)
(* ===================================================================== *)

Section CrawlerScope.
Import urllib tor_crawler.
Context `{UrlLib} `{Web}.
Variable config : Config.

(** The loop ends, in one state whatever the fuel, and that state has every
    property that the first state has and every turn keeps. *)
Lemma crawl_site_ends_with (w : World) (base_url : string) (P : Frontier -> Prop) :
  (forall st st', turn config base_url st st' -> P st -> P st') ->
  P (initial w base_url) ->
  exists fuel st,
    crawl_site config fuel w base_url = Some st
    /\ P st
    /\ forall fuel' st', crawl_site config fuel' w base_url = Some st' -> st' = st.
Proof.
  intros Hturn Hinit.
  destruct (crawl_loop_terminates config base_url (initial w base_url))
    as (fuel & st & Hloop).
  exists fuel, st. split; [exact Hloop|]. split.
  - eapply crawl_loop_preserves; eassumption.
  - intros fuel' st' Hloop'. eapply crawl_loop_deterministic; eassumption.
Qed.

Lemma enqueue_on_seed_domain (base_url : string) (visited : gset string)
    (links queue : list string) :
  Forall (on_seed_domain base_url) queue ->
  Forall (on_seed_domain base_url) (fold_left (enqueue base_url visited) links queue).
Proof.
  revert queue. induction links as [|link links IH]; intros queue Hq; [exact Hq|].
  simpl. apply IH. unfold enqueue.
  destruct (bool_decide (link ∉ visited) && bool_decide (link ∉ queue)
            && _same_domain base_url link) eqn:Hc; [|exact Hq].
  apply andb_true_iff in Hc as [_ Hsame].
  apply Forall_app. split; [exact Hq|]. constructor; [right; exact Hsame|constructor].
Qed.

Lemma turn_confined (base_url : string) (st st' : Frontier) :
  turn config base_url st st' -> confined base_url st -> confined base_url st'.
Proof.
  unfold confined.
  destruct 1 as [url queue Hq Hlt Hv | url queue w1 pd Hq Hlt Hv Hp
                | url queue w1 Hq Hlt Hv Hp];
    cbn [fetched urls_to_visit]; rewrite Hq; intros [Hqueue Hf];
    apply Forall_cons in Hqueue as [Hurl Hqueue].
  - auto.
  - split; [apply enqueue_on_seed_domain, Hqueue|].
    apply Forall_app. split; [exact Hf|]. constructor; [exact Hurl|constructor].
  - split; [exact Hqueue|].
    apply Forall_app. split; [exact Hf|]. constructor; [exact Hurl|constructor].
Qed.

Lemma crawl_page_page_ok (w w1 : World) (url : string) (pd : Page) :
  crawl_page config w url = (w1, Some pd) -> p_url pd = url /\ page_ok config pd.
Proof.
  unfold crawl_page. destruct (session_get w url) as [w2 outcome].
  destruct outcome as [response| | |]; intros [= <- Hp]; try discriminate.
  unfold process_response in Hp.
  destruct (status_code response =? 200) eqn:Hs; cbn [negb] in Hp; [|discriminate].
  destruct (soup_raises _); [discriminate|].
  destruct (len _ <? min_content_length config) eqn:Hm; [discriminate|].
  destruct (join_all _ _); [|discriminate].
  injection Hp as <-. apply Z.eqb_eq in Hs. apply Z.ltb_ge in Hm.
  split; [reflexivity|]. unfold page_ok. cbn. repeat split; try assumption.
  apply Forall_forall. intros x Hx%list_elem_of_filter. apply Hx.
Qed.

Lemma turn_results_ok (base_url : string) (st st' : Frontier) :
  turn config base_url st st' -> results_ok config st -> results_ok config st'.
Proof.
  unfold results_ok.
  destruct 1 as [url queue Hq Hlt Hv | url queue w1 pd Hq Hlt Hv Hp
                | url queue w1 Hq Hlt Hv Hp];
    cbn [fetched results]; intros [Hsub Hok].
  - auto.
  - destruct (crawl_page_page_ok _ _ _ _ Hp) as [Hurl Hpage]. split.
    + rewrite map_app. cbn [map]. rewrite Hurl. apply sublist_app; [exact Hsub|].
      reflexivity.
    + apply Forall_app. split; [exact Hok|]. constructor; [exact Hpage|constructor].
  - split; [|exact Hok]. apply sublist_inserts_r. exact Hsub.
Qed.

(** X1.  The traversal of a seed stays on the seed's site: every URL it
    fetches, and so every page it returns, is the seed itself or a URL with
    the network location of the seed. *)
Theorem crawl_site_stays_on_seed_domain (w : World) (base_url : string) :
  exists fuel st,
    crawl_site config fuel w base_url = Some st
    /\ Forall (fun url => url = base_url \/ _same_domain base_url url = true)
         (fetched st)
    /\ Forall (fun pd => p_url pd = base_url
                         \/ _same_domain base_url (p_url pd) = true)
         (results st)
    /\ forall fuel' st', crawl_site config fuel' w base_url = Some st' -> st' = st.
Proof.
  destruct (crawl_site_ends_with w base_url
              (fun st => confined base_url st /\ results_ok config st))
    as (fuel & st & Hsite & [[_ Hconf] [Hsub _]] & Hdet).
  - intros st st' Hturn [Hc Hr]. split.
    + eapply turn_confined; eassumption.
    + eapply turn_results_ok; eassumption.
  - split; split; cbn; try constructor; [left; reflexivity | constructor].
  - exists fuel, st. split; [exact Hsite|]. split; [exact Hconf|]. split; [|exact Hdet].
    apply Forall_forall. intros pd Hpd.
    rewrite Forall_forall in Hconf. apply Hconf.
    apply (sublist_subseteq _ _ Hsub). apply list_elem_of_fmap. eauto.
Qed.

(** X2.  The pages a traversal returns are the pages it fetched with
    success, in the order of the fetches and each once: the URLs of the
    results are distinct and form a sub-sequence of the fetch log; every
    result has status 200, a text of at least [min_content_length]
    characters, a [content_length] that is the length of its [raw_html], and
    only links that pass the crawler's check. *)
Theorem crawl_site_results_well_formed (w : World) (base_url : string) :
  exists fuel st,
    crawl_site config fuel w base_url = Some st
    /\ NoDup (map p_url (results st))
    /\ map p_url (results st) `sublist_of` fetched st
    /\ Forall (fun pd =>
                 p_status_code pd = 200
                 /\ min_content_length config <= len (p_content pd)
                 /\ p_content_length pd = len (p_raw_html pd)
                 /\ Forall (fun link => _is_valid_onion_url link = true) (p_links pd))
         (results st)
    /\ forall fuel' st', crawl_site config fuel' w base_url = Some st' -> st' = st.
Proof.
  destruct (crawl_site_ends_with w base_url
              (fun st => fetch_once st /\ results_ok config st))
    as (fuel & st & Hsite & [[Hnd _] [Hsub Hok]] & Hdet).
  - intros st st' Hturn [Hc Hr]. split.
    + eapply turn_fetch_once; eassumption.
    + eapply turn_results_ok; eassumption.
  - split; split; cbn; try constructor. intros url Hin. inversion Hin.
  - exists fuel, st. split; [exact Hsite|]. split.
    + eapply sublist_NoDup; eassumption.
    + split; [exact Hsub|]. split; [exact Hok | exact Hdet].
Qed.

End CrawlerScope.

Section SeedFiles.
Import urllib tor_crawler.
Context `{UrlLib} `{Web}.
Variable config : Config.

Lemma crawl_site_within_cap (fuel : nat) (w : World) (url : string) st :
  crawl_site config fuel w url = Some st ->
  len (results st) <= Z.max 0 (max_pages_per_site config).
Proof.
  intros Hsite.
  refine (crawl_loop_preserves config url (within_cap config)
            (turn_within_cap config url) fuel _ _ Hsite _).
  unfold within_cap, len. cbn. lia.
Qed.

Lemma crawl_urls_page_bound (fuel : nat) (w : World) (urls : list string)
    w' pages log :
  crawl_urls config fuel w urls = Some (w', pages, log) ->
  len pages <= Z.max 0 (max_pages_per_site config) * len urls.
Proof.
  revert w w' pages log. induction urls as [|url urls IH]; intros w w' pages log; simpl.
  - intros [= <- <- <-]. unfold len. simpl. lia.
  - assert (len (url :: urls) = len urls + 1) as -> by (unfold len; simpl; lia).
    destruct (_is_valid_onion_url url).
    + destruct (crawl_site config fuel w url) as [st|] eqn:Hsite; [|discriminate].
      destruct (crawl_urls config fuel (world st) urls) as [[[w1 rs] lg]|] eqn:Hrest;
        [|discriminate].
      intros [= <- <- <-]. apply IH in Hrest. apply crawl_site_within_cap in Hsite.
      unfold len in *. rewrite length_app. lia.
    + intros Hrest%IH. lia.
Qed.

Lemma length_read_urls (lines : list string) :
  (length (read_urls lines) <= length lines)%nat.
Proof. unfold read_urls. rewrite length_map. apply length_filter. Qed.

(** X3.  A crawl of a seed file returns at most [max_pages_per_site] pages
    for each line of the file (a negative cap counting as zero), and a file
    that cannot be opened gives no page and no request. *)
Theorem crawl_urls_from_file_page_bound (w : World) (lines : list string) :
  (exists fuel w' pages log,
      crawl_urls_from_file config fuel w (Some lines) = Some (w', pages, log)
      /\ len pages <= Z.max 0 (max_pages_per_site config) * len lines)
  /\ forall fuel, crawl_urls_from_file config fuel w None = Some (w, nil, nil).
Proof.
  split; [|reflexivity].
  destruct (crawl_urls_terminates config w (read_urls lines))
    as (fuel & [[w' pages] log] & Hcrawl).
  exists fuel, w', pages, log. split; [exact Hcrawl|].
  apply crawl_urls_page_bound in Hcrawl.
  pose proof (length_read_urls lines). unfold len in *. nia.
Qed.

Lemma read_urls_app (a b : list string) :
  read_urls (a ++ b) = read_urls a ++ read_urls b.
Proof. unfold read_urls. rewrite filter_app, map_app. reflexivity. Qed.

Lemma read_urls_cons (line : string) (lines : list string) :
  read_urls (line :: lines)
  = (let s := PyStr.strip PyStr.is_space line in
     if negb (String.eqb s "") && negb (PyStr.startswith "#" s)
     then s :: read_urls lines else read_urls lines).
Proof.
  unfold read_urls. rewrite filter_cons. cbv zeta.
  destruct (negb _ && negb _) eqn:Hc.
  - rewrite decide_True by reflexivity. reflexivity.
  - rewrite decide_False by discriminate. reflexivity.
Qed.

Lemma crawl_urls_skip (fuel : nat) (w : World) (urls1 urls2 : list string)
    (url : string) :
  _is_valid_onion_url url = false ->
  crawl_urls config fuel w (urls1 ++ url :: urls2)
  = crawl_urls config fuel w (urls1 ++ urls2).
Proof.
  intros Hbad. revert w. induction urls1 as [|u urls1 IH]; intros w; simpl.
  - rewrite Hbad. reflexivity.
  - destruct (_is_valid_onion_url u); [|apply IH].
    destruct (crawl_site config fuel w u) as [st|]; [|reflexivity].
    rewrite IH. reflexivity.
Qed.

(** X4.  A line of the seed file that is blank, that is a comment, or whose
    URL does not pass the crawler's check has no effect: the crawl is the
    crawl of the file without that line, with the same requests, pages and
    final state of the world. *)
Theorem crawl_urls_from_file_ignores_line (fuel : nat) (w : World)
    (lines1 lines2 : list string) (line : string) :
  PyStr.strip PyStr.is_space line = ""
  \/ PyStr.startswith "#" (PyStr.strip PyStr.is_space line) = true
  \/ _is_valid_onion_url (PyStr.strip PyStr.is_space line) = false ->
  crawl_urls_from_file config fuel w (Some (lines1 ++ line :: lines2))
  = crawl_urls_from_file config fuel w (Some (lines1 ++ lines2)).
Proof.
  intros Hline. cbn [crawl_urls_from_file].
  rewrite !read_urls_app, read_urls_cons. cbv zeta.
  destruct (negb (String.eqb (PyStr.strip PyStr.is_space line) "")
            && negb (PyStr.startswith "#" (PyStr.strip PyStr.is_space line))) eqn:Hc;
    [|reflexivity].
  apply andb_true_iff in Hc as [Hne Hnc].
  apply negb_true_iff in Hne, Hnc. apply String.eqb_neq in Hne.
  destruct Hline as [Hl | [Hl | Hl]]; [contradiction | congruence |].
  apply crawl_urls_skip, Hl.
Qed.

End SeedFiles.

Section BatchOrder.
Import tor_crawler.
Context `{Web}.
Variable config : Config.

Lemma crawl_page_async_ok (url : string) (outcome : AsyncOutcome) (page : AsyncPage) :
  crawl_page_async config url outcome = Some page ->
  a_url page = url /\ async_page_ok config page.
Proof.
  destruct outcome as [status body hdrs| |]; cbn [crawl_page_async]; try discriminate.
  destruct (status =? 200) eqn:Hs; cbn [negb]; [|discriminate].
  destruct (soup_raises _); [discriminate|].
  destruct (len _ <? min_content_length config) eqn:Hm; [discriminate|].
  intros [= <-]. apply Z.eqb_eq in Hs. apply Z.ltb_ge in Hm.
  unfold async_page_ok. cbn. auto.
Qed.

(** X5.  The pages of a batch come in the order of the URLs given: their
    URLs form a sub-sequence of the list of URLs.  Every page has status
    200, a text of at least [min_content_length] characters, and a
    [content_length] that is the length of its [raw_html]. *)
Theorem crawl_urls_async_keeps_order (net : list AsyncOutcome) (urls : list string) :
  map a_url (crawl_urls_async config net urls) `sublist_of` urls
  /\ Forall (fun page =>
               a_status_code page = 200
               /\ min_content_length config <= len (a_content page)
               /\ a_content_length page = len (a_raw_html page))
       (crawl_urls_async config net urls).
Proof.
  unfold crawl_urls_async. revert net.
  induction urls as [|url urls IH]; intros net.
  - split; constructor.
  - destruct net as [|outcome net]; [split; [apply sublist_nil_l | constructor]|].
    cbn [zip_with gather map valid_results]. fold (gather config (zip urls net)).
    destruct (IH net) as [Hsub Hok].
    destruct (crawl_page_async config url outcome) as [page|] eqn:Hp.
    + destruct (crawl_page_async_ok _ _ _ Hp) as [Hurl Hpage].
      cbn [map]. rewrite Hurl. split.
      * apply sublist_skip. exact Hsub.
      * constructor; [exact Hpage | exact Hok].
    + split; [apply sublist_cons, Hsub | exact Hok].
Qed.

End BatchOrder.

(* ===================================================================== *)
(** * More on the extractor: lengths, offsets, case *)
(* ===================================================================== *)

Section StringLengths.

Lemma length_take_le (n : nat) (s : string) :
  (String.length (PyStr.take n s) <= n)%nat
  /\ (String.length (PyStr.take n s) <= String.length s)%nat.
Proof.
  revert s. induction n as [|n IH]; intros [|c s]; simpl; try lia.
  destruct (IH s). lia.
Qed.

Lemma take_all (n : nat) (s : string) :
  (String.length s <= n)%nat -> PyStr.take n s = s.
Proof.
  revert s. induction n as [|n IH]; intros [|c s]; simpl; intros Hle;
    try reflexivity; try lia.
  rewrite IH by lia. reflexivity.
Qed.

Lemma length_drop (n : nat) (s : string) :
  String.length (PyStr.drop n s) = (String.length s - n)%nat.
Proof. revert s. induction n as [|n IH]; intros [|c s]; simpl; auto. Qed.

Lemma length_slice_le (a b : nat) (s : string) :
  (String.length (PyStr.slice a b s) <= b - a)%nat.
Proof. unfold PyStr.slice. apply length_take_le. Qed.

Lemma length_lstrip_le (p : ascii -> bool) (s : string) :
  (String.length (PyStr.lstrip p s) <= String.length s)%nat.
Proof.
  induction s as [|c s IH]; simpl; [lia|]. destruct (p c); simpl; lia.
Qed.

Lemma length_rstrip_le (p : ascii -> bool) (s : string) :
  (String.length (PyStr.rstrip p s) <= String.length s)%nat.
Proof.
  induction s as [|c s IH]; simpl; [lia|].
  destruct (PyStr.rstrip p s); [destruct (p c)|]; simpl in *; lia.
Qed.

Lemma length_strip_le (p : ascii -> bool) (s : string) :
  (String.length (PyStr.strip p s) <= String.length s)%nat.
Proof.
  unfold PyStr.strip. etransitivity; [apply length_rstrip_le | apply length_lstrip_le].
Qed.

End StringLengths.

Section SnippetFacts.
Import re content_parser.

(** The context of a match: the match and at most a hundred characters on
    each side, and the two marks. *)
Lemma get_context_length (content : string) (start end_ : nat) :
  (start <= end_)%nat ->
  (String.length (_get_context content start end_) <= end_ - start + 206)%nat.
Proof.
  intros Hle. unfold _get_context. cbv zeta.
  etransitivity; [apply length_strip_le|].
  pose proof (length_slice_le (start - 100)
                (Nat.min (String.length content) (end_ + 100)) content) as Hs.
  destruct (0 <? start - 100)%nat eqn:H0;
    destruct (Nat.min (String.length content) (end_ + 100) <? String.length content)%nat;
    rewrite ?string_length_app; cbn [String.length];
    try apply Nat.ltb_lt in H0; try apply Nat.ltb_ge in H0; lia.
Qed.

(** X6.  A content snippet has at most 506 characters: a window of 500 and
    the two marks of three.  Without keyword match, a text of at most 500
    characters is its own snippet. *)
Theorem create_snippet_length (content : string) (kms : list KeywordMatch) :
  (String.length (_create_snippet content kms) <= 506)%nat
  /\ ((String.length content <= 500)%nat -> _create_snippet content nil = content).
Proof.
  split.
  - unfold _create_snippet. cbv zeta. destruct kms as [|km kms].
    + rewrite string_length_app.
      destruct (length_take_le 500 content).
      destruct (500 <? String.length content)%nat; cbn [String.length]; lia.
    + etransitivity; [apply length_strip_le|].
      set (start := (position km - 500 / 2)%nat).
      pose proof (length_slice_le start
                    (Nat.min (String.length content) (start + 500)) content) as Hs.
      destruct (0 <? start)%nat;
        destruct (Nat.min (String.length content) (start + 500) <? String.length content)%nat;
        rewrite ?string_length_app; cbn [String.length]; lia.
  - intros Hle. unfold _create_snippet. cbv zeta.
    assert ((500 <? String.length content)%nat = false) as ->
      by (apply Nat.ltb_ge; exact Hle).
    rewrite take_all by exact Hle. apply app_empty_r.
Qed.

(** ** Matches of any keyword *)

Lemma match_here_keyword_at (kw content : string) (st st' : mstate) :
  at_pos content st ->
  match_here (keyword_pattern kw) st = Some st' ->
  at_pos content st'
  /\ pos st' = (pos st + String.length kw)%nat
  /\ exists pre mid post,
      content = pre +:+ mid +:+ post
      /\ String.length pre = pos st
      /\ PyStr.lower mid = PyStr.lower kw.
Proof.
  intros (pre & Hc & Hlen & Hprev). rewrite match_here_keyword.
  destruct (at_boundary st); [|discriminate].
  destruct (strip_ci kw (prev st) (rest st)) as [[p r]|] eqn:Hs; [|discriminate].
  cbv zeta. destruct (at_boundary (mkState p r _ None)); [|discriminate].
  intros [= <-]. cbn [pos rest prev].
  destruct (strip_ci_sound _ _ _ _ _ Hs) as (mid & Hrest & Hlow & ->).
  split; [|split; [reflexivity|]].
  - exists (pre +:+ mid). cbn [rest pos prev].
    rewrite string_app_assoc, <- Hrest, string_length_app, last_char_app,
      (lower_length _ _ Hlow), Hprev.
    auto.
  - exists pre, mid, r. rewrite <- Hrest. auto.
Qed.

Lemma scan_keyword_sound (kw content : string) (fuel : nat) (st : mstate) :
  at_pos content st ->
  Forall (fun mt =>
            m_end mt = (m_start mt + String.length kw)%nat
            /\ exists pre mid post,
                content = pre +:+ mid +:+ post
                /\ String.length pre = m_start mt
                /\ PyStr.lower mid = PyStr.lower kw)
    (scan (keyword_pattern kw) fuel st).
Proof.
  revert st. induction fuel as [|fuel IH]; intros st Hat; cbn [scan]; [constructor|].
  assert (forall st1, advance st = Some st1 -> at_pos content st1) as Hadv.
  { intros st1 H1. destruct Hat as (pre & Hc & Hlen & Hprev). unfold advance in H1.
    destruct (rest st) as [|c s'] eqn:Hrest; [discriminate|]. injection H1 as <-.
    exists (pre +:+ String c ""). cbn [rest pos prev].
    rewrite string_app_assoc, app_cons, app_empty_l, string_length_app, last_char_app.
    simpl. split; [exact Hc|]. split; [lia|reflexivity]. }
  destruct (match_here (keyword_pattern kw) st) as [st'|] eqn:Hm.
  - destruct (match_here_keyword_at _ _ _ _ Hat Hm) as (Hat' & Hpos & Hocc).
    constructor; [cbn [m_start m_end]; auto|].
    destruct (pos st <? pos st')%nat; [apply IH, Hat'|].
    destruct (advance st) as [st1|] eqn:H1; [apply IH, Hadv; reflexivity | constructor].
  - destruct (advance st) as [st1|] eqn:H1; [apply IH, Hadv; reflexivity | constructor].
Qed.

(** X7.  On ASCII text and for ASCII keywords, every keyword match that
    is reported is real and has a bounded context: its keyword is one of
    the keywords, the text at its offset is the keyword up to the case of
    the letters, it lies inside the text, and its context is at most 206
    characters longer than the keyword. *)
Theorem keyword_matches_sound (keywords : list string) (content : string) :
  Forall (fun kw => isascii kw = true) keywords ->
  isascii content = true ->
  Forall (fun km =>
            keyword km ∈ keywords
            /\ (exists pre mid post,
                   content = pre +:+ mid +:+ post
                   /\ String.length pre = position km
                   /\ PyStr.lower mid = PyStr.lower (keyword km))
            /\ (position km + String.length (keyword km) <= String.length content)%nat
            /\ (String.length (context km) <= String.length (keyword km) + 206)%nat)
    (_find_keyword_matches keywords content).
Proof.
  intros _ _.
  apply Forall_forall. intros km (kw & Hkw & Hkm)%find_keyword_matches_elem.
  unfold matches_of_keyword in Hkm.
  apply list_elem_of_fmap in Hkm as (mt & -> & Hmt). cbn [keyword position context].
  pose proof (scan_keyword_sound kw content (S (String.length content))
                (start_state content)) as Hall.
  rewrite Forall_forall in Hall.
  destruct (Hall ltac:(exists ""; auto) mt Hmt) as (Hend & pre & mid & post & Hc & Hlen & Hlow).
  split; [exact Hkw|]. split; [exists pre, mid, post; auto|]. split.
  - rewrite Hc, !string_length_app, Hlen, (lower_length _ _ Hlow). lia.
  - rewrite Hend.
    pose proof (get_context_length content (m_start mt)
                  (m_start mt + String.length kw) ltac:(lia)).
    lia.
Qed.

Lemma keyword_matches_sound_witness :
  Forall (fun kw => isascii kw = true) ("bitcoin" :: "wallet" :: nil)
  /\ isascii "A Bitcoin WALLET, a wallet for bitcoin" = true
  /\ Forall (fun km =>
               keyword km ∈ "bitcoin" :: "wallet" :: nil
               /\ (exists pre mid post,
                      "A Bitcoin WALLET, a wallet for bitcoin"%string
                      = pre +:+ mid +:+ post
                      /\ String.length pre = position km
                      /\ PyStr.lower mid = PyStr.lower (keyword km))
               /\ (position km + String.length (keyword km)
                   <= String.length "A Bitcoin WALLET, a wallet for bitcoin")%nat
               /\ (String.length (context km)
                   <= String.length (keyword km) + 206)%nat)
       (_find_keyword_matches ("bitcoin" :: "wallet" :: nil)
          "A Bitcoin WALLET, a wallet for bitcoin").
Proof.
  assert (Forall (fun kw => isascii kw = true) ("bitcoin" :: "wallet" :: nil)) as Hkw.
  { repeat (apply Forall_cons; split; [reflexivity|]). constructor. }
  split; [exact Hkw|]. split; [reflexivity|].
  exact (keyword_matches_sound ("bitcoin" :: "wallet" :: nil)
           "A Bitcoin WALLET, a wallet for bitcoin" Hkw eq_refl).
Defined.

(** ** The case of the text *)

Lemma lower_char_idem (c : ascii) :
  PyStr.lower_char (PyStr.lower_char c) = PyStr.lower_char c.
Proof. destruct c as [[] [] [] [] [] [] [] []]; reflexivity. Qed.

Lemma at_boundary_lower (st : mstate) :
  at_boundary (lower_state st) = at_boundary st.
Proof.
  rewrite !at_boundary_chars. unfold lower_state. cbn [prev rest].
  f_equal.
  - destruct (prev st); simpl; [apply is_word_lower | reflexivity].
  - destruct (rest st); simpl; [reflexivity | apply is_word_lower].
Qed.

Lemma strip_ci_lower (kw : string) (p : option ascii) (s : string) :
  strip_ci kw (option_map PyStr.lower_char p) (PyStr.lower s)
  = option_map (fun '(q, r) => (option_map PyStr.lower_char q, PyStr.lower r))
      (strip_ci kw p s).
Proof.
  revert p s. induction kw as [|c kw IH]; intros p s; [reflexivity|].
  destruct s as [|d s]; [reflexivity|]. cbn [strip_ci PyStr.lower PyStr.map_chars].
  rewrite lower_char_idem. destruct (Ascii.eqb _ _); [|reflexivity].
  apply (IH (Some d) s).
Qed.

Lemma match_here_lower (kw : string) (st : mstate) :
  match_here (keyword_pattern kw) (lower_state st)
  = option_map lower_state (match_here (keyword_pattern kw) st).
Proof.
  rewrite !match_here_keyword, at_boundary_lower.
  destruct (at_boundary st); [|reflexivity].
  change (prev (lower_state st)) with (option_map PyStr.lower_char (prev st)).
  change (rest (lower_state st)) with (PyStr.lower (rest st)).
  change (pos (lower_state st)) with (pos st).
  rewrite strip_ci_lower.
  destruct (strip_ci kw (prev st) (rest st)) as [[q r]|]; [|reflexivity].
  cbn [option_map]. cbv zeta.
  pose proof (at_boundary_lower (mkState q r (pos st + String.length kw) None)) as Hb.
  unfold lower_state in Hb at 1. cbn [prev rest pos grp] in Hb. rewrite Hb. clear Hb.
  destruct (at_boundary _); reflexivity.
Qed.

Lemma advance_lower (st : mstate) :
  advance (lower_state st) = option_map lower_state (advance st).
Proof. unfold advance, lower_state. cbn [rest]. destruct (rest st); reflexivity. Qed.

Lemma scan_lower (kw : string) (fuel : nat) (st : mstate) :
  scan (keyword_pattern kw) fuel (lower_state st)
  = scan (keyword_pattern kw) fuel st.
Proof.
  revert st. induction fuel as [|fuel IH]; intros st; cbn [scan]; [reflexivity|].
  rewrite match_here_lower, advance_lower.
  destruct (match_here (keyword_pattern kw) st) as [st'|]; cbn [option_map].
  - change (pos (lower_state st)) with (pos st).
    change (pos (lower_state st')) with (pos st').
    change (grp (lower_state st')) with (grp st'). f_equal.
    destruct (pos st <? pos st')%nat; [apply IH|].
    destruct (advance st); cbn [option_map]; [apply IH | reflexivity].
  - destruct (advance st); cbn [option_map]; [apply IH | reflexivity].
Qed.

(** X8.  Lower-casing the text, as [parse_content] does before it looks
    for keywords, changes no match: the same keywords are found at the same
    offsets as in the text itself, so the offsets point into the original
    text. *)
Theorem keyword_matches_ignore_text_case (keywords : list string) (content : string) :
  map (fun km => (keyword km, position km))
    (_find_keyword_matches keywords (PyStr.lower content))
  = map (fun km => (keyword km, position km))
      (_find_keyword_matches keywords content).
Proof.
  unfold _find_keyword_matches.
  induction keywords as [|kw kws IH]; [reflexivity|].
  cbn [flat_map]. rewrite !map_app, IH. f_equal.
  unfold matches_of_keyword. rewrite !map_map. cbn [keyword position].
  unfold finditer. unfold PyStr.lower at 1. rewrite length_map_chars.
  change (start_state (PyStr.lower content))
    with (lower_state (start_state content)).
  rewrite scan_lower. reflexivity.
Qed.

End SnippetFacts.

(* ===================================================================== *)
(** * The seed file on a small web *)
(* ===================================================================== *)

Section SeedFileExamples.
Import urllib tor_crawler.
#[local] Existing Instance cpython.
#[local] Existing Instance toy.web.

Lemma crawl_urls_from_file_ignores_line_witness :
  PyStr.startswith "#" (PyStr.strip PyStr.is_space "  # seeds") = true
  /\ crawl_urls_from_file toy.config 20 toy.start
       (Some (toy.home :: "  # seeds" :: toy.elsewhere :: nil))
     = crawl_urls_from_file toy.config 20 toy.start
         (Some (toy.home :: toy.elsewhere :: nil)).
Proof.
  split; [reflexivity|].
  apply (crawl_urls_from_file_ignores_line toy.config 20%nat toy.start
           (toy.home :: nil) (toy.elsewhere :: nil) "  # seeds").
  right. left. reflexivity.
Defined.

End SeedFileExamples.

(* ===================================================================== *)
(** * The entity map *)
(* ===================================================================== *)

Section EntityFacts.
Import re content_parser.

Lemma lookup_kind_elem (kind : string) (e : EntityMap) (values : list string) :
  lookup_kind kind e = Some values -> (kind, values) ∈ e.
Proof.
  induction e as [|[k v] e IH]; cbn [lookup_kind]; [discriminate|].
  destruct (String.eqb k kind) eqn:Hk.
  - apply String.eqb_eq in Hk as ->. intros [= ->]. left.
  - intros Hl. right. apply IH, Hl.
Qed.

Lemma lookup_kind_none (kind : string) (e : EntityMap) (values : list string) :
  lookup_kind kind e = None -> (kind, values) ∈ e -> False.
Proof.
  induction e as [|[k v] e IH]; cbn [lookup_kind]; [intros _ Hin; inversion Hin|].
  destruct (String.eqb k kind) eqn:Hk; [discriminate|].
  intros Hl [Heq | Hin]%elem_of_cons; [|exact (IH Hl Hin)].
  injection Heq as -> ->. rewrite String.eqb_refl in Hk. discriminate.
Qed.

Lemma all_entities_ip (content : string) :
  ("ip_addresses",
   filter (fun ip => _is_valid_ip ip = true) (findall ip_pattern content))
  ∈ all_entities content.
Proof. unfold all_entities. cbv zeta. do 6 right. left. Qed.

Lemma all_entities_cc (content : string) :
  ("credit_cards",
   filter (fun cc => _is_valid_cc_format cc = true) (findall cc_pattern content))
  ∈ all_entities content.
Proof. unfold all_entities. cbv zeta. do 5 right. left. Qed.

Lemma all_entities_kinds (content : string) :
  map fst (all_entities content) = entity_kinds.
Proof. reflexivity. Qed.

Lemma extract_entities_elem (content kind : string) (values : list string) :
  (kind, values) ∈ _extract_entities content ->
  values <> nil
  /\ (kind = "credit_cards" ->
      values = filter (fun cc => _is_valid_cc_format cc = true)
                 (findall cc_pattern content))
  /\ (kind = "ip_addresses" ->
      values = filter (fun ip => _is_valid_ip ip = true)
                 (findall ip_pattern content))
  /\ (kind <> "credit_cards" -> kind <> "ip_addresses" -> NoDup values).
Proof.
  intros Hin. split; [eapply extract_entities_nonempty, Hin|].
  split; [|split; [|eapply extract_entities_dedup, Hin]].
  - unfold _extract_entities, remove_empty in Hin.
    apply list_elem_of_filter in Hin as [_ Hin]. unfold all_entities in Hin.
    cbv zeta in Hin. rewrite !elem_of_cons in Hin.
    destruct Hin as [Hin|[Hin|[Hin|[Hin|[Hin|[Hin|[Hin|[Hin|[Hin|[Hin|[Hin|Hin]]]]]]]]]]];
      try (injection Hin as -> ->; intros Hk; first [discriminate Hk | reflexivity]).
    inversion Hin.
  - unfold _extract_entities, remove_empty in Hin.
    apply list_elem_of_filter in Hin as [_ Hin]. unfold all_entities in Hin.
    cbv zeta in Hin. rewrite !elem_of_cons in Hin.
    destruct Hin as [Hin|[Hin|[Hin|[Hin|[Hin|[Hin|[Hin|[Hin|[Hin|[Hin|[Hin|Hin]]]]]]]]]]];
      try (injection Hin as -> ->; intros Hk; first [discriminate Hk | reflexivity]).
    inversion Hin.
Qed.

(** X9.  The entity map of a text lists kinds of the eleven known ones
    only, each at most once and in the order of the dict; no kind has an
    empty list; and apart from credit cards and IP addresses no kind lists
    a value twice. *)
Theorem extract_entities_shape (content : string) :
  map fst (_extract_entities content) `sublist_of` entity_kinds
  /\ NoDup (map fst (_extract_entities content))
  /\ Forall (fun kv =>
               snd kv <> nil
               /\ (fst kv <> "credit_cards" -> fst kv <> "ip_addresses" ->
                   NoDup (snd kv)))
       (_extract_entities content).
Proof.
  assert (map fst (_extract_entities content) `sublist_of` entity_kinds) as Hsub.
  { rewrite <- (all_entities_kinds content).
    unfold _extract_entities, remove_empty.
    apply (fmap_sublist fst), sublist_filter. }
  split; [exact Hsub|]. split.
  - eapply sublist_NoDup; [|exact Hsub].
    refine (bool_decide_unpack _ _). vm_compute. exact I.
  - apply Forall_forall. intros [kind values] Hin. cbn [fst snd].
    destruct (extract_entities_elem _ _ _ Hin) as (Hne & _ & _ & Hnd). auto.
Qed.

(** ** The two checks *)

Lemma is_digit_value (c : ascii) :
  PyStr.is_digit c = true -> 0 <= Z.of_nat (nat_of_ascii c) - 48 <= 9.
Proof.
  unfold PyStr.is_digit. cbv zeta.
  intros [H1%Nat.leb_le H2%Nat.leb_le]%andb_true_iff. lia.
Qed.

Lemma int_digits_spec (s : string) (acc : Z) :
  int_digits acc s
  = if PyStr.all_chars PyStr.is_digit s
    then Some (fold_left (fun acc c => 10 * acc + (Z.of_nat (nat_of_ascii c) - 48))
                 (list_ascii_of_string s) acc)
    else None.
Proof.
  revert acc. induction s as [|c s IH]; intros acc; [reflexivity|].
  cbn [int_digits PyStr.all_chars list_ascii_of_string fold_left].
  destruct (PyStr.is_digit c); [apply IH | reflexivity].
Qed.

Lemma fold_digits_nonneg (s : string) (acc : Z) :
  PyStr.all_chars PyStr.is_digit s = true -> 0 <= acc ->
  0 <= fold_left (fun acc c => 10 * acc + (Z.of_nat (nat_of_ascii c) - 48))
         (list_ascii_of_string s) acc.
Proof.
  revert acc. induction s as [|c s IH]; intros acc; cbn; [auto|].
  intros [Hc Hs]%andb_true_iff Hacc. apply IH; [exact Hs|].
  pose proof (is_digit_value c Hc). lia.
Qed.

Lemma int_spec (s : string) (n : Z) :
  int s = Some n <->
  s <> "" /\ PyStr.all_chars PyStr.is_digit s = true /\ n = decimal s.
Proof.
  unfold int, decimal. destruct s as [|c s].
  - split; [discriminate | intros [[] _]; reflexivity].
  - rewrite int_digits_spec. destruct (PyStr.all_chars _ _); split.
    + intros [= <-]. auto.
    + intros (_ & _ & ->). reflexivity.
    + discriminate.
    + intros (_ & [=] & _).
Qed.

Lemma octet_ok (part : string) :
  match int part with
  | Some num => negb ((0 <=? num) && (num <=? 255)) = false
  | None => False
  end <-> is_octet part.
Proof.
  unfold is_octet. destruct (int part) as [num|] eqn:Hint.
  - apply int_spec in Hint as (Hne & Hd & ->).
    rewrite negb_false_iff, andb_true_iff, Z.leb_le, Z.leb_le.
    pose proof (fold_digits_nonneg part 0 Hd ltac:(lia)) as H0.
    fold (decimal part) in H0. tauto.
  - split; [contradiction|]. intros (Hne & Hd & _).
    assert (int part = Some (decimal part)) as Habs by (apply int_spec; auto).
    congruence.
Qed.

Lemma octets_ok_spec (parts : list string) :
  octets_ok parts = true <-> Forall is_octet parts.
Proof.
  induction parts as [|part parts IH]; cbn [octets_ok].
  - split; [constructor | reflexivity].
  - rewrite Forall_cons, <- IH, <- octet_ok.
    destruct (int part) as [num|]; [|split; [discriminate | tauto]].
    destruct (negb _); split; try tauto; try discriminate.
    intros [[=] _].
Qed.

Lemma split_dot_nonnil (s : string) : split_dot s <> nil.
Proof.
  induction s as [|c s IH]; cbn [split_dot]; [discriminate|].
  destruct (Ascii.eqb c "."); [discriminate|].
  destruct (split_dot s); discriminate.
Qed.

Lemma join_dot_cons (p : string) (ps : list string) :
  ps <> nil -> join_dot (p :: ps) = p +:+ "." +:+ join_dot ps.
Proof. destruct ps; [congruence | reflexivity]. Qed.

Lemma split_dot_join (s : string) : join_dot (split_dot s) = s.
Proof.
  induction s as [|c s IH]; cbn [split_dot]; [reflexivity|].
  pose proof (split_dot_nonnil s) as Hne.
  destruct (Ascii.eqb c ".") eqn:Hc.
  - apply Ascii.eqb_eq in Hc as ->.
    rewrite join_dot_cons, IH by exact Hne. reflexivity.
  - destruct (split_dot s) as [|p ps]; [congruence|].
    destruct ps as [|q ps]; cbn [join_dot] in *; [congruence|].
    rewrite app_cons, IH. reflexivity.
Qed.

Lemma split_dot_digits (a : string) :
  PyStr.all_chars PyStr.is_digit a = true -> split_dot a = a :: nil.
Proof.
  induction a as [|c a IH]; cbn [split_dot PyStr.all_chars]; [reflexivity|].
  intros [Hc Ha]%andb_true_iff. rewrite (IH Ha).
  destruct (Ascii.eqb c ".") eqn:Hdot; [|reflexivity].
  apply Ascii.eqb_eq in Hdot as ->. discriminate Hc.
Qed.

Lemma split_dot_app (a r : string) :
  PyStr.all_chars PyStr.is_digit a = true ->
  split_dot (a +:+ "." +:+ r) = a :: split_dot r.
Proof.
  induction a as [|c a IH]; cbn [PyStr.all_chars].
  - intros _. rewrite app_empty_l, app_cons. cbn [split_dot]. reflexivity.
  - intros [Hc Ha]%andb_true_iff. rewrite app_cons. cbn [split_dot].
    rewrite (IH Ha).
    destruct (Ascii.eqb c ".") eqn:Hdot; [|reflexivity].
    apply Ascii.eqb_eq in Hdot as ->. discriminate Hc.
Qed.

Lemma is_valid_ip_spec (ip : string) : _is_valid_ip ip = true <-> dotted_quad ip.
Proof.
  unfold _is_valid_ip. cbv zeta. split.
  - destruct (length (split_dot ip) =? 4)%nat eqn:Hlen; [|discriminate].
    cbn [negb]. intros Hok%octets_ok_spec.
    pose proof (split_dot_join ip) as Hjoin.
    destruct (split_dot ip) as [|a [|b [|c [|d [|e parts]]]]]; try discriminate Hlen.
    apply Forall_cons in Hok as [Ha Hok]. apply Forall_cons in Hok as [Hb Hok].
    apply Forall_cons in Hok as [Hc Hok]. apply Forall_cons in Hok as [Hd _].
    exists a, b, c, d. cbn [join_dot] in Hjoin. auto.
  - intros (a & b & c & d & -> & Ha & Hb & Hc & Hd).
    pose proof Ha as (_ & Hda & _). pose proof Hb as (_ & Hdb & _).
    pose proof Hc as (_ & Hdc & _). pose proof Hd as (_ & Hdd & _).
    rewrite !split_dot_app, split_dot_digits by assumption.
    cbn [length Nat.eqb negb]. apply octets_ok_spec.
    repeat (apply Forall_cons; split; [assumption|]). constructor.
Qed.

Lemma all_chars_filter (p q : ascii -> bool) (s : string) :
  PyStr.all_chars p (PyStr.filter_chars q s)
  = PyStr.all_chars (fun c => negb (q c) || p c) s.
Proof.
  induction s as [|c s IH]; cbn [PyStr.filter_chars PyStr.all_chars]; [reflexivity|].
  destruct (q c); cbn [PyStr.all_chars negb orb]; rewrite IH; reflexivity.
Qed.

Lemma all_chars_ext (p q : ascii -> bool) (s : string) :
  (forall c, p c = q c) -> PyStr.all_chars p s = PyStr.all_chars q s.
Proof.
  intros Hpq. induction s as [|c s IH]; cbn [PyStr.all_chars]; [reflexivity|].
  rewrite Hpq, IH. reflexivity.
Qed.

Lemma filter_chars_agree (p q : ascii -> bool) (s : string) :
  PyStr.all_chars (fun c => Bool.eqb (p c) (q c)) s = true ->
  PyStr.filter_chars p s = PyStr.filter_chars q s.
Proof.
  induction s as [|c s IH]; cbn [PyStr.filter_chars PyStr.all_chars]; [reflexivity|].
  intros [Hc Hs]%andb_true_iff. apply eqb_prop in Hc. rewrite Hc, (IH Hs). reflexivity.
Qed.

Lemma digit_not_separator (c : ascii) :
  PyStr.is_digit c = true -> Ascii.eqb c "-" || PyStr.is_space c = false.
Proof. destruct c as [[] [] [] [] [] [] [] []]; vm_compute; congruence. Qed.

Lemma is_valid_cc_format_spec (cc : string) :
  _is_valid_cc_format cc = true <-> card_number cc.
Proof.
  unfold _is_valid_cc_format, card_number. cbv zeta.
  remember (PyStr.filter_chars
              (fun c => negb (Ascii.eqb c "-" || PyStr.is_space c)) cc) as clean eqn:Hcl.
  assert (PyStr.all_chars PyStr.is_digit clean
          = PyStr.all_chars
              (fun c => PyStr.is_digit c || Ascii.eqb c "-" || PyStr.is_space c) cc)
    as Hall.
  { rewrite Hcl, all_chars_filter. apply all_chars_ext. intros c.
    rewrite negb_involutive.
    destruct (PyStr.is_digit c), (Ascii.eqb c "-"), (PyStr.is_space c); reflexivity. }
  assert (PyStr.all_chars PyStr.is_digit clean = true ->
          clean = PyStr.filter_chars PyStr.is_digit cc) as Hclean.
  { rewrite Hall, Hcl. intros Hcc. apply filter_chars_agree.
    clear -Hcc. induction cc as [|c cc IH]; cbn [PyStr.all_chars] in *; [reflexivity|].
    apply andb_true_iff in Hcc as [Hc Hcc]. rewrite (IH Hcc), andb_true_r.
    destruct (PyStr.is_digit c) eqn:Hd.
    - rewrite (digit_not_separator c Hd). reflexivity.
    - cbn [orb] in Hc. rewrite Hc. reflexivity. }
  rewrite <- Hall. clear Hall Hcl. unfold isdigit. split.
  - intros Hv. destruct clean as [|c clean']; [discriminate Hv|].
    destruct (PyStr.all_chars PyStr.is_digit (String c clean')) eqn:Hd;
      [|discriminate Hv].
    cbn [negb] in Hv. rewrite <- (Hclean eq_refl).
    apply andb_true_iff in Hv as [H1%Nat.leb_le H2%Nat.leb_le]. auto.
  - intros [Hd Hlen]. rewrite <- (Hclean Hd) in Hlen.
    destruct clean as [|c clean']; [cbn in Hlen; lia|].
    rewrite Hd. cbn [negb]. apply andb_true_iff. split; apply Nat.leb_le; lia.
Qed.

(** X10.  The IP addresses of an entity map are dotted quads, four numbers
    of digits from 0 to 255, and its credit-card numbers have 13 to 19
    digits and otherwise hyphens and blanks only; what the two patterns
    find is listed exactly when it is of that form, in the order and with
    the repetitions of the text. *)
Theorem extract_entities_checked (content : string) :
  Forall dotted_quad (values_of "ip_addresses" (_extract_entities content))
  /\ Forall card_number (values_of "credit_cards" (_extract_entities content))
  /\ (forall ip, ip ∈ values_of "ip_addresses" (_extract_entities content)
                 <-> ip ∈ findall ip_pattern content /\ dotted_quad ip)
  /\ (forall cc, cc ∈ values_of "credit_cards" (_extract_entities content)
                 <-> cc ∈ findall cc_pattern content /\ card_number cc).
Proof.
  assert (values_of "ip_addresses" (_extract_entities content)
          = filter (fun ip => _is_valid_ip ip = true) (findall ip_pattern content))
    as Hip.
  { unfold values_of.
    destruct (lookup_kind "ip_addresses" (_extract_entities content)) as [values|] eqn:Hl.
    - apply lookup_kind_elem, extract_entities_elem in Hl as (_ & _ & Hv & _). auto.
    - destruct (filter (fun ip => _is_valid_ip ip = true) (findall ip_pattern content))
        as [|v values] eqn:Hv; [reflexivity|].
      exfalso. eapply lookup_kind_none; [exact Hl|].
      apply list_elem_of_filter. split; [|apply all_entities_ip].
      rewrite Hv. reflexivity. }
  assert (values_of "credit_cards" (_extract_entities content)
          = filter (fun cc => _is_valid_cc_format cc = true) (findall cc_pattern content))
    as Hcc.
  { unfold values_of.
    destruct (lookup_kind "credit_cards" (_extract_entities content)) as [values|] eqn:Hl.
    - apply lookup_kind_elem, extract_entities_elem in Hl as (_ & Hv & _ & _). auto.
    - destruct (filter (fun cc => _is_valid_cc_format cc = true)
                  (findall cc_pattern content)) as [|v values] eqn:Hv; [reflexivity|].
      exfalso. eapply lookup_kind_none; [exact Hl|].
      apply list_elem_of_filter. split; [|apply all_entities_cc].
      rewrite Hv. reflexivity. }
  rewrite Hip, Hcc. clear Hip Hcc.
  assert (forall ip, ip ∈ filter (fun ip => _is_valid_ip ip = true)
                          (findall ip_pattern content)
                     <-> ip ∈ findall ip_pattern content /\ dotted_quad ip) as Hip.
  { intros ip. rewrite list_elem_of_filter, is_valid_ip_spec. tauto. }
  assert (forall cc, cc ∈ filter (fun cc => _is_valid_cc_format cc = true)
                          (findall cc_pattern content)
                     <-> cc ∈ findall cc_pattern content /\ card_number cc) as Hcc.
  { intros cc. rewrite list_elem_of_filter, is_valid_cc_format_spec. tauto. }
  split; [|split; [|split; [exact Hip | exact Hcc]]].
  - apply Forall_forall. intros ip Hin. apply Hip, Hin.
  - apply Forall_forall. intros cc Hin. apply Hcc, Hin.
Qed.

End EntityFacts.

(* ===================================================================== *)
(** * Word files *)
(* ===================================================================== *)

Section StripFacts.
Variable p : ascii -> bool.

Lemma lstrip_idem (s : string) : PyStr.lstrip p (PyStr.lstrip p s) = PyStr.lstrip p s.
Proof.
  induction s as [|c s IH]; cbn [PyStr.lstrip]; [reflexivity|].
  destruct (p c) eqn:Hc; [exact IH|]. cbn [PyStr.lstrip]. rewrite Hc. reflexivity.
Qed.

Lemma rstrip_idem (s : string) : PyStr.rstrip p (PyStr.rstrip p s) = PyStr.rstrip p s.
Proof.
  induction s as [|c s IH]; cbn [PyStr.rstrip]; [reflexivity|].
  destruct (PyStr.rstrip p s) as [|d r] eqn:Hr.
  - destruct (p c) eqn:Hc; cbn [PyStr.rstrip]; [reflexivity|]. rewrite Hc. reflexivity.
  - cbn [PyStr.rstrip]. cbn [PyStr.rstrip] in IH. rewrite IH. reflexivity.
Qed.

Lemma rstrip_keeps_first (c : ascii) (s : string) :
  p c = false -> exists r, PyStr.rstrip p (String c s) = String c r.
Proof.
  intros Hc. cbn [PyStr.rstrip]. destruct (PyStr.rstrip p s); [|eauto].
  rewrite Hc. eauto.
Qed.

Lemma lstrip_rstrip (s : string) :
  PyStr.lstrip p (PyStr.rstrip p s) = PyStr.rstrip p (PyStr.lstrip p s).
Proof.
  induction s as [|c s IH]; [reflexivity|].
  destruct (p c) eqn:Hc.
  - cbn [PyStr.lstrip PyStr.rstrip]. rewrite Hc, <- IH.
    destruct (PyStr.rstrip p s) as [|d r]; [reflexivity|].
    cbn [PyStr.lstrip]. rewrite Hc. reflexivity.
  - cbn [PyStr.lstrip]. rewrite Hc.
    destruct (rstrip_keeps_first c s Hc) as [r ->].
    cbn [PyStr.lstrip]. rewrite Hc. reflexivity.
Qed.

Lemma strip_idem (s : string) : PyStr.strip p (PyStr.strip p s) = PyStr.strip p s.
Proof.
  unfold PyStr.strip. rewrite lstrip_rstrip, rstrip_idem, lstrip_idem.
  reflexivity.
Qed.

Variable f : ascii -> ascii.
Hypothesis p_f : forall c, p (f c) = p c.

Lemma lstrip_map_chars (s : string) :
  PyStr.lstrip p (PyStr.map_chars f s) = PyStr.map_chars f (PyStr.lstrip p s).
Proof.
  induction s as [|c s IH]; cbn [PyStr.lstrip PyStr.map_chars]; [reflexivity|].
  rewrite p_f. destruct (p c); [exact IH | reflexivity].
Qed.

Lemma rstrip_map_chars (s : string) :
  PyStr.rstrip p (PyStr.map_chars f s) = PyStr.map_chars f (PyStr.rstrip p s).
Proof.
  induction s as [|c s IH]; cbn [PyStr.rstrip PyStr.map_chars]; [reflexivity|].
  rewrite IH, p_f.
  destruct (PyStr.rstrip p s) as [|d r]; cbn [PyStr.map_chars]; [|reflexivity].
  destruct (p c); reflexivity.
Qed.

Lemma strip_map_chars (s : string) :
  PyStr.strip p (PyStr.map_chars f s) = PyStr.map_chars f (PyStr.strip p s).
Proof. unfold PyStr.strip. rewrite lstrip_map_chars, rstrip_map_chars. reflexivity. Qed.

End StripFacts.

Section WordFiles.
Import content_parser utils_text.

Lemma is_space_lower (c : ascii) : PyStr.is_space (PyStr.lower_char c) = PyStr.is_space c.
Proof. destruct c as [[] [] [] [] [] [] [] []]; reflexivity. Qed.

Lemma lower_idem (s : string) : PyStr.lower (PyStr.lower s) = PyStr.lower s.
Proof.
  unfold PyStr.lower. induction s as [|c s IH]; cbn [PyStr.map_chars]; [reflexivity|].
  rewrite lower_char_idem, IH. reflexivity.
Qed.

Lemma lower_hash (c : ascii) : PyStr.lower_char c = "#"%char -> c = "#"%char.
Proof.
  destruct c as [[] [] [] [] [] [] [] []]; vm_compute; intros Heq;
    first [reflexivity | discriminate Heq].
Qed.

Lemma startswith_hash_lower (s : string) :
  PyStr.startswith "#" (PyStr.lower s) = PyStr.startswith "#" s.
Proof.
  destruct s as [|c s]; [reflexivity|].
  unfold PyStr.startswith, PyStr.lower. cbn [PyStr.map_chars String.prefix].
  destruct (ascii_dec "#" (PyStr.lower_char c)) as [Heq | Hne];
    destruct (ascii_dec "#" c) as [Heq' | Hne'];
    try solve [reflexivity | destruct s; reflexivity]; exfalso.
  - symmetry in Heq. apply lower_hash in Heq. apply Hne'. symmetry. exact Heq.
  - subst c. apply Hne. reflexivity.
Qed.

Lemma word_lines_spec (comment_char : string) (lines : list string) (word : string) :
  word ∈ word_lines comment_char lines <->
  exists line, line ∈ lines
               /\ word = PyStr.strip PyStr.is_space line
               /\ word <> ""
               /\ PyStr.startswith comment_char word = false.
Proof.
  unfold word_lines. rewrite list_elem_of_filter, list_elem_of_fmap.
  rewrite andb_true_iff, !negb_true_iff, String.eqb_neq.
  split.
  - intros [[Hne Hc] (line & -> & Hin)]. eauto.
  - intros (line & Hin & -> & Hne & Hc). eauto.
Qed.

(** X11.  The keyword set holds every word once, and every word in it is
    not empty, in lower case, without blanks around it and not a comment.
    A word is in the set exactly when it is the stripped, lower-cased form
    of a line that is neither blank nor a comment.  A file that cannot be
    read gives no keyword, and then no text has a keyword match. *)
Theorem load_keywords_kept (file : option (list string)) :
  NoDup (_load_keywords file)
  /\ Forall (kept_word "#") (_load_keywords file)
  /\ (forall lines word,
         word ∈ _load_keywords (Some lines) <->
         exists line, line ∈ lines
                      /\ word = PyStr.lower (PyStr.strip PyStr.is_space line)
                      /\ PyStr.strip PyStr.is_space line <> ""
                      /\ PyStr.startswith "#" (PyStr.strip PyStr.is_space line) = false)
  /\ (forall content, _find_keyword_matches (_load_keywords None) content = nil).
Proof.
  assert (forall lines word,
             word ∈ _load_keywords (Some lines) <->
             exists line, line ∈ lines
                          /\ word = PyStr.lower (PyStr.strip PyStr.is_space line)
                          /\ PyStr.strip PyStr.is_space line <> ""
                          /\ PyStr.startswith "#" (PyStr.strip PyStr.is_space line) = false)
    as Hspec.
  { intros lines word. cbn [_load_keywords].
    rewrite list_set_elem, list_elem_of_fmap. split.
    - intros (w & -> & (line & Hin & -> & Hne & Hc)%word_lines_spec). eauto.
    - intros (line & Hin & -> & Hne & Hc). eexists. split; [reflexivity|].
      apply word_lines_spec. eauto. }
  split; [|split; [|split; [exact Hspec | reflexivity]]].
  - destruct file as [lines|]; [apply list_set_NoDup | constructor].
  - destruct file as [lines|]; [|constructor].
    apply Forall_forall. intros word (line & _ & -> & Hne & Hc)%Hspec.
    set (s := PyStr.strip PyStr.is_space line) in *.
    split; [|split; [apply lower_idem | split]].
    + destruct s; [congruence | discriminate].
    + unfold PyStr.lower. rewrite (strip_map_chars _ _ is_space_lower).
      unfold s. rewrite strip_idem. reflexivity.
    + rewrite startswith_hash_lower. exact Hc.
Qed.

(** X12.  The word list keeps the order and the repetitions of the file:
    it is the list of the stripped, lower-cased lines with some of them
    left out.  With the comment mark [#] its words are those of the
    keyword set.  With an empty comment mark every line counts as a
    comment and the list is empty; so it is for a file that does not
    exist. *)
Theorem load_wordlist_keeps_order (lines : list string) (comment_char : string) :
  load_wordlist (Some lines) comment_char
    `sublist_of` map (fun line => PyStr.lower (PyStr.strip PyStr.is_space line)) lines
  /\ (forall word, word ∈ load_wordlist (Some lines) "#"
                   <-> word ∈ _load_keywords (Some lines))
  /\ load_wordlist (Some lines) "" = nil
  /\ load_wordlist None comment_char = nil.
Proof.
  split; [|split; [|split; [|reflexivity]]].
  - cbn [load_wordlist].
    rewrite <- (map_map (PyStr.strip PyStr.is_space) PyStr.lower).
    apply (fmap_sublist PyStr.lower), sublist_filter.
  - intros word. cbn [load_wordlist _load_keywords]. rewrite list_set_elem.
    reflexivity.
  - cbn [load_wordlist].
    induction (map (PyStr.strip PyStr.is_space) lines) as [|line ls IH]; [reflexivity|].
    rewrite filter_cons_False; [exact IH|].
    unfold PyStr.startswith. destruct line; cbn; rewrite ?andb_false_r; discriminate.
Qed.

End WordFiles.

(* ===================================================================== *)
(** * Statistics *)
(* ===================================================================== *)

Section Tallies.
Import content_parser.

Lemma py_sum_from (xs : list Z) (a : Z) : fold_left Z.add xs a = a + py_sum xs.
Proof.
  unfold py_sum. revert a. induction xs as [|x xs IH]; intros a; cbn [fold_left].
  - lia.
  - rewrite (IH (a + x)), (IH (0 + x)). lia.
Qed.

Lemma py_sum_cons (x : Z) (xs : list Z) : py_sum (x :: xs) = x + py_sum xs.
Proof. unfold py_sum at 1. cbn [fold_left]. rewrite py_sum_from. lia. Qed.

Lemma py_sum_ones {A} (xs : list A) :
  py_sum (map (fun _ => 1) xs) = Z.of_nat (length xs).
Proof.
  induction xs as [|x xs IH]; [reflexivity|].
  cbn [map length]. rewrite py_sum_cons, IH. lia.
Qed.

Lemma py_sum_lengths {A B} (f : A -> list B) (xs : list A) :
  py_sum (map (fun x => Z.of_nat (length (f x))) xs)
  = Z.of_nat (length (flat_map f xs)).
Proof.
  induction xs as [|x xs IH]; [reflexivity|].
  cbn [map flat_map]. rewrite py_sum_cons, IH, length_app. lia.
Qed.

Lemma fold_left_flat_map {A B C} (f : A -> C -> A) (g : B -> list C)
    (xs : list B) (a : A) :
  fold_left (fun acc x => fold_left f (g x) acc) xs a
  = fold_left f (flat_map g xs) a.
Proof.
  revert a. induction xs as [|x xs IH]; intros a; [reflexivity|].
  cbn [fold_left flat_map]. rewrite fold_left_app. apply IH.
Qed.

Lemma map_total_empty : map_total ∅ = 0.
Proof. unfold map_total. apply map_fold_empty. Qed.

Lemma map_total_insert_fresh (tally : gmap string Z) (k : string) (v : Z) :
  tally !! k = None -> map_total (<[k := v]> tally) = v + map_total tally.
Proof.
  intros Hk. unfold map_total.
  apply (map_fold_insert_L (fun _ v acc => v + acc)); [|exact Hk].
  intros. lia.
Qed.

Lemma map_total_insert (tally : gmap string Z) (k : string) (v : Z) :
  map_total (<[k := v]> tally) = map_total tally - default 0 (tally !! k) + v.
Proof.
  destruct (tally !! k) as [v0|] eqn:Hk; cbn [from_option id].
  - assert (map_total tally = v0 + map_total (delete k tally)) as Ht.
    { rewrite <- (insert_delete_id tally k v0 Hk) at 1.
      apply map_total_insert_fresh, lookup_delete_eq. }
    rewrite <- (insert_delete_eq tally), map_total_insert_fresh
      by apply lookup_delete_eq.
    lia.
  - rewrite map_total_insert_fresh by exact Hk. lia.
Qed.

End Tallies.

Section KeywordTally.
Import content_parser.

Lemma count_keyword_lookup (freq : gmap string Z) (km : KeywordMatch) (kw : string) :
  count_keyword freq km !! kw
  = if decide (keyword km = kw)
    then Some (default 0 (freq !! kw) + 1)
    else freq !! kw.
Proof.
  unfold count_keyword. destruct (decide (keyword km = kw)) as [<- | Hne].
  - apply lookup_insert_eq.
  - apply lookup_insert_ne, Hne.
Qed.

Lemma tally_lookup (kms : list KeywordMatch) (freq : gmap string Z) (kw : string) :
  fold_left count_keyword kms freq !! kw
  = let n := Z.of_nat (length (filter (fun km => keyword km = kw) kms)) in
    if n =? 0 then freq !! kw else Some (default 0 (freq !! kw) + n).
Proof.
  revert freq. induction kms as [|km kms IH]; intros freq; [reflexivity|].
  cbn [fold_left]. rewrite IH, count_keyword_lookup, filter_cons. cbv zeta.
  destruct (decide (keyword km = kw)) as [Heq | Hne]; [|reflexivity].
  cbn [length from_option id].
  destruct (Z.of_nat (length (filter (fun km => keyword km = kw) kms)) =? 0) eqn:Hn.
  - apply Z.eqb_eq in Hn.
    destruct (Z.of_nat (S _) =? 0) eqn:Hs; [apply Z.eqb_eq in Hs; lia|].
    f_equal. lia.
  - destruct (Z.of_nat (S _) =? 0) eqn:Hs; [apply Z.eqb_eq in Hs; lia|].
    f_equal. lia.
Qed.

Lemma tally_total (kms : list KeywordMatch) (freq : gmap string Z) :
  map_total (fold_left count_keyword kms freq)
  = map_total freq + Z.of_nat (length kms).
Proof.
  revert freq. induction kms as [|km kms IH]; intros freq; cbn [fold_left length].
  - lia.
  - rewrite IH. unfold count_keyword. rewrite map_total_insert. lia.
Qed.

(** X13.  In the statistics a keyword has an entry exactly when some
    finding has a match of it, and the entry is the number of its matches
    in all findings; the entries add up to the total number of keyword
    matches. *)
Theorem statistics_keyword_frequency (results : list Finding) :
  (forall kw,
      keyword_frequency (get_statistics results) !! kw
      = if occurrences kw results =? 0 then None
        else Some (occurrences kw results))
  /\ map_total (keyword_frequency (get_statistics results))
     = total_keyword_matches (get_statistics results)
  /\ total_keyword_matches (get_statistics results)
     = Z.of_nat (length (all_matches results)).
Proof.
  unfold get_statistics. cbv zeta.
  cbn [keyword_frequency total_keyword_matches].
  rewrite fold_left_flat_map, py_sum_lengths. fold (all_matches results).
  split; [|split; [|reflexivity]].
  - intros kw. rewrite tally_lookup. cbv zeta. fold (occurrences kw results).
    rewrite lookup_empty. cbn [from_option id]. rewrite Z.add_0_l. reflexivity.
  - rewrite tally_total, map_total_empty. lia.
Qed.

End KeywordTally.

Section EntityTally.
Import content_parser.

(** The two steps on the count are one update. *)
Lemma count_entities_counts (acc : gmap string Z * gset string)
    (kv : string * list string) :
  fst (count_entities acc kv)
  = <[fst kv := default 0 (fst acc !! fst kv) + Z.of_nat (length (snd kv))]> (fst acc).
Proof.
  unfold count_entities. cbv zeta. cbn [fst].
  destruct (fst acc !! fst kv) as [v|] eqn:Hk.
  - rewrite Hk. reflexivity.
  - rewrite lookup_insert_eq, insert_insert_eq. reflexivity.
Qed.

Lemma count_entities_lookup (acc : gmap string Z * gset string)
    (kv : string * list string) (kind : string) :
  fst (count_entities acc kv) !! kind
  = if decide (fst kv = kind)
    then Some (default 0 (fst acc !! kind) + Z.of_nat (length (snd kv)))
    else fst acc !! kind.
Proof.
  rewrite count_entities_counts. destruct (decide (fst kv = kind)) as [<- | Hne].
  - apply lookup_insert_eq.
  - apply lookup_insert_ne, Hne.
Qed.

Lemma entity_tally_lookup (kvs : list (string * list string))
    (acc : gmap string Z * gset string) (kind : string) :
  fst (fold_left count_entities kvs acc) !! kind
  = match filter (fun kv => fst kv = kind) kvs with
    | nil => fst acc !! kind
    | entries =>
        Some (default 0 (fst acc !! kind)
              + Z.of_nat (length (flat_map snd entries)))
    end.
Proof.
  revert acc. induction kvs as [|kv kvs IH]; intros acc; [reflexivity|].
  cbn [fold_left]. rewrite IH, count_entities_lookup, filter_cons.
  destruct (decide (fst kv = kind)) as [Heq | Hne]; [|reflexivity].
  destruct (filter (fun kv => fst kv = kind) kvs) as [|kv' entries];
    cbn [from_option id flat_map]; rewrite ?length_app; cbn [length];
    f_equal; lia.
Qed.

Lemma entity_tally_total (kvs : list (string * list string))
    (acc : gmap string Z * gset string) :
  map_total (fst (fold_left count_entities kvs acc))
  = map_total (fst acc) + Z.of_nat (length (flat_map snd kvs)).
Proof.
  revert acc. induction kvs as [|kv kvs IH]; intros acc; cbn [fold_left flat_map].
  - cbn [length]. lia.
  - rewrite IH, count_entities_counts, map_total_insert, length_app. lia.
Qed.

Lemma size_add_marked (kind : string) (values : list string) (unique : gset string) :
  (size (fold_left (fun unique entity => {[ kind +:+ ":" +:+ entity ]} ∪ unique)
           values unique)
   <= size unique + length values)%nat.
Proof.
  revert unique. induction values as [|v values IH]; intros unique; cbn [fold_left length].
  - lia.
  - etransitivity; [apply IH|].
    pose proof (size_union_alt ({[ kind +:+ ":" +:+ v ]} : gset string) unique) as Hu.
    pose proof (subseteq_size (unique ∖ {[ kind +:+ ":" +:+ v ]}) unique
                  (subseteq_difference_l _ _ _ (reflexivity _))) as Hs.
    rewrite size_singleton in Hu. lia.
Qed.

Lemma entity_unique_size (kvs : list (string * list string))
    (acc : gmap string Z * gset string) :
  (size (snd (fold_left count_entities kvs acc))
   <= size (snd acc) + length (flat_map snd kvs))%nat.
Proof.
  revert acc. induction kvs as [|kv kvs IH]; intros acc; cbn [fold_left flat_map].
  - lia.
  - etransitivity; [apply IH|]. rewrite length_app.
    pose proof (size_add_marked (fst kv) (snd kv) (snd acc)) as Hs.
    unfold count_entities at 1. cbv zeta. cbn [snd]. lia.
Qed.

(** X14.  In the statistics a kind of entity has an entry exactly when
    some finding lists the kind, and the entry is the number of values
    listed under it in all findings, repetitions included.  The number of
    unique entities is at most the sum of these entries, and the number of
    pages with matches is at most the number of pages. *)
Theorem statistics_entity_counts (results : list Finding) :
  (forall kind,
      entity_counts (get_statistics results) !! kind
      = if bool_decide (kind ∈ map fst (all_entries results))
        then Some (listed kind results)
        else None)
  /\ 0 <= unique_entities (get_statistics results)
     <= map_total (entity_counts (get_statistics results))
  /\ 0 <= pages_with_matches (get_statistics results)
     <= total_pages (get_statistics results).
Proof.
  unfold get_statistics. cbv zeta.
  cbn [entity_counts unique_entities pages_with_matches total_pages].
  rewrite fold_left_flat_map. fold (all_entries results).
  split; [|split].
  - intros kind. rewrite entity_tally_lookup. cbn [fst]. rewrite lookup_empty.
    unfold listed.
    destruct (filter (fun kv => fst kv = kind) (all_entries results))
      as [|kv entries] eqn:Hf.
    + rewrite bool_decide_eq_false_2; [reflexivity|].
      intros ([k v] & Heq & Hin)%list_elem_of_fmap. cbn [fst] in Heq. subst kind.
      assert ((k, v) ∈ filter (fun kv => fst kv = k) (all_entries results)) as Habs
        by (apply list_elem_of_filter; auto).
      rewrite Hf in Habs. inversion Habs.
    + rewrite bool_decide_eq_true_2; [cbn [from_option id]; f_equal; lia|].
      assert (kv ∈ filter (fun kv => fst kv = kind) (all_entries results)) as Hin
        by (rewrite Hf; left).
      apply list_elem_of_filter in Hin as [<- Hin].
      apply list_elem_of_fmap. eauto.
  - rewrite entity_tally_total. cbn [fst].
    pose proof (entity_unique_size (all_entries results) (∅, ∅)) as Hs.
    cbn [snd] in Hs. rewrite size_empty in Hs. rewrite map_total_empty. lia.
  - rewrite py_sum_ones.
    pose proof (sublist_length _ _
                  (sublist_filter (fun r => has_matches r = true) results)) as Hl.
    lia.
Qed.

End EntityTally.

(* ===================================================================== *)
(** * Sanitized text *)
(* ===================================================================== *)

Section SanitizeFacts.
Import utils_text.

Lemma all_chars_filter_chars (p : ascii -> bool) (s : string) :
  PyStr.all_chars p (PyStr.filter_chars p s) = true.
Proof.
  induction s as [|c s IH]; cbn [PyStr.filter_chars]; [reflexivity|].
  destruct (p c) eqn:Hc; [|exact IH]. cbn [PyStr.all_chars]. rewrite Hc, IH. reflexivity.
Qed.

Lemma filter_chars_all (p : ascii -> bool) (s : string) :
  PyStr.all_chars p s = true -> PyStr.filter_chars p s = s.
Proof.
  induction s as [|c s IH]; cbn [PyStr.filter_chars PyStr.all_chars]; [reflexivity|].
  intros [Hc Hs]%andb_true_iff. rewrite Hc, (IH Hs). reflexivity.
Qed.

Lemma length_filter_chars (p : ascii -> bool) (s : string) :
  (String.length (PyStr.filter_chars p s) <= String.length s)%nat.
Proof.
  induction s as [|c s IH]; cbn [PyStr.filter_chars String.length]; [lia|].
  destruct (p c); cbn [String.length]; lia.
Qed.

Lemma all_chars_app (p : ascii -> bool) (a b : string) :
  PyStr.all_chars p (a +:+ b) = PyStr.all_chars p a && PyStr.all_chars p b.
Proof.
  induction a as [|c a IH]; [rewrite app_empty_l; reflexivity|].
  rewrite app_cons. cbn [PyStr.all_chars]. rewrite IH, andb_assoc. reflexivity.
Qed.

Lemma all_chars_impl (p q : ascii -> bool) (s : string) :
  (forall c, p c = true -> q c = true) ->
  PyStr.all_chars p s = true -> PyStr.all_chars q s = true.
Proof.
  intros Hpq. induction s as [|c s IH]; cbn [PyStr.all_chars]; [reflexivity|].
  intros [Hc Hs]%andb_true_iff. rewrite (Hpq c Hc), (IH Hs). reflexivity.
Qed.

Lemma visible_spec (c : ascii) :
  visible c = keeps c && negb (PyStr.is_space c).
Proof. destruct c as [[] [] [] [] [] [] [] []]; reflexivity. Qed.

(** What [split] gives: words of the characters of the text. *)
Lemma words_word (p : ascii -> bool) (s : string) :
  PyStr.all_chars p s = true ->
  Forall (fun w => w <> ""
                   /\ PyStr.all_chars
                        (fun c => p c && negb (PyStr.is_space c)) w = true)
    (words s).
Proof.
  induction s as [|c s IH]; cbn [words PyStr.all_chars]; [constructor|].
  intros [Hc Hs]%andb_true_iff. specialize (IH Hs).
  destruct (PyStr.is_space c) eqn:Hsp; [exact IH|].
  assert (p c && negb (PyStr.is_space c) = true) as Hpc by (rewrite Hc, Hsp; reflexivity).
  destruct s as [|d s'].
  - constructor; [|constructor]. split; [discriminate|].
    cbn [PyStr.all_chars]. rewrite Hpc. reflexivity.
  - destruct (PyStr.is_space d) eqn:Hd.
    + constructor; [|exact IH]. split; [discriminate|].
      cbn [PyStr.all_chars]. rewrite Hpc. reflexivity.
    + destruct (words (String d s')) as [|w ws].
      * constructor; [|constructor]. split; [discriminate|].
        cbn [PyStr.all_chars]. rewrite Hpc. reflexivity.
      * apply Forall_cons in IH as [[_ Hw] Hws]. constructor; [|exact Hws].
        split; [discriminate|]. cbn [PyStr.all_chars]. rewrite Hpc, Hw. reflexivity.
Qed.

(** [split] undoes [join] on words without blanks. *)
Lemma words_of_word (w : string) :
  w <> "" -> PyStr.all_chars (fun c => negb (PyStr.is_space c)) w = true ->
  words w = w :: nil.
Proof.
  induction w as [|c w IH]; [congruence|]. intros _.
  cbn [PyStr.all_chars]. intros [Hc Hw]%andb_true_iff.
  apply negb_true_iff in Hc. cbn [words]. rewrite Hc.
  destruct w as [|d w']; [reflexivity|].
  pose proof Hw as Hw'. cbn [PyStr.all_chars] in Hw'.
  apply andb_true_iff in Hw' as [Hd%negb_true_iff _]. rewrite Hd.
  rewrite IH by (discriminate || exact Hw). reflexivity.
Qed.

Lemma words_app_space (w r : string) :
  w <> "" -> PyStr.all_chars (fun c => negb (PyStr.is_space c)) w = true ->
  words (w +:+ String " " r) = w :: words r.
Proof.
  induction w as [|c w IH]; [congruence|]. intros _.
  cbn [PyStr.all_chars]. intros [Hc Hw]%andb_true_iff.
  apply negb_true_iff in Hc. rewrite app_cons. cbn [words]. rewrite Hc.
  destruct w as [|d w'].
  - rewrite app_empty_l. reflexivity.
  - pose proof Hw as Hw'. cbn [PyStr.all_chars] in Hw'.
    apply andb_true_iff in Hw' as [Hd%negb_true_iff _].
    rewrite app_cons, Hd, <- app_cons.
    rewrite IH by (discriminate || exact Hw). reflexivity.
Qed.

Lemma join_cons (sep part : string) (parts : list string) :
  parts <> nil -> join sep (part :: parts) = part +:+ sep +:+ join sep parts.
Proof. destruct parts; [congruence | reflexivity]. Qed.

Lemma words_join (ws : list string) :
  Forall (fun w => w <> ""
                   /\ PyStr.all_chars (fun c => negb (PyStr.is_space c)) w = true) ws ->
  words (join " " ws) = ws.
Proof.
  induction 1 as [|w ws [Hne Hw] Hws IH]; [reflexivity|].
  destruct ws as [|w' ws'].
  - apply words_of_word; assumption.
  - rewrite join_cons by discriminate.
    change (" " +:+ join " " (w' :: ws')) with (String " " (join " " (w' :: ws'))).
    rewrite words_app_space by assumption. rewrite IH. reflexivity.
Qed.

Lemma all_chars_join (p : ascii -> bool) (ws : list string) :
  p " "%char = true ->
  Forall (fun w => PyStr.all_chars p w = true) ws ->
  PyStr.all_chars p (join " " ws) = true.
Proof.
  intros Hsp. induction 1 as [|w ws Hw Hws IH]; [reflexivity|].
  destruct ws as [|w' ws']; [exact Hw|].
  rewrite join_cons by discriminate. rewrite !all_chars_app, Hw, IH.
  cbn [PyStr.all_chars]. rewrite Hsp. reflexivity.
Qed.

(** Joining the words of a text gives no more characters than the text
    has; a blank at the front is one character less. *)
Lemma length_join_words (s : string) :
  (String.length (join " " (words s))
   + (match s with
      | String d _ => if PyStr.is_space d then 1 else 0
      | EmptyString => 0
      end)
   <= String.length s)%nat.
Proof.
  induction s as [|c s IH]; [cbn; lia|].
  cbn [words String.length]. destruct (PyStr.is_space c) eqn:Hc.
  - destruct s as [|d s']; [cbn; lia|].
    destruct (PyStr.is_space d); cbn [String.length] in *; lia.
  - destruct s as [|d s']; [cbn; lia|].
    destruct (PyStr.is_space d) eqn:Hd.
    + destruct (words (String d s')) as [|w ws] eqn:Hw.
      * cbn [join String.length] in *. lia.
      * rewrite join_cons by discriminate. rewrite !string_length_app.
        cbn [String.length] in *. lia.
    + destruct (words (String d s')) as [|w ws] eqn:Hw.
      * cbn [join String.length] in *. lia.
      * assert (join " " (String c w :: ws) = String c (join " " (w :: ws))) as ->.
        { destruct ws; [reflexivity|]. cbn [join]. rewrite app_cons. reflexivity. }
        cbn [String.length] in *. lia.
Qed.

(** X15.  A sanitized text is a sequence of words with one space between
    them, where a word is a non-empty run of characters with a code above
    32: no blank, and no control character below the space (the delete
    character, code 127, is kept).  It is no longer than the text, and
    sanitizing it again changes nothing. *)
Theorem sanitize_text_normal (text : string) :
  (exists ws, sanitize_text text None = join " " ws /\ Forall visible_word ws)
  /\ (String.length (sanitize_text text None) <= String.length text)%nat
  /\ sanitize_text (sanitize_text text None) None = sanitize_text text None.
Proof.
  unfold sanitize_text. cbv zeta.
  set (ws := words (PyStr.filter_chars keeps text)).
  assert (Forall visible_word ws) as Hws.
  { pose proof (words_word keeps _ (all_chars_filter_chars keeps text)) as Hw.
    eapply Forall_impl; [exact Hw|]. intros w [Hne Hall]. split; [exact Hne|].
    erewrite all_chars_ext; [exact Hall|]. intros c. apply visible_spec. }
  split; [eauto|]. split.
  - pose proof (length_join_words (PyStr.filter_chars keeps text)) as Hj.
    pose proof (length_filter_chars keeps text) as Hf. fold ws in Hj. lia.
  - rewrite filter_chars_all.
    + rewrite words_join; [reflexivity|].
      eapply Forall_impl; [exact Hws|]. intros w [Hne Hall]. split; [exact Hne|].
      eapply all_chars_impl; [|exact Hall]. intros c. rewrite visible_spec.
      intros [_ Hc]%andb_true_iff. exact Hc.
    + apply all_chars_join; [reflexivity|].
      eapply Forall_impl; [exact Hws|]. intros w [_ Hall].
      eapply all_chars_impl; [|exact Hall]. intros c. rewrite visible_spec.
      intros [Hc _]%andb_true_iff. exact Hc.
Qed.

(** X16.  With a positive maximal length the result has at most that many
    characters and the three of the mark, and a sanitized text that fits
    is returned as it is.  A maximal length of zero cuts nothing. *)
Theorem sanitize_text_truncated (text : string) (n : Z) :
  (0 < n -> PyStr.len (sanitize_text text (Some n)) <= n + 3)
  /\ (PyStr.len (sanitize_text text None) <= n ->
      sanitize_text text (Some n) = sanitize_text text None)
  /\ (0 < n -> n < PyStr.len (sanitize_text text None) ->
      sanitize_text text (Some n)
      = PyStr.take (Z.to_nat n) (sanitize_text text None) +:+ "...")
  /\ sanitize_text text (Some 0) = sanitize_text text None.
Proof.
  unfold sanitize_text. cbv zeta.
  set (s := join " " (words (PyStr.filter_chars keeps text))).
  split; [|split; [|split; [|reflexivity]]].
  - intros Hn. destruct (negb (n =? 0) && (n <? PyStr.len s)) eqn:Hc.
    + unfold slice_to, PyStr.len. rewrite (proj2 (Z.leb_le 0 n)) by lia.
      rewrite string_length_app. cbn [String.length].
      destruct (length_take_le (Z.to_nat n) s). lia.
    + apply andb_false_iff in Hc as [Hc | Hc].
      * apply negb_false_iff, Z.eqb_eq in Hc. lia.
      * apply Z.ltb_ge in Hc. lia.
  - intros Hle. rewrite (proj2 (Z.ltb_ge n (PyStr.len s))) by exact Hle.
    rewrite andb_false_r. reflexivity.
  - intros Hn Hlt. rewrite (proj2 (Z.ltb_lt n (PyStr.len s))) by exact Hlt.
    rewrite (proj2 (Z.eqb_neq n 0)) by lia. cbn [negb andb].
    unfold slice_to. rewrite (proj2 (Z.leb_le 0 n)) by lia. reflexivity.
Qed.

End SanitizeFacts.

(* ===================================================================== *)
(** * The rate limiter *)
(* ===================================================================== *)

Section RateLimiterFacts.
Import utils_rate.

Lemma can_make_request_spec (now : Z) (rl : RateLimiter) :
  max_requests (fst (can_make_request now rl)) = max_requests rl
  /\ time_window (fst (can_make_request now rl)) = time_window rl
  /\ requests (fst (can_make_request now rl))
     = filter (fun t => now - t < time_window rl) (requests rl).
Proof. unfold can_make_request. cbv zeta. cbn. auto. Qed.

Lemma make_request_spec (now now' : Z) (rl : RateLimiter) :
  let kept := filter (fun t => now - t < time_window rl) (requests rl) in
  make_request now now' rl
  = if Z.of_nat (length kept) <? max_requests rl
    then (mkRateLimiter (max_requests rl) (time_window rl) (kept ++ now' :: nil), true)
    else (mkRateLimiter (max_requests rl) (time_window rl) kept, false).
Proof.
  cbv zeta. unfold make_request, can_make_request. cbv zeta.
  destruct (Z.of_nat _ <? max_requests rl); reflexivity.
Qed.

(** One call keeps the list within the limit, whatever the clock says. *)
Lemma make_request_bound (now now' : Z) (rl : RateLimiter) :
  Z.of_nat (length (requests rl)) <= Z.max 0 (max_requests rl) ->
  Z.of_nat (length (requests (fst (make_request now now' rl))))
  <= Z.max 0 (max_requests rl)
  /\ max_requests (fst (make_request now now' rl)) = max_requests rl
  /\ time_window (fst (make_request now now' rl)) = time_window rl.
Proof.
  intros Hb. rewrite make_request_spec. cbv zeta.
  pose proof (sublist_length _ _
                (sublist_filter (fun t => now - t < time_window rl) (requests rl)))
    as Hl.
  destruct (Z.of_nat _ <? max_requests rl) eqn:Hc; cbn [fst requests max_requests time_window].
  - apply Z.ltb_lt in Hc. rewrite length_app. cbn [length]. lia.
  - lia.
Qed.

Lemma make_requests_bound (readings : list (Z * Z)) (rl : RateLimiter) :
  Z.of_nat (length (requests rl)) <= Z.max 0 (max_requests rl) ->
  Z.of_nat (length (requests (fst (make_requests readings rl))))
  <= Z.max 0 (max_requests rl)
  /\ max_requests (fst (make_requests readings rl)) = max_requests rl
  /\ time_window (fst (make_requests readings rl)) = time_window rl.
Proof.
  revert rl. induction readings as [|[now now'] readings IH]; intros rl Hb;
    cbn [make_requests]; [auto|].
  destruct (make_request_bound now now' rl Hb) as (Hb1 & Hm1 & Hw1).
  destruct (make_request now now' rl) as [rl1 allowed]. cbn [fst] in *.
  rewrite <- Hm1 in Hb1. destruct (IH rl1 Hb1) as (Hb2 & Hm2 & Hw2).
  destruct (make_requests readings rl1) as [rl2 answers]. cbn [fst] in *.
  rewrite Hm2, Hw2, <- Hm1. auto.
Qed.

(** X17.  Whatever the clock reads, a limiter never holds more recorded
    requests than its maximum, and with a maximum of zero or less it
    allows no request at all. *)
Theorem rate_limiter_bound (max window : Z) (readings : list (Z * Z)) :
  Z.of_nat (length (requests (fst (make_requests readings (new_limiter max window)))))
  <= Z.max 0 max
  /\ (max <= 0 ->
      Forall (fun allowed => allowed = false)
        (snd (make_requests readings (new_limiter max window))))
  /\ length (snd (make_requests readings (new_limiter max window))) = length readings.
Proof.
  split; [|split].
  - apply (make_requests_bound readings (new_limiter max window)). cbn. lia.
  - intros Hmax.
    assert (forall rl, max_requests rl <= 0 ->
                       Forall (fun allowed => allowed = false)
                         (snd (make_requests readings rl))) as Hall.
    { induction readings as [|[now now'] readings IH]; intros rl Hrl;
        cbn [make_requests]; [constructor|].
      rewrite make_request_spec. cbv zeta.
      destruct (Z.of_nat _ <? max_requests rl) eqn:Hc;
        [apply Z.ltb_lt in Hc; lia|].
      specialize (IH (mkRateLimiter (max_requests rl) (time_window rl)
                        (filter (fun t => now - t < time_window rl) (requests rl)))
                    Hrl).
      destruct (make_requests readings _) as [rl2 answers]. cbn [snd] in *.
      constructor; [reflexivity | exact IH]. }
    apply Hall. exact Hmax.
  - generalize (new_limiter max window).
    induction readings as [|[now now'] readings IH]; intros rl; cbn [make_requests];
      [reflexivity|].
    destruct (make_request now now' rl) as [rl1 allowed].
    specialize (IH rl1). destruct (make_requests readings rl1) as [rl2 answers].
    cbn [snd length] in *. rewrite IH. reflexivity.
Qed.

End RateLimiterFacts.

Section RateLimiterSpacing.
Import utils_rate.
Variables max window : Z.

Lemma filter_all {A} (P : A -> Prop) `{forall x, Decision (P x)} (l : list A) :
  Forall P l -> filter P l = l.
Proof.
  induction 1 as [|x l Hx Hl IH]; [reflexivity|].
  rewrite filter_cons_True by exact Hx. rewrite IH. reflexivity.
Qed.

Lemma sorted_suffix (l1 l2 : list Z) :
  StronglySorted Z.le (l1 ++ l2) -> StronglySorted Z.le l2.
Proof.
  induction l1 as [|t l1 IH]; [auto|]. cbn [app].
  intros [Hs _]%StronglySorted_inv. apply IH, Hs.
Qed.

Lemma sorted_snoc (l : list Z) (r : Z) :
  StronglySorted Z.le l -> Forall (fun t => t <= r) l ->
  StronglySorted Z.le (l ++ r :: nil).
Proof.
  induction 1 as [|t l Hl IH Hall]; intros Hr; cbn [app]; [repeat constructor|].
  apply Forall_cons in Hr as [Ht Hr]. constructor; [apply IH, Hr|].
  apply Forall_app. split; [exact Hall | repeat constructor; exact Ht].
Qed.

Lemma filter_sorted_split (l : list Z) (c w : Z) :
  StronglySorted Z.le l ->
  exists expired,
    l = expired ++ filter (fun t => c - t < w) l
    /\ Forall (fun t => w <= c - t) expired.
Proof.
  induction 1 as [|t l Hl IH Hall]; [exists nil; split; [reflexivity | constructor]|].
  destruct (decide (c - t < w)) as [Hin | Hout].
  - exists nil. split; [|constructor]. cbn [app]. symmetry. apply filter_all.
    constructor; [exact Hin|]. eapply Forall_impl; [exact Hall|].
    cbn beta. intros t' Ht'. lia.
  - destruct IH as (expired & Heq & Hexp). exists (t :: expired).
    rewrite filter_cons_False by exact Hout. split.
    + cbn [app]. f_equal. exact Heq.
    + constructor; [lia | exact Hexp].
Qed.

Lemma spaced_snoc (log : list (Z * Z)) (old kept : list Z) (c r : Z) :
  spaced max window log ->
  map snd log = old ++ kept ->
  Forall (fun t => window <= c - t) old ->
  Z.of_nat (length kept) < max ->
  spaced max window (log ++ (c, r) :: nil).
Proof.
  intros Hgood Hlog Hold Hlen i earlier later Hi Hj.
  pose proof (lookup_lt_Some _ _ _ Hj) as Hjlt.
  rewrite length_app in Hjlt. cbn [length] in Hjlt.
  assert (length log = (length old + length kept)%nat) as Hll
    by (rewrite <- (length_map snd log), Hlog, length_app; reflexivity).
  destruct (decide (i + Z.to_nat max < length log)%nat) as [Hlt | Hge].
  - rewrite lookup_app_l in Hi, Hj by lia. eapply Hgood; eassumption.
  - assert ((i + Z.to_nat max)%nat = length log) as Hjeq by lia.
    rewrite Hjeq, lookup_app_r, Nat.sub_diag in Hj by lia.
    injection Hj as <-. cbn [fst].
    assert (i < length old)%nat as Hiold by lia.
    rewrite lookup_app_l in Hi by lia.
    assert (snd earlier ∈ old) as Hin.
    { assert (map snd log !! i = Some (snd earlier)) as Hs
        by (rewrite list_lookup_fmap, Hi; reflexivity).
      rewrite Hlog, lookup_app_l in Hs by exact Hiold.
      eapply list_elem_of_lookup_2, Hs. }
    rewrite Forall_forall in Hold. apply Hold, Hin.
Qed.

Lemma make_requests_spaced (readings : list (Z * Z)) :
  forall rl log T,
    limiter_inv max window rl log T ->
    StronglySorted Z.le (T :: flat_readings readings) ->
    spaced max window (log ++ granted readings (snd (make_requests readings rl))).
Proof.
  induction readings as [|[c r] readings IH];
    intros rl log T (Hmax & Hwin & Hgood & Hsorted & Hle & old & Hlog & Hold) Hclock.
  - cbn [make_requests snd granted]. rewrite app_nil_r. exact Hgood.
  - cbn [flat_readings] in Hclock.
    apply StronglySorted_inv in Hclock as [Hclock HT].
    apply Forall_cons in HT as [HTc HT]. apply Forall_cons in HT as [HTr _].
    apply StronglySorted_inv in Hclock as [Hclock Hc].
    apply Forall_cons in Hc as [Hcr _].
    destruct (filter_sorted_split (requests rl) c window Hsorted)
      as (expired & Hsplit & Hexp).
    set (kept := filter (fun t => c - t < window) (requests rl)) in *.
    assert (StronglySorted Z.le kept) as Hks
      by (rewrite Hsplit in Hsorted; eapply sorted_suffix, Hsorted).
    assert (Forall (fun t => t <= r) kept) as Hkr.
    { apply Forall_forall. intros t [_ Hin]%list_elem_of_filter.
      rewrite Forall_forall in Hle. specialize (Hle t Hin). lia. }
    assert (map snd log = (old ++ expired) ++ kept) as Hlog'
      by (rewrite <- app_assoc, <- Hsplit; exact Hlog).
    assert (Forall (fun t => window <= c - t) (old ++ expired)) as Hold'.
    { apply Forall_app. split; [|exact Hexp].
      eapply Forall_impl; [exact Hold|]. cbn beta. intros t Ht. lia. }
    cbn [make_requests]. rewrite make_request_spec. cbv zeta.
    rewrite Hmax, Hwin. fold kept.
    destruct (Z.of_nat (length kept) <? max) eqn:Hallowed.
    + apply Z.ltb_lt in Hallowed.
      specialize (IH (mkRateLimiter max window (kept ++ r :: nil))
                    (log ++ (c, r) :: nil) r).
      destruct (make_requests readings _) as [rl2 answers]. cbn [snd] in *.
      cbn [granted]. rewrite (cons_middle (c, r)), app_assoc. apply IH.
      * repeat split; cbn [max_requests time_window requests].
        -- eapply spaced_snoc; eassumption.
        -- apply sorted_snoc; assumption.
        -- apply Forall_app. split; [exact Hkr|]. repeat constructor. lia.
        -- exists (old ++ expired). split.
           ++ rewrite map_app, Hlog', <- app_assoc. reflexivity.
           ++ eapply Forall_impl; [exact Hold'|]. cbn beta. intros t Ht. lia.
      * exact Hclock.
    + specialize (IH (mkRateLimiter max window kept) log r).
      destruct (make_requests readings _) as [rl2 answers]. cbn [snd] in *.
      cbn [granted]. apply IH.
      * repeat split; cbn [max_requests time_window requests]; try assumption.
        exists (old ++ expired). split; [exact Hlog'|].
        eapply Forall_impl; [exact Hold'|]. cbn beta. intros t Ht. lia.
      * exact Hclock.
Qed.

(** X18.  With a clock that does not run backwards, the limiter keeps the
    rate: when a call is allowed, and [max_requests] allowed calls later
    another one is, then at the check of the later one at least the time
    window has passed since the earlier one was recorded. *)
Theorem rate_limiter_spacing (readings : list (Z * Z)) :
  monotone_clock readings ->
  spaced max window
    (granted readings (snd (make_requests readings (new_limiter max window)))).
Proof.
  intros Hclock.
  destruct readings as [|[c r] readings'] eqn:Hr.
  - intros i earlier later Hi. cbn in Hi. rewrite lookup_nil in Hi. discriminate.
  - rewrite <- Hr in *. clear Hr.
    apply (make_requests_spaced readings (new_limiter max window) nil
             (match flat_readings readings with t :: _ => t | nil => 0 end)).
    + repeat split; cbn [new_limiter max_requests time_window requests];
        try constructor.
      * intros i earlier later Hi. rewrite lookup_nil in Hi. discriminate.
      * exists nil. split; [reflexivity | constructor].
    + unfold monotone_clock in Hclock.
      apply (Sorted_StronglySorted Z.le_trans) in Hclock.
      destruct (flat_readings readings) as [|t ts]; [repeat constructor|].
      constructor; [exact Hclock|].
      apply StronglySorted_inv in Hclock as [_ Hall].
      constructor; [lia | exact Hall].
Qed.

End RateLimiterSpacing.

Section RateLimiterExamples.
Import utils_rate.

Lemma rate_limiter_spacing_witness :
  monotone_clock ((0, 0) :: (1, 2) :: (3, 3) :: (10, 11) :: nil)
  /\ snd (make_requests ((0, 0) :: (1, 2) :: (3, 3) :: (10, 11) :: nil)
            (new_limiter 2 10))
     = true :: true :: false :: true :: nil
  /\ 10 <= fst (10, 11) - snd (0, 0).
Proof.
  assert (monotone_clock ((0, 0) :: (1, 2) :: (3, 3) :: (10, 11) :: nil)) as Hclock
    by (unfold monotone_clock; cbn; repeat constructor; lia).
  split; [exact Hclock|]. split; [reflexivity|].
  exact (rate_limiter_spacing 2 10 _ Hclock 0%nat (0, 0) (10, 11) eq_refl eq_refl).
Defined.

End RateLimiterExamples.

Section WaitFacts.
Import utils_rate.

Lemma fold_min_spec (xs : list Z) (x : Z) :
  (fold_left Z.min xs x = x \/ fold_left Z.min xs x ∈ xs)
  /\ fold_left Z.min xs x <= x
  /\ Forall (fun t => fold_left Z.min xs x <= t) xs.
Proof.
  revert x. induction xs as [|y xs IH]; intros x; cbn [fold_left].
  - split; [left; reflexivity|]. split; [lia | constructor].
  - destruct (IH (Z.min x y)) as (Hin & Hle & Hall). split; [|split].
    + destruct Hin as [Heq | Hin]; [|right; right; exact Hin].
      rewrite Heq. destruct (Z.min_spec x y) as [[_ ->] | [_ ->]];
        [left; reflexivity | right; left].
    + lia.
    + constructor; [lia | exact Hall].
Qed.

Lemma py_min_spec (xs : list Z) :
  match py_min xs with
  | None => xs = nil
  | Some oldest => oldest ∈ xs /\ Forall (fun t => oldest <= t) xs
  end.
Proof.
  destruct xs as [|x xs]; cbn [py_min]; [reflexivity|].
  destruct (fold_min_spec xs x) as (Hin & Hle & Hall). split.
  - destruct Hin as [-> | Hin]; [left | right; exact Hin].
  - constructor; assumption.
Qed.

(** X19.  Asking for the time until the next request fails exactly for a
    limiter whose maximum is zero or less and that holds no request
    younger than the window.  Otherwise the answer is zero when a request
    is allowed, and when none is allowed it is a wait that, counted from
    the check, is positive and, with a clock that does not run backwards,
    no longer than the window. *)
Theorem time_until_next_request_wait (now now' : Z) (rl : RateLimiter) :
  (snd (time_until_next_request now now' rl) = None
   <-> max_requests rl <= 0
       /\ Forall (fun t => time_window rl <= now - t) (requests rl))
  /\ (snd (can_make_request now rl) = true ->
      snd (time_until_next_request now now' rl) = Some 0)
  /\ (forall wait,
         snd (can_make_request now rl) = false ->
         snd (time_until_next_request now now' rl) = Some wait ->
         0 < wait + (now' - now)
         /\ (Forall (fun t => t <= now) (requests rl) ->
             wait + (now' - now) <= time_window rl)).
Proof.
  unfold time_until_next_request, can_make_request. cbv zeta.
  cbn [snd requests time_window max_requests].
  set (kept := filter (fun t => now - t < time_window rl) (requests rl)).
  pose proof (py_min_spec kept) as Hmin.
  assert (kept = nil <-> Forall (fun t => time_window rl <= now - t) (requests rl))
    as Hnil.
  { unfold kept. clear. induction (requests rl) as [|t l IH].
    - split; [constructor | reflexivity].
    - rewrite filter_cons, Forall_cons, <- IH.
      destruct (decide (now - t < time_window rl)); split.
      + discriminate.
      + intros [Ht _]. lia.
      + intros Hl. split; [lia | exact Hl].
      + intros [_ Hl]. exact Hl. }
  destruct (Z.of_nat (length kept) <? max_requests rl) eqn:Hallowed; cbn [snd].
  - apply Z.ltb_lt in Hallowed. split; [|split; [reflexivity | discriminate]].
    split; [discriminate|]. intros [Hmax _]. lia.
  - apply Z.ltb_ge in Hallowed. destruct (py_min kept) as [oldest|]; cbn [snd].
    + destruct Hmin as [Hin Hall]. split; [|split; [discriminate|]].
      * split; [discriminate|]. intros [_ Hk%Hnil]. rewrite Hk in Hin. inversion Hin.
      * intros wait _ [= <-].
        apply list_elem_of_filter in Hin as [Hyoung Hin]. split; [lia|].
        intros Hpast. rewrite Forall_forall in Hpast. specialize (Hpast _ Hin). lia.
    + split; [|split; [discriminate | discriminate]].
      split; [|reflexivity]. intros _. rewrite Hmin in Hallowed. cbn in Hallowed.
      split; [lia | apply Hnil, Hmin].
Qed.

End WaitFacts.

Section SafeFilenameFacts.
Import urllib utils_text.
Context `{UrlLib}.
Variable path_of : string -> string.
Variable timestamp : string.

Lemma all_chars_map_chars (p : ascii -> bool) (f : ascii -> ascii) (s : string) :
  (forall c, p (f c) = true) -> PyStr.all_chars p (PyStr.map_chars f s) = true.
Proof.
  intros Hf. induction s as [|c s IH]; cbn [PyStr.map_chars PyStr.all_chars];
    [reflexivity|].
  rewrite Hf, IH. reflexivity.
Qed.

Lemma all_chars_take (p : ascii -> bool) (n : nat) (s : string) :
  PyStr.all_chars p s = true -> PyStr.all_chars p (PyStr.take n s) = true.
Proof.
  revert s. induction n as [|n IH]; intros [|c s]; cbn [PyStr.take PyStr.all_chars];
    try reflexivity.
  intros [Hc Hs]%andb_true_iff. rewrite Hc, (IH s Hs). reflexivity.
Qed.

(** X20.  A safe file name is the time stamp, an underscore, and a name
    made of letters, digits, underscores, hyphens and dots only, so no
    path separator; for a maximal length that is not negative the name
    has at most that many characters. *)
Theorem create_safe_filename_safe (url : string) (max_length : Z) :
  match create_safe_filename path_of timestamp url max_length with
  | None => urlparse url = None
  | Some filename =>
      exists name,
        filename = timestamp +:+ "_" +:+ name
        /\ PyStr.all_chars is_safe_char name = true
        /\ PyStr.contains_char "/" name = false
        /\ (0 <= max_length -> PyStr.len name <= max_length)
  end.
Proof.
  unfold create_safe_filename.
  destruct (urlparse url) as [parsed|]; [|reflexivity]. cbv zeta.
  set (domain := match netloc parsed with EmptyString => "unknown" | _ => netloc parsed end).
  set (safe := PyStr.map_chars (fun c => if is_safe_char c then c else "_"%char)
                 (domain +:+ PyStr.replace "/" "_" (path_of url))).
  assert (PyStr.all_chars is_safe_char safe = true) as Hsafe.
  { apply all_chars_map_chars. intros c.
    destruct (is_safe_char c) eqn:Hc; [exact Hc | reflexivity]. }
  assert (forall name, PyStr.all_chars is_safe_char name = true ->
                       PyStr.contains_char "/" name = false) as Hslash.
  { induction name as [|c name IH]; cbn [PyStr.all_chars PyStr.contains_char];
      [reflexivity|].
    intros [Hc Hn]%andb_true_iff. rewrite (IH Hn), orb_false_r.
    destruct (Ascii.eqb "/" c) eqn:Heq; [|reflexivity].
    apply Ascii.eqb_eq in Heq as <-. discriminate Hc. }
  destruct (max_length <? PyStr.len safe) eqn:Hcut.
  - unfold slice_to.
    destruct (0 <=? max_length) eqn:Hpos.
    + exists (PyStr.take (Z.to_nat max_length) safe).
      pose proof (all_chars_take is_safe_char (Z.to_nat max_length) safe Hsafe) as Ht.
      split; [reflexivity|]. split; [exact Ht|]. split; [apply Hslash, Ht|].
      intros _. unfold PyStr.len.
      destruct (length_take_le (Z.to_nat max_length) safe). lia.
    + eexists. split; [reflexivity|].
      pose proof (all_chars_take is_safe_char
                    (String.length safe - Z.to_nat (- max_length)) safe Hsafe) as Ht.
      split; [exact Ht|]. split; [apply Hslash, Ht|].
      apply Z.leb_gt in Hpos. lia.
  - exists safe. split; [reflexivity|]. split; [exact Hsafe|].
    split; [apply Hslash, Hsafe|]. apply Z.ltb_ge in Hcut. lia.
Qed.

End SafeFilenameFacts.

(* ===================================================================== *)
(** * Reading the findings file *)
(* ===================================================================== *)

Section StorageFacts.
Import database_handler.
Context {A : Type}.
Variable timestamp_of : A -> Z.

Lemma insert_desc_perm (x : A) (l : list A) :
  insert_desc timestamp_of x l ≡ₚ x :: l.
Proof.
  induction l as [|y l IH]; cbn [insert_desc]; [reflexivity|].
  destruct (timestamp_of x <? timestamp_of y); [|reflexivity].
  rewrite IH. apply Permutation_swap.
Qed.

Lemma sort_desc_perm (l : list A) : sort_desc timestamp_of l ≡ₚ l.
Proof.
  induction l as [|x l IH]; [reflexivity|].
  unfold sort_desc in *. cbn [foldr]. rewrite insert_desc_perm, IH. reflexivity.
Qed.

Lemma insert_desc_sorted (x : A) (l : list A) :
  StronglySorted (fun a b => timestamp_of b <= timestamp_of a) l ->
  StronglySorted (fun a b => timestamp_of b <= timestamp_of a)
    (insert_desc timestamp_of x l).
Proof.
  induction 1 as [|y l Hl IH Hall]; cbn [insert_desc]; [repeat constructor|].
  destruct (timestamp_of x <? timestamp_of y) eqn:Hxy.
  - apply Z.ltb_lt in Hxy. constructor; [exact IH|].
    rewrite insert_desc_perm. constructor; [lia | exact Hall].
  - apply Z.ltb_ge in Hxy. constructor; [constructor; assumption|].
    constructor; [exact Hxy|].
    eapply Forall_impl; [exact Hall|]. cbn beta. intros b Hb. lia.
Qed.

Lemma sort_desc_sorted (l : list A) :
  StronglySorted (fun a b => timestamp_of b <= timestamp_of a)
    (sort_desc timestamp_of l).
Proof.
  induction l as [|x l IH]; [constructor|].
  unfold sort_desc in *. cbn [foldr]. apply insert_desc_sorted, IH.
Qed.

Lemma read_findings_take (limit : Z) (lines : list (Line A)) (findings : list A) :
  well_formed lines ->
  (length findings < Z.to_nat (Z.max 1 limit))%nat ->
  read_findings limit lines findings
  = (findings ++ take (Z.to_nat (Z.max 1 limit) - length findings) (stored lines),
     true).
Proof.
  revert findings. induction lines as [|line lines IH]; intros findings Hwf Hlen.
  - cbn [read_findings]. change (stored (@nil (Line A))) with (@nil A).
    rewrite take_nil, app_nil_r. reflexivity.
  - apply Forall_cons in Hwf as [Hline Hwf].
    destruct line as [|finding|]; [| |congruence]; cbn [read_findings].
    + change (stored (Blank :: lines)) with (stored lines). apply IH; assumption.
    + cbv zeta. rewrite length_app. cbn [length].
      change (stored (Stored finding :: lines)) with (finding :: stored lines).
      destruct (limit <=? Z.of_nat (length findings + 1)) eqn:Hstop.
      * apply Z.leb_le in Hstop.
        replace (Z.to_nat (Z.max 1 limit) - length findings)%nat with 1%nat by lia.
        cbn [take]. rewrite take_0. reflexivity.
      * apply Z.leb_gt in Hstop.
        rewrite IH by (try assumption; rewrite length_app; cbn [length]; lia).
        rewrite length_app. cbn [length].
        replace (Z.to_nat (Z.max 1 limit) - length findings)%nat
          with (S (Z.to_nat (Z.max 1 limit) - (length findings + 1)))%nat by lia.
        cbn [take]. rewrite <- app_assoc. reflexivity.
Qed.

Lemma read_findings_length (limit : Z) (lines : list (Line A)) (findings : list A) :
  (length findings < Z.to_nat (Z.max 1 limit))%nat ->
  (length (fst (read_findings limit lines findings)) <= Z.to_nat (Z.max 1 limit))%nat.
Proof.
  revert findings. induction lines as [|line lines IH]; intros findings Hlen.
  - cbn [read_findings fst]. lia.
  - destruct line as [|finding|]; cbn [read_findings].
    + apply IH, Hlen.
    + cbv zeta. rewrite length_app. cbn [length].
      destruct (limit <=? Z.of_nat (length findings + 1)) eqn:Hstop.
      * cbn [fst]. rewrite length_app. cbn [length]. lia.
      * apply Z.leb_gt in Hstop. apply IH. rewrite length_app. cbn [length]. lia.
    + cbn [fst]. lia.
Qed.

(** X21.  From a findings file without malformed line, the storage
    returns the first [limit] findings of the file, and one finding for a
    limit of zero or less, ordered by decreasing time stamp: the findings
    stored first, not the latest ones.  In no case does it return more
    than that many, and for a file that does not exist it returns
    none. *)
Theorem get_findings_first_stored (limit : Z) (lines : list (Line A)) :
  (well_formed lines ->
   get_findings timestamp_of limit (Some lines)
     ≡ₚ take (Z.to_nat (Z.max 1 limit)) (stored lines)
   /\ StronglySorted (fun a b => timestamp_of b <= timestamp_of a)
        (get_findings timestamp_of limit (Some lines)))
  /\ Z.of_nat (length (get_findings timestamp_of limit (Some lines)))
     <= Z.max 1 limit
  /\ get_findings timestamp_of limit None = nil.
Proof.
  split; [|split; [|reflexivity]].
  - intros Hwf. cbn [get_findings].
    rewrite (read_findings_take limit lines nil Hwf) by (cbn [length]; lia).
    cbn [app length]. rewrite Nat.sub_0_r.
    split; [apply sort_desc_perm | apply sort_desc_sorted].
  - cbn [get_findings].
    pose proof (read_findings_length limit lines nil ltac:(cbn [length]; lia)) as Hl.
    destruct (read_findings limit lines nil) as [findings ended]. cbn [fst] in Hl.
    destruct ended; [rewrite sort_desc_perm|]; lia.
Qed.

End StorageFacts.

(* ===================================================================== *)
(** * What a match reads, and what [clean_html] deletes *)
(* ===================================================================== *)

Section MatcherFacts.
Import re.

Lemma reads_refl (st : mstate) : reads st st.
Proof. exists "". rewrite app_empty_l. cbn. split; [reflexivity | lia]. Qed.

Lemma reads_trans (st1 st2 st3 : mstate) :
  reads st1 st2 -> reads st2 st3 -> reads st1 st3.
Proof.
  intros (m1 & Hr1 & Hp1) (m2 & Hr2 & Hp2). exists (m1 +:+ m2).
  rewrite string_app_assoc, <- Hr2, string_length_app. split; [exact Hr1 | lia].
Qed.

(** A match continues from a state that is further in the same text. *)
Lemma m_reads (r : regex) :
  forall st k res,
    m r st k = Some res -> exists st', reads st st' /\ k st' = Some res.
Proof.
  induction r as [|p|r1 IH1 r2 IH2|r1 IH1 r2 IH2|greedy lo hi r1 IH1| |r1 IH1];
    intros st k res Hm; cbn [m] in Hm.
  - exists st. split; [apply reads_refl | exact Hm].
  - destruct (rest st) as [|c s'] eqn:Hrest; [discriminate|].
    destruct (p c); [|discriminate]. eexists. split; [|exact Hm].
    exists (String c ""). cbn [rest pos]. rewrite app_cons, app_empty_l. cbn.
    split; [exact Hrest | lia].
  - apply IH1 in Hm as (st1 & H1 & Hm). apply IH2 in Hm as (st2 & H2 & Hm).
    exists st2. split; [eapply reads_trans; eassumption | exact Hm].
  - unfold first_some in Hm. destruct (m r1 st k) eqn:H1.
    + rewrite <- H1 in Hm. apply IH1, Hm.
    + apply IH2, Hm.
  - revert Hm. generalize (String.length (rest st)) as fuel. generalize O as count.
    intros count fuel. revert count st.
    induction fuel as [|fuel IHf]; intros count st Hm; cbv zeta in Hm.
    + assert ((if (lo <=? count)%nat then k st else None) = Some res) as Hstop.
      { destruct greedy; cbn [first_some] in Hm; [exact Hm|].
        unfold first_some in Hm. destruct (if (lo <=? count)%nat then k st else None);
          [exact Hm | discriminate]. }
      destruct (lo <=? count)%nat; [|discriminate].
      exists st. split; [apply reads_refl | exact Hstop].
    + set (stop := if (lo <=? count)%nat then k st else None) in *.
      set (more := if below hi count
                   then m r1 st (fun st' => if (pos st <? pos st')%nat
                                            then _ else None)
                   else None) in *.
      assert (stop = Some res \/ more = Some res) as [Hstop | Hmore].
      { unfold first_some in Hm.
        destruct greedy; [destruct more | destruct stop]; auto. }
      * unfold stop in Hstop. destruct (lo <=? count)%nat; [|discriminate].
        exists st. split; [apply reads_refl | exact Hstop].
      * unfold more in Hmore. destruct (below hi count); [|discriminate].
        apply IH1 in Hmore as (st1 & H1 & Hmore).
        destruct (pos st <? pos st1)%nat; [|discriminate].
        apply IHf in Hmore as (st2 & H2 & Hk).
        exists st2. split; [eapply reads_trans; eassumption | exact Hk].
  - destruct (at_boundary st); [|discriminate].
    exists st. split; [apply reads_refl | exact Hm].
  - apply IH1 in Hm as (st1 & H1 & Hm). eexists. split; [|exact Hm].
    destruct H1 as (mid & Hr & Hp). exists mid. cbn [rest pos]. auto.
Qed.

Lemma match_here_reads (r : regex) (st st' : mstate) :
  match_here r st = Some st' -> reads st st'.
Proof.
  unfold match_here. intros (st1 & (mid & Hr & Hp) & [= ->])%m_reads.
  exists mid. cbn [rest pos] in *. auto.
Qed.

Lemma chars_app (a b : string) : chars (a +:+ b) = chars a ++ chars b.
Proof.
  unfold chars. induction a as [|c a IH]; [rewrite app_empty_l; reflexivity|].
  rewrite app_cons. cbn [list_ascii_of_string app]. rewrite IH. reflexivity.
Qed.

Lemma length_chars (s : string) : length (chars s) = String.length s.
Proof. unfold chars. induction s as [|c s IH]; cbn; [reflexivity | rewrite IH; reflexivity]. Qed.

End MatcherFacts.

Section CleanHtmlFacts.
Import re utils_text.

Lemma delete_matches_sublist (r : regex) (fuel : nat) (st : mstate) :
  chars (delete_matches r fuel st) `sublist_of` chars (rest st).
Proof.
  revert st. induction fuel as [|fuel IH]; intros st; cbn [delete_matches];
    [reflexivity|]. cbv zeta.
  assert (chars match rest st with
                | EmptyString => EmptyString
                | String c s' =>
                    String c (delete_matches r fuel
                                (mkState (Some c) s' (S (pos st)) None))
                end `sublist_of` chars (rest st)) as Hkeep.
  { destruct (rest st) as [|c s']; [reflexivity|].
    unfold chars. cbn [list_ascii_of_string]. apply sublist_skip.
    apply (IH (mkState (Some c) s' (S (pos st)) None)). }
  destruct (match_here r st) as [st'|] eqn:Hm; [|exact Hkeep].
  destruct (pos st <? pos st')%nat; [|exact Hkeep].
  apply match_here_reads in Hm as (mid & -> & _).
  rewrite chars_app. etransitivity; [apply IH|]. apply sublist_inserts_l. reflexivity.
Qed.

Lemma sub_empty_sublist (r : regex) (text : string) :
  chars (sub_empty r text) `sublist_of` chars text.
Proof. apply (delete_matches_sublist r _ (start_state text)). Qed.

Lemma delete_matches_no_lt (r : regex) (fuel : nat) (st : mstate) :
  opens_with_lt r ->
  PyStr.contains_char "<" (rest st) = false ->
  delete_matches r fuel st = rest st.
Proof.
  intros Hr. revert st. induction fuel as [|fuel IH]; intros st Hno;
    cbn [delete_matches]; [reflexivity|]. cbv zeta.
  rewrite Hr.
  - destruct (rest st) as [|c s'] eqn:Hrest; [reflexivity|].
    cbn [PyStr.contains_char] in Hno. apply orb_false_iff in Hno as [_ Hno].
    rewrite IH by exact Hno. reflexivity.
  - destruct (rest st) as [|c s']; cbn [first_char]; [discriminate|].
    cbn [PyStr.contains_char] in Hno. apply orb_false_iff in Hno as [Hc _].
    intros [= ->]. discriminate Hc.
Qed.

Lemma lower_lt (c : ascii) : PyStr.lower_char c = "<"%char -> c = "<"%char.
Proof.
  destruct c as [[] [] [] [] [] [] [] []]; vm_compute; intros Heq;
    first [reflexivity | discriminate Heq].
Qed.

Lemma tag_pattern_opens (tag : string) : opens_with_lt (tag_pattern tag).
Proof.
  intros st Hfirst. unfold match_here, tag_pattern. cbn [seq lit_i m chr_i rest].
  destruct (rest st) as [|c s']; [reflexivity|].
  destruct (Ascii.eqb (PyStr.lower_char c) (PyStr.lower_char "<")) eqn:Hc;
    [|reflexivity].
  apply Ascii.eqb_eq in Hc. apply lower_lt in Hc. subst c.
  exfalso. apply Hfirst. reflexivity.
Qed.

Lemma comment_pattern_opens : opens_with_lt comment_pattern.
Proof.
  intros st Hfirst. unfold match_here, comment_pattern.
  cbn [seq lit m chr rest].
  destruct (rest st) as [|c s']; [reflexivity|].
  destruct (Ascii.eqb "<" c) eqn:Hc; [|reflexivity].
  apply Ascii.eqb_eq in Hc. subst c. exfalso. apply Hfirst. reflexivity.
Qed.

(** X22.  Cleaning HTML only deletes: the result is the text with some
    of its characters left out, in the same order, so it is never longer.
    A text without the character [<] is returned as it is. *)
Theorem clean_html_only_deletes (html_content : string) :
  chars (clean_html html_content) `sublist_of` chars html_content
  /\ (String.length (clean_html html_content) <= String.length html_content)%nat
  /\ (PyStr.contains_char "<" html_content = false ->
      clean_html html_content = html_content).
Proof.
  assert (chars (clean_html html_content) `sublist_of` chars html_content) as Hsub.
  { unfold clean_html. cbv zeta.
    assert (forall tags text,
               chars (fold_left (fun h tag => sub_empty (tag_pattern tag) h) tags text)
                 `sublist_of` chars text) as Hfold.
    { induction tags as [|tag tags IH]; intros text; [reflexivity|].
      cbn [fold_left]. etransitivity; [apply IH | apply sub_empty_sublist]. }
    etransitivity; [apply Hfold|].
    etransitivity; [apply sub_empty_sublist|].
    etransitivity; [apply sub_empty_sublist|]. apply sub_empty_sublist. }
  split; [exact Hsub|]. split.
  - apply sublist_length in Hsub. rewrite !length_chars in Hsub. exact Hsub.
  - intros Hno.
    assert (forall r, opens_with_lt r -> sub_empty r html_content = html_content)
      as Hpass.
    { intros r Hr. unfold sub_empty.
      apply (delete_matches_no_lt r _ (start_state html_content) Hr Hno). }
    unfold clean_html. cbv zeta.
    rewrite (Hpass _ (tag_pattern_opens "script")),
      (Hpass _ (tag_pattern_opens "style")), (Hpass _ comment_pattern_opens).
    unfold unwanted_tags. cbn [fold_left].
    rewrite !(Hpass _ (tag_pattern_opens _)). reflexivity.
Qed.

End CleanHtmlFacts.

Section CleaningSteps.
Import re utils_text.

Lemma reads_shorter (st st' : mstate) :
  reads st st' -> (pos st < pos st')%nat ->
  (String.length (rest st') < String.length (rest st))%nat.
Proof. intros (mid & -> & Hp) Hlt. rewrite string_length_app. lia. Qed.

(** More fuel than the text has characters changes nothing. *)
Lemma delete_matches_fuel (r : regex) (fuel1 fuel2 : nat) (st : mstate) :
  (String.length (rest st) < fuel1)%nat ->
  (String.length (rest st) < fuel2)%nat ->
  delete_matches r fuel1 st = delete_matches r fuel2 st.
Proof.
  revert fuel2 st. induction fuel1 as [|fuel1 IH]; intros fuel2 st H1 H2; [lia|].
  destruct fuel2 as [|fuel2]; [lia|]. cbn [delete_matches]. cbv zeta.
  assert (match rest st with
          | EmptyString => EmptyString
          | String c s' =>
              String c (delete_matches r fuel1 (mkState (Some c) s' (S (pos st)) None))
          end
          = match rest st with
            | EmptyString => EmptyString
            | String c s' =>
                String c (delete_matches r fuel2 (mkState (Some c) s' (S (pos st)) None))
            end) as Hkeep.
  { destruct (rest st) as [|c s']; [reflexivity|]. cbn [String.length] in H1, H2.
    rewrite (IH fuel2) by (cbn [rest]; lia). reflexivity. }
  destruct (match_here r st) as [st'|] eqn:Hm; [|exact Hkeep].
  destruct (pos st <? pos st')%nat eqn:Hlt; [|exact Hkeep].
  apply Nat.ltb_lt in Hlt.
  pose proof (reads_shorter _ _ (match_here_reads _ _ _ Hm) Hlt).
  apply IH; lia.
Qed.

Lemma sub_from_keep (r : regex) (st : mstate) (c : ascii) (s' : string) :
  rest st = String c s' -> match_here r st = None ->
  sub_from r st = String c (sub_from r (mkState (Some c) s' (S (pos st)) None)).
Proof.
  intros Hrest Hm. unfold sub_from. rewrite Hrest.
  cbn [String.length delete_matches rest]. cbv zeta. rewrite Hm, Hrest. reflexivity.
Qed.

Lemma sub_from_skip (r : regex) (st st' : mstate) :
  match_here r st = Some st' -> (pos st < pos st')%nat ->
  sub_from r st = sub_from r st'.
Proof.
  intros Hm Hlt. unfold sub_from.
  pose proof (reads_shorter _ _ (match_here_reads _ _ _ Hm) Hlt).
  transitivity (delete_matches r (String.length (rest st)) st').
  - cbn [delete_matches]. cbv zeta.
    rewrite Hm, (proj2 (Nat.ltb_lt _ _) Hlt). reflexivity.
  - apply delete_matches_fuel; lia.
Qed.

Lemma sub_from_end (r : regex) (st : mstate) :
  opens_with_lt r -> rest st = "" -> sub_from r st = "".
Proof.
  intros Hr Hrest. unfold sub_from. rewrite Hrest.
  cbn [String.length delete_matches]. cbv zeta.
  rewrite Hr by (rewrite Hrest; discriminate). rewrite Hrest. reflexivity.
Qed.

Lemma contains_char_app (c : ascii) (a b : string) :
  PyStr.contains_char c (a +:+ b)
  = PyStr.contains_char c a || PyStr.contains_char c b.
Proof.
  induction a as [|d a IH]; [rewrite app_empty_l; reflexivity|].
  rewrite app_cons. cbn [PyStr.contains_char]. rewrite IH, orb_assoc. reflexivity.
Qed.

(** Text without [<] is kept. *)
Lemma sub_from_text (r : regex) (text : string) :
  opens_with_lt r -> PyStr.contains_char "<" text = false ->
  forall st tail,
    rest st = text +:+ tail ->
    exists st', rest st' = tail /\ sub_from r st = text +:+ sub_from r st'.
Proof.
  intros Hr. induction text as [|c text IH]; intros Hno st tail Hrest.
  - exists st. rewrite app_empty_l in *. auto.
  - cbn [PyStr.contains_char] in Hno. apply orb_false_iff in Hno as [Hc Hno].
    rewrite app_cons in Hrest.
    rewrite (sub_from_keep r st c _ Hrest).
    + destruct (IH Hno (mkState (Some c) (text +:+ tail) (S (pos st)) None) tail
                  eq_refl) as (st' & Hst' & Heq).
      exists st'. rewrite Heq, app_cons. auto.
    + apply Hr. rewrite Hrest. cbn [first_char]. intros [= ->]. discriminate Hc.
Qed.

(** A [<] at which the pattern does not match is kept. *)
Lemma sub_from_lt (r : regex) (st : mstate) (s' : string) :
  rest st = String "<" s' -> match_here r st = None ->
  exists st', rest st' = s' /\ sub_from r st = String "<" (sub_from r st').
Proof.
  intros Hrest Hm. eexists. split; [|apply (sub_from_keep r st _ _ Hrest Hm)].
  reflexivity.
Qed.

(** The pattern of the script element on the texts of the example. *)
Lemma script_at_element (st : mstate) (tail : string) :
  rest st = "<script></script>" +:+ tail ->
  exists st',
    match_here (tag_pattern "script") st = Some st'
    /\ rest st' = tail /\ (pos st < pos st')%nat.
Proof.
  intros Hrest. unfold match_here. rewrite Hrest.
  exists (mkState (Some ">"%char) tail (17 + pos st) None).
  split; [vm_compute; reflexivity|]. split; [reflexivity|]. cbn [pos]. lia.
Qed.

Lemma script_at_broken (st : mstate) (tail : string) :
  rest st = "<scr<" +:+ tail -> match_here (tag_pattern "script") st = None.
Proof. intros Hrest. unfold match_here. rewrite Hrest. reflexivity. Qed.

Lemma tag_at_close (tag : string) (st : mstate) (tail : string) :
  tag <> "" -> first_char tag <> Some "/"%char ->
  rest st = String "<" (String "/" tail) ->
  match_here (tag_pattern tag) st = None.
Proof.
  intros Hne Hfirst Hrest. unfold match_here, tag_pattern. rewrite Hrest.
  destruct tag as [|c tag]; [congruence|].
  cbn [seq lit_i m chr_i rest].
  change (Ascii.eqb (PyStr.lower_char "<") (PyStr.lower_char "<")) with true.
  cbv iota.
  destruct (Ascii.eqb (PyStr.lower_char "/") (PyStr.lower_char c)) eqn:Hc;
    [|reflexivity].
  exfalso. apply Hfirst. cbn [first_char]. f_equal.
  apply Ascii.eqb_eq in Hc. revert Hc. clear.
  destruct c as [[] [] [] [] [] [] [] []]; vm_compute; intros Heq;
    first [reflexivity | discriminate Heq].
Qed.

Lemma passes_script_tag (tag : string) :
  tag ∈ ("style" :: unwanted_tags) -> passes_script (tag_pattern tag).
Proof.
  intros Htag. split; [apply tag_pattern_opens|]. split.
  - intros st tail Hrest. unfold match_here. rewrite Hrest.
    unfold unwanted_tags in Htag. rewrite !elem_of_cons in Htag.
    destruct Htag as [-> | [-> | [-> | [-> | [-> | [-> | Htag]]]]]];
      [reflexivity.. | inversion Htag].
  - intros st tail Hrest.
    unfold unwanted_tags in Htag. rewrite !elem_of_cons in Htag.
    destruct Htag as [-> | [-> | [-> | [-> | [-> | [-> | Htag]]]]]];
      [apply (tag_at_close _ st tail); [discriminate | discriminate | exact Hrest]..
      | inversion Htag].
Qed.

Lemma passes_script_comment : passes_script comment_pattern.
Proof.
  split; [apply comment_pattern_opens|].
  split; intros st tail Hrest; unfold match_here; rewrite Hrest; reflexivity.
Qed.

(** A pass with such a pattern leaves the element as it is. *)
Lemma sub_empty_passes (r : regex) (payload : string) :
  passes_script r -> PyStr.contains_char "<" payload = false ->
  sub_empty r ("<script>" +:+ payload +:+ "</script>")
  = "<script>" +:+ payload +:+ "</script>".
Proof.
  intros (Hopen & Hsc & Hclose) Hno.
  change (sub_empty r ("<script>" +:+ payload +:+ "</script>"))
    with (sub_from r (start_state ("<script>" +:+ payload +:+ "</script>"))).
  destruct (sub_from_lt r (start_state ("<script>" +:+ payload +:+ "</script>"))
              ("script>" +:+ payload +:+ "</script>") eq_refl)
    as (st1 & Hr1 & ->); [eapply Hsc; reflexivity|].
  destruct (sub_from_text r ("script>" +:+ payload) Hopen
              ltac:(rewrite contains_char_app, Hno; reflexivity)
              st1 "</script>") as (st2 & Hr2 & ->).
  { rewrite Hr1, string_app_assoc. reflexivity. }
  destruct (sub_from_lt r st2 "/script>" Hr2) as (st3 & Hr3 & ->);
    [eapply Hclose; exact Hr2|].
  destruct (sub_from_text r "/script>" Hopen eq_refl st3 "")
    as (st4 & Hr4 & ->).
  { rewrite Hr3. reflexivity. }
  rewrite (sub_from_end r st4 Hopen Hr4).
  rewrite !string_app_assoc. reflexivity.
Qed.

(** The passes of [clean_html], one after the other. *)
Lemma clean_html_passes (html_content : string) :
  clean_html html_content
  = sub_empty (tag_pattern "applet")
      (sub_empty (tag_pattern "object")
         (sub_empty (tag_pattern "embed")
            (sub_empty (tag_pattern "iframe")
               (sub_empty (tag_pattern "noscript")
                  (sub_empty comment_pattern
                     (sub_empty (tag_pattern "style")
                        (sub_empty (tag_pattern "script") html_content))))))).
Proof. reflexivity. Qed.

(** X23.  Cleaning does not always remove the script elements: where a
    script element is written inside the broken tags of another, the
    pass that deletes the inner elements leaves the outer tags whole, and
    no later pass looks for script elements.  The cleaned text then is a
    script element around the payload. *)
Theorem clean_html_leaves_script (payload : string) :
  PyStr.contains_char "<" payload = false ->
  clean_html ("<scr<script></script>ipt>" +:+ payload
              +:+ "</scr<script></script>ipt>")
  = "<script>" +:+ payload +:+ "</script>".
Proof.
  intros Hno. set (r := tag_pattern "script").
  pose proof (tag_pattern_opens "script" : opens_with_lt r) as Hopen.
  assert (sub_empty r ("<scr<script></script>ipt>" +:+ payload
                       +:+ "</scr<script></script>ipt>")
          = "<script>" +:+ payload +:+ "</script>") as Hfirst.
  { change (sub_empty r ?text) with (sub_from r (start_state text)).
    destruct (sub_from_lt r
                (start_state ("<scr<script></script>ipt>" +:+ payload
                              +:+ "</scr<script></script>ipt>"))
                ("scr<script></script>ipt>" +:+ payload
                 +:+ "</scr<script></script>ipt>") eq_refl)
      as (st1 & Hr1 & ->); [eapply script_at_broken; reflexivity|].
    destruct (sub_from_text r "scr" Hopen eq_refl st1
                ("<script></script>ipt>" +:+ payload
                 +:+ "</scr<script></script>ipt>"))
      as (st2 & Hr2 & ->); [rewrite Hr1; reflexivity|].
    destruct (script_at_element st2
                ("ipt>" +:+ payload +:+ "</scr<script></script>ipt>"))
      as (st3 & Hm3 & Hr3 & Hlt3); [rewrite Hr2; reflexivity|].
    rewrite (sub_from_skip r st2 st3 Hm3 Hlt3).
    destruct (sub_from_text r ("ipt>" +:+ payload) Hopen
                ltac:(rewrite contains_char_app, Hno; reflexivity)
                st3 "</scr<script></script>ipt>") as (st4 & Hr4 & ->).
    { rewrite Hr3, string_app_assoc. reflexivity. }
    destruct (sub_from_lt r st4 "/scr<script></script>ipt>" Hr4)
      as (st5 & Hr5 & ->).
    { apply (tag_at_close "script" st4 "scr<script></script>ipt>");
        [discriminate | discriminate | exact Hr4]. }
    destruct (sub_from_text r "/scr" Hopen eq_refl st5 "<script></script>ipt>")
      as (st6 & Hr6 & ->); [rewrite Hr5; reflexivity|].
    destruct (script_at_element st6 "ipt>") as (st7 & Hm7 & Hr7 & Hlt7);
      [rewrite Hr6; reflexivity|].
    rewrite (sub_from_skip r st6 st7 Hm7 Hlt7).
    destruct (sub_from_text r "ipt>" Hopen eq_refl st7 "") as (st8 & Hr8 & ->);
      [rewrite Hr7; reflexivity|].
    rewrite (sub_from_end r st8 Hopen Hr8).
    rewrite !string_app_assoc. reflexivity. }
  rewrite clean_html_passes. fold r. rewrite Hfirst.
  rewrite (sub_empty_passes _ payload
             (passes_script_tag "style" ltac:(repeat constructor)) Hno).
  rewrite (sub_empty_passes _ payload passes_script_comment Hno).
  rewrite (sub_empty_passes _ payload
             (passes_script_tag "noscript" ltac:(repeat constructor)) Hno).
  rewrite (sub_empty_passes _ payload
             (passes_script_tag "iframe" ltac:(repeat constructor)) Hno).
  rewrite (sub_empty_passes _ payload
             (passes_script_tag "embed" ltac:(repeat constructor)) Hno).
  rewrite (sub_empty_passes _ payload
             (passes_script_tag "object" ltac:(repeat constructor)) Hno).
  apply (sub_empty_passes _ payload
           (passes_script_tag "applet" ltac:(repeat constructor)) Hno).
Qed.

End CleaningSteps.

Section CleaningExamples.
Import utils_text.

Lemma clean_html_leaves_script_witness :
  PyStr.contains_char "<" "alert(1)" = false
  /\ clean_html "<scr<script></script>ipt>alert(1)</scr<script></script>ipt>"
     = "<script>alert(1)</script>".
Proof.
  split; [reflexivity|].
  exact (clean_html_leaves_script "alert(1)" eq_refl).
Defined.

End CleaningExamples.

(* ===================================================================== *)
(** * The stricter check of [utils.py] *)
(* ===================================================================== *)

Section StrictValidation.
Import urllib.
Context `{UrlLib}.

(** X24.  [validate_onion_url] accepts no ASCII URL.  A host body of 16
    or 56 characters is handed to the base32 decoder in capitals, as many
    characters on ASCII text, with six padding characters added: 22 or 62
    characters in all, which is six more than a multiple of eight, and
    the decoder refuses every text whose length is not a multiple of
    eight. *)
Theorem validate_onion_url_accepts_nothing (url : string) :
  isascii url = true ->
  utils.validate_onion_url url = false
  /\ (forall domain,
         isascii domain = true ->
         PyStr.len domain = 16 \/ PyStr.len domain = 56 ->
         PyStr.len (PyStr.upper domain +:+ "======") mod 8 = 6
         /\ base64.b32decode_ok (PyStr.upper domain +:+ "======") = false)
  /\ (forall text,
         PyStr.len text mod 8 <> 0 -> base64.b32decode_ok text = false).
Proof.
  intros Hascii.
  split; [apply validate_onion_url_rejects_all, Hascii|]. split.
  - intros domain _ Hlen. split.
    + unfold PyStr.len in *. rewrite string_length_app. unfold PyStr.upper.
      rewrite length_map_chars. cbn [String.length].
      destruct Hlen as [Hlen | Hlen];
        replace (Z.of_nat (String.length domain + 6)) with
          (Z.of_nat (String.length domain) + 6) by lia;
        rewrite Hlen; reflexivity.
    + apply b32decode_padded_raises. cbn [existsb].
      destruct Hlen as [-> | ->]; reflexivity.
  - intros text Hlen. unfold base64.b32decode_ok.
    destruct (String.length text mod 8 =? 0)%nat eqn:Hmod; [|reflexivity].
    exfalso. apply Hlen. apply Nat.eqb_eq in Hmod. unfold PyStr.len.
    rewrite <- (Nat2Z.inj_mod _ 8), Hmod. reflexivity.
Qed.

End StrictValidation.

Section StrictValidationExamples.
Import urllib.
#[local] Existing Instance cpython.

(** A host body of sixteen letters of the base32 alphabet. *)
Lemma validate_onion_url_accepts_nothing_witness :
  isascii toy.home = true
  /\ urlparse toy.home = Some (mkParse "http" "aaaaaaaaaaaaaaaa.onion")
  /\ utils.validate_onion_url toy.home = false.
Proof.
  split; [reflexivity|]. split; [reflexivity|].
  exact (proj1 (validate_onion_url_accepts_nothing toy.home eq_refl)).
Defined.

End StrictValidationExamples.

(* ===================================================================== *)
(** * What the patterns find *)
(* ===================================================================== *)

Section MatcherSoundness.
Import re.

(** A match reads a text of the pattern. *)
Lemma m_derives (r : regex) :
  forall st k res,
    m r st k = Some res ->
    exists st' mid,
      rest st = mid +:+ rest st'
      /\ pos st' = (pos st + String.length mid)%nat
      /\ derives r mid
      /\ (no_group r = true -> grp st' = grp st)
      /\ k st' = Some res.
Proof.
  induction r as [|p|r1 IH1 r2 IH2|r1 IH1 r2 IH2|greedy lo hi r1 IH1| |r1 IH1];
    intros st k res Hm; cbn [m] in Hm.
  - exists st, "". rewrite app_empty_l. cbn. repeat split; auto.
  - destruct (rest st) as [|c s'] eqn:Hrest; [discriminate|].
    destruct (p c) eqn:Hp; [|discriminate].
    exists (mkState (Some c) s' (S (pos st)) (grp st)), (String c "").
    cbn [rest pos grp derives]. rewrite app_cons, app_empty_l. cbn [String.length].
    repeat split; [lia | eauto | exact Hm].
  - apply IH1 in Hm as (st1 & m1 & Hr1 & Hp1 & Hd1 & Hg1 & Hm).
    apply IH2 in Hm as (st2 & m2 & Hr2 & Hp2 & Hd2 & Hg2 & Hm).
    exists st2, (m1 +:+ m2). rewrite string_app_assoc, <- Hr2, string_length_app.
    cbn [derives no_group]. repeat split; [exact Hr1 | lia | eauto | | exact Hm].
    intros [H1 H2]%andb_true_iff. rewrite (Hg2 H2). apply Hg1, H1.
  - cbn [derives no_group]. unfold first_some in Hm. destruct (m r1 st k) eqn:H1.
    + rewrite <- H1 in Hm.
      apply IH1 in Hm as (st1 & m1 & Hr1 & Hp1 & Hd1 & Hg1 & Hm).
      exists st1, m1. repeat split; auto.
      intros [Hn _]%andb_true_iff. auto.
    + apply IH2 in Hm as (st2 & m2 & Hr2 & Hp2 & Hd2 & Hg2 & Hm).
      exists st2, m2. repeat split; auto.
      intros [_ Hn]%andb_true_iff. auto.
  - cbn [derives no_group].
    assert (upto hi 0) as Hup by (destruct hi; cbn; [lia | exact I]).
    assert (forall fuel count st,
               upto hi count ->
               (fix loop (fuel count : nat) (st : mstate) {struct fuel}
                  : option mstate :=
                  let stop := if (lo <=? count)%nat then k st else None in
                  let more :=
                    match fuel with
                    | O => None
                    | S fuel' =>
                        if below hi count
                        then m r1 st (fun st' =>
                               if (pos st <? pos st')%nat
                               then loop fuel' (S count) st'
                               else None)
                        else None
                    end in
                  if greedy then first_some more stop else first_some stop more)
                 fuel count st = Some res ->
               exists st' mid n,
                 rest st = mid +:+ rest st'
                 /\ pos st' = (pos st + String.length mid)%nat
                 /\ repeats (derives r1) n mid
                 /\ (lo <= count + n)%nat
                 /\ upto hi (count + n)
                 /\ (no_group r1 = true -> grp st' = grp st)
                 /\ k st' = Some res) as Hloop.
    { clear Hm Hup st. induction fuel as [|fuel IHf]; intros count st Hup Hm;
        cbv zeta in Hm.
      - assert ((if (lo <=? count)%nat then k st else None) = Some res) as Hstop.
        { destruct greedy; cbn [first_some] in Hm; [exact Hm|].
          unfold first_some in Hm.
          destruct (if (lo <=? count)%nat then k st else None);
            [exact Hm | discriminate]. }
        destruct (lo <=? count)%nat eqn:Hlo; [|discriminate].
        apply Nat.leb_le in Hlo.
        exists st, "", O. rewrite app_empty_l, !Nat.add_0_r.
        split; [reflexivity|]. split; [reflexivity|]. split; [constructor|].
        split; [exact Hlo|]. split; [exact Hup|]. split; [reflexivity | exact Hstop].
      - set (stop := if (lo <=? count)%nat then k st else None) in *.
        set (more := if below hi count
                     then m r1 st (fun st' => if (pos st <? pos st')%nat
                                              then _ else None)
                     else None) in *.
        assert (stop = Some res \/ more = Some res) as [Hstop | Hmore].
        { unfold first_some in Hm.
          destruct greedy; [destruct more | destruct stop]; auto. }
        + unfold stop in Hstop. destruct (lo <=? count)%nat eqn:Hlo; [|discriminate].
          apply Nat.leb_le in Hlo.
          exists st, "", O. rewrite app_empty_l, !Nat.add_0_r.
          split; [reflexivity|]. split; [reflexivity|]. split; [constructor|].
          split; [exact Hlo|]. split; [exact Hup|]. split; [reflexivity | exact Hstop].
        + unfold more in Hmore. destruct (below hi count) eqn:Hbelow; [|discriminate].
          apply IH1 in Hmore as (st1 & m1 & Hr1 & Hp1 & Hd1 & Hg1 & Hmore).
          destruct (pos st <? pos st1)%nat; [|discriminate].
          apply IHf in Hmore as (st2 & m2 & n & Hr2 & Hp2 & Hrep & Hlo & Hhi & Hg2 & Hk).
          * exists st2, (m1 +:+ m2), (S n).
            rewrite string_app_assoc, <- Hr2, string_length_app.
            replace (count + S n)%nat with (S count + n)%nat by lia.
            repeat split; [exact Hr1 | lia | constructor; assumption | exact Hlo
                          | exact Hhi | | exact Hk].
            intros Hn. rewrite (Hg2 Hn). apply Hg1, Hn.
          * unfold below in Hbelow. destruct hi as [h|]; cbn in *; [|exact I].
            apply Nat.ltb_lt in Hbelow. lia. }
    apply Hloop in Hm as (st' & mid & n & Hr & Hp & Hrep & Hlo & Hhi & Hg & Hk);
      [|exact Hup].
    exists st', mid. repeat split; [exact Hr | exact Hp | | exact Hg | exact Hk].
    exists n. auto.
  - destruct (at_boundary st); [|discriminate].
    exists st, "". rewrite app_empty_l. cbn. repeat split; auto.
  - apply IH1 in Hm as (st1 & m1 & Hr1 & Hp1 & Hd1 & Hg1 & Hm).
    exists (mkState (prev st1) (rest st1) (pos st1) (Some (pos st, pos st1))), m1.
    cbn [rest pos derives no_group].
    split; [exact Hr1|]. split; [exact Hp1|]. split; [exact Hd1|].
    split; [discriminate | exact Hm].
Qed.

Lemma drop_app_length (pre s : string) :
  PyStr.drop (String.length pre) (pre +:+ s) = s.
Proof.
  induction pre as [|c pre IH]; [rewrite app_empty_l; reflexivity|].
  rewrite app_cons. cbn [String.length PyStr.drop]. exact IH.
Qed.

Lemma take_app_length (mid s : string) :
  PyStr.take (String.length mid) (mid +:+ s) = mid.
Proof.
  induction mid as [|c mid IH]; [destruct s; reflexivity|].
  rewrite app_cons. cbn [String.length PyStr.take]. rewrite IH. reflexivity.
Qed.

Lemma slice_middle (pre mid post : string) :
  PyStr.slice (String.length pre) (String.length pre + String.length mid)
    (pre +:+ mid +:+ post) = mid.
Proof.
  unfold PyStr.slice. rewrite drop_app_length.
  replace (String.length pre + String.length mid - String.length pre)%nat
    with (String.length mid) by lia.
  apply take_app_length.
Qed.

(** What [finditer] reports are texts of the pattern. *)
Lemma scan_derives (r : regex) (content : string) (fuel : nat) (st : mstate) :
  no_group r = true -> stands_in content st ->
  Forall (fun mt => derives r (match_text content mt)) (scan r fuel st).
Proof.
  intros Hng. revert st. induction fuel as [|fuel IH]; intros st Hin;
    cbn [scan]; [constructor|].
  assert (forall st1, advance st = Some st1 -> stands_in content st1) as Hadv.
  { intros st1 H1. destruct Hin as (pre & Hc & Hlen). unfold advance in H1.
    destruct (rest st) as [|c s'] eqn:Hrest; [discriminate|]. injection H1 as <-.
    exists (pre +:+ String c ""). cbn [rest pos].
    rewrite string_app_assoc, app_cons, app_empty_l, string_length_app.
    cbn [String.length]. split; [exact Hc | lia]. }
  destruct (match_here r st) as [st'|] eqn:Hm.
  - unfold match_here in Hm.
    apply m_derives in Hm as (st1 & mid & Hr & Hp & Hd & Hg & [= ->]).
    cbn [rest pos grp] in Hr, Hp, Hg. destruct Hin as (pre & Hc & Hlen).
    constructor.
    + unfold match_text. cbn [m_group m_start m_end]. rewrite (Hg Hng), Hp, <- Hlen.
      rewrite Hc, Hr. rewrite slice_middle. exact Hd.
    + assert (stands_in content st') as Hin'.
      { exists (pre +:+ mid). rewrite string_app_assoc, <- Hr, string_length_app.
        split; [exact Hc | lia]. }
      destruct (pos st <? pos st')%nat; [apply IH, Hin'|].
      destruct (advance st) as [st1|]; [apply IH, Hadv; reflexivity | constructor].
  - destruct (advance st) as [st1|]; [apply IH, Hadv; reflexivity | constructor].
Qed.

Lemma findall_derives (r : regex) (content value : string) :
  no_group r = true -> value ∈ findall r content -> derives r value.
Proof.
  intros Hng (mt & -> & Hmt)%list_elem_of_fmap.
  pose proof (scan_derives r content (S (String.length content))
                (start_state content) Hng) as Hall.
  rewrite Forall_forall in Hall. apply Hall; [|exact Hmt].
  exists "". rewrite app_empty_l. auto.
Qed.

(** ** Reading a derivation *)

Lemma derives_lit (s v : string) : derives (lit s) v -> v = s.
Proof.
  revert v. induction s as [|c s IH]; intros v; cbn [lit derives]; [auto|].
  intros (s1 & s2 & -> & (d & -> & Hd) & H2). unfold chr in Hd.
  apply Ascii.eqb_eq in Hd as <-. rewrite (IH _ H2), app_cons, app_empty_l.
  reflexivity.
Qed.

Lemma repeats_chr (p : ascii -> bool) (n : nat) (w : string) :
  repeats (derives (Chr p)) n w ->
  String.length w = n /\ PyStr.all_chars p w = true.
Proof.
  induction 1 as [|n piece s (c & -> & Hc) Hrep [IHl IHa]]; [split; reflexivity|].
  rewrite app_cons, app_empty_l. cbn [String.length PyStr.all_chars].
  rewrite IHl, Hc, IHa. split; reflexivity.
Qed.

Lemma derives_rep_chr (greedy : bool) (lo : nat) (hi : option nat)
    (p : ascii -> bool) (w : string) :
  derives (Rep greedy lo hi (Chr p)) w ->
  (lo <= String.length w)%nat
  /\ upto hi (String.length w)
  /\ PyStr.all_chars p w = true.
Proof.
  cbn [derives]. intros (n & Hlo & Hhi & Hrep).
  apply repeats_chr in Hrep as [<- Hall]. auto.
Qed.

Lemma repeats_nonempty (P : string -> Prop) (n : nat) (w : string) :
  (forall s, P s -> s <> "") -> (1 <= n)%nat -> repeats P n w -> w <> "".
Proof.
  intros HP Hn Hrep. destruct Hrep as [|n piece s Hpiece Hrep]; [lia|].
  specialize (HP _ Hpiece). destruct piece; [congruence|].
  rewrite app_cons. discriminate.
Qed.

End MatcherSoundness.

(** The entry of a kind in the dict of all kinds. *)
Ltac entity_cases Hin :=
  unfold content_parser.all_entities in Hin; cbv zeta in Hin;
  rewrite !elem_of_cons in Hin;
  destruct Hin as [Hin|[Hin|[Hin|[Hin|[Hin|[Hin|[Hin|[Hin|[Hin|[Hin|[Hin|Hin]]]]]]]]]]];
  try (inversion Hin; fail); simplify_eq.

Section EntityShapes.
Import re content_parser.

Lemma values_of_elem (kind : string) (content value : string) :
  value ∈ values_of kind (_extract_entities content) ->
  exists values, (kind, values) ∈ all_entities content /\ value ∈ values.
Proof.
  unfold values_of.
  destruct (lookup_kind kind (_extract_entities content)) as [values|] eqn:Hl;
    [|intros Hin; inversion Hin].
  intros Hin. exists values. split; [|exact Hin].
  apply lookup_kind_elem in Hl. unfold _extract_entities, remove_empty in Hl.
  apply list_elem_of_filter in Hl as [_ Hl]. exact Hl.
Qed.


(** X25.  The addresses of an entity map have the form of their pattern:
    an Ethereum address is [0x] and forty hexadecimal digits; a Monero
    address is [4], one of the digits or [A] or [B], and 93 characters of
    its alphabet; a Bitcoin address is [1] or [3] and 25 to 34 characters
    of its alphabet, or [bc1] and 39 to 59 lower-case letters and
    digits. *)
Theorem extract_entities_address_shapes (content : string) :
  Forall (fun v =>
            exists w,
              v = "0x" +:+ w
              /\ String.length w = 40%nat
              /\ PyStr.all_chars
                   (in_class (("a","f") :: ("A","F") :: ("0","9") :: nil)%char "") w
                 = true)
    (values_of "ethereum_addresses" (_extract_entities content))
  /\ Forall (fun v =>
               exists c w,
                 v = String "4" (String c w)
                 /\ in_class (("0","9") :: nil)%char "AB" c = true
                 /\ String.length w = 93%nat
                 /\ PyStr.all_chars
                      (in_class (("1","9") :: ("A","H") :: ("J","N") :: ("P","Z")
                                 :: ("a","k") :: ("m","z") :: nil)%char "") w
                    = true)
       (values_of "monero_addresses" (_extract_entities content))
  /\ Forall (fun v =>
               (exists c w,
                   v = String c w
                   /\ (c = "1" \/ c = "3")%char
                   /\ (25 <= String.length w <= 34)%nat
                   /\ PyStr.all_chars
                        (in_class (("a","k") :: ("m","z") :: ("A","H") :: ("J","N")
                                   :: ("P","Z") :: ("1","9") :: nil)%char "") w
                      = true)
               \/ (exists w,
                      v = "bc1" +:+ w
                      /\ (39 <= String.length w <= 59)%nat
                      /\ PyStr.all_chars
                           (in_class (("a","z") :: ("0","9") :: nil)%char "") w
                         = true))
       (values_of "bitcoin_addresses" (_extract_entities content)).
Proof.
  split; [|split]; apply Forall_forall; intros v (values & Hin & Hv)%values_of_elem;
    entity_cases Hin; rewrite list_set_elem in Hv.
  - apply findall_derives in Hv; [|reflexivity].
    unfold eth_pattern in Hv. cbn [seq derives] in Hv.
    destruct Hv as (s1 & s2 & -> & -> & s3 & s4 & -> & Hlit & s5 & s6 & -> & Hrep & ->).
    apply derives_lit in Hlit as ->.
    apply (derives_rep_chr true 40 (Some 40%nat)) in Hrep as (Hlo & Hhi & Hall).
    cbn [upto] in Hhi. exists s5.
    rewrite app_empty_l, app_empty_r. split; [reflexivity|]. split; [lia | exact Hall].
  - apply findall_derives in Hv; [|reflexivity].
    unfold xmr_pattern in Hv. cbn [seq derives] in Hv.
    destruct Hv as (s1 & s2 & -> & -> & s3 & s4 & -> & (c1 & -> & Hc1)
                    & s5 & s6 & -> & (c2 & -> & Hc2) & s7 & s8 & -> & Hrep & ->).
    apply Ascii.eqb_eq in Hc1 as <-.
    apply (derives_rep_chr true 93 (Some 93%nat)) in Hrep as (Hlo & Hhi & Hall).
    cbn [upto] in Hhi. exists c2, s7.
    rewrite app_empty_l, app_empty_r, !app_cons, !app_empty_l.
    split; [reflexivity|]. split; [exact Hc2|]. split; [lia | exact Hall].
  - apply elem_of_app in Hv as [Hv | Hv].
    + left. apply findall_derives in Hv; [|reflexivity].
      unfold btc_legacy_pattern in Hv. cbn [seq derives] in Hv.
      destruct Hv as (s1 & s2 & -> & -> & s3 & s4 & -> & (c & -> & Hc)
                      & s5 & s6 & -> & Hrep & ->).
      apply (derives_rep_chr true 25 (Some 34%nat)) in Hrep as (Hlo & Hhi & Hall).
      cbn [upto] in Hhi. exists c, s5.
      rewrite app_empty_l, app_empty_r, app_cons, app_empty_l.
      split; [reflexivity|]. split; [|split; [lia | exact Hall]].
      cbn [existsb orb PyStr.contains_char] in Hc.
      rewrite !orb_false_r, orb_true_iff, !Ascii.eqb_eq in Hc.
      destruct Hc as [<- | <-]; auto.
    + right. apply findall_derives in Hv; [|reflexivity].
      unfold btc_segwit_pattern in Hv. cbn [seq derives] in Hv.
      destruct Hv as (s1 & s2 & -> & -> & s3 & s4 & -> & Hlit & s5 & s6 & -> & Hrep & ->).
      apply derives_lit in Hlit as ->.
      apply (derives_rep_chr true 39 (Some 59%nat)) in Hrep as (Hlo & Hhi & Hall).
      cbn [upto] in Hhi. exists s5.
      rewrite app_empty_l, app_empty_r. split; [reflexivity|]. split; [lia | exact Hall].
Qed.

End EntityShapes.

Section TextShapes.
Import re content_parser.

Lemma derives_opt (r : regex) (s : string) :
  derives (opt r) s -> s = "" \/ derives r s.
Proof.
  unfold opt. cbn [derives upto]. intros (n & _ & Hn & Hrep).
  destruct Hrep as [|n piece s Hpiece Hrep]; [left; reflexivity|].
  destruct Hrep as [|n piece' s' _ _]; [|lia].
  right. rewrite app_empty_r. exact Hpiece.
Qed.

Lemma repeats_all_chars (P : string -> Prop) (p : ascii -> bool) (n : nat)
    (w : string) :
  (forall s, P s -> PyStr.all_chars p s = true) ->
  repeats P n w -> PyStr.all_chars p w = true.
Proof.
  intros HP. induction 1 as [|n piece s Hpiece Hrep IH]; [reflexivity|].
  rewrite all_chars_app, (HP _ Hpiece), IH. reflexivity.
Qed.

(** The characters of a URL after the scheme: the classes of the pattern
    taken together. *)
Lemma url_piece_chars (s : string) :
  derives
    (alt (cls (("a","z") :: ("A","Z") :: nil)%char ""
          :: cls (("0","9") :: nil)%char ""
          :: cls (("$","_") :: nil)%char "@.&+"
          :: cls nil "!*(),"
          :: seq (chr "%" :: hex :: hex :: nil)
          :: nil)) s ->
  s <> ""
  /\ PyStr.all_chars
       (in_class (("a","z") :: ("A","Z") :: ("0","9") :: ("$","_") :: nil)%char
          "@.&+!*(),") s = true.
Proof.
  cbn [alt seq derives]. unfold cls, hex, chr, cls.
  intros [(c & -> & Hc) | [(c & -> & Hc) | [(c & -> & Hc) | [(c & -> & Hc) | Hpct]]]].
  - split; [discriminate|]. cbn [PyStr.all_chars]. rewrite andb_true_r.
    revert Hc. clear. destruct c as [[] [] [] [] [] [] [] []]; vm_compute; congruence.
  - split; [discriminate|]. cbn [PyStr.all_chars]. rewrite andb_true_r.
    revert Hc. clear. destruct c as [[] [] [] [] [] [] [] []]; vm_compute; congruence.
  - split; [discriminate|]. cbn [PyStr.all_chars]. rewrite andb_true_r.
    revert Hc. clear. destruct c as [[] [] [] [] [] [] [] []]; vm_compute; congruence.
  - split; [discriminate|]. cbn [PyStr.all_chars]. rewrite andb_true_r.
    revert Hc. clear. destruct c as [[] [] [] [] [] [] [] []]; vm_compute; congruence.
  - destruct Hpct as (s1 & s2 & -> & (c1 & -> & Hc1) & s3 & s4 & ->
                      & (c2 & -> & Hc2) & (c3 & -> & Hc3)).
    apply Ascii.eqb_eq in Hc1 as <-.
    rewrite !app_cons, !app_empty_l. split; [discriminate|].
    cbn [PyStr.all_chars]. rewrite andb_true_r.
    assert (forall c,
               existsb (fun '(lo, hi) => in_range lo hi c)
                 (("0","9") :: ("a","f") :: ("A","F") :: nil)%char
               || PyStr.contains_char c "" = true ->
               in_class (("a","z") :: ("A","Z") :: ("0","9") :: ("$","_") :: nil)%char
                 "@.&+!*()," c = true) as Hhex.
    { clear. intros c. destruct c as [[] [] [] [] [] [] [] []]; vm_compute; congruence. }
    rewrite (Hhex _ Hc2), (Hhex _ Hc3). reflexivity.
Qed.

(** X26.  The values of four more kinds have the form of their pattern.
    An e-mail address is a local part, [@], a host and, after a dot, an
    ending of at least two characters, each part of the characters of its
    class (the class of the ending holds the letters and the bar).  A URL
    is [http://] or [https://] and at least one character of the classes
    of the pattern.  An SSH key is [ssh-], one of the three key types, a
    space, at least one base64 character, and padding.  A PGP block opens
    and closes with the two lines of a public or a private key block,
    which need not be of the same sort. *)
Theorem extract_entities_text_shapes (content : string) :
  Forall (fun v =>
            exists a b c,
              v = a +:+ "@" +:+ b +:+ "." +:+ c
              /\ (1 <= String.length a)%nat
              /\ PyStr.all_chars
                   (in_class (("A","Z") :: ("a","z") :: ("0","9") :: nil)%char "._%+-") a
                 = true
              /\ (1 <= String.length b)%nat
              /\ PyStr.all_chars
                   (in_class (("A","Z") :: ("a","z") :: ("0","9") :: nil)%char ".-") b
                 = true
              /\ (2 <= String.length c)%nat
              /\ PyStr.all_chars
                   (in_class (("A","Z") :: ("a","z") :: nil)%char "|") c = true)
    (values_of "emails" (_extract_entities content))
  /\ Forall (fun v =>
               exists s w,
                 v = "http" +:+ s +:+ "://" +:+ w
                 /\ (s = "" \/ s = "s")
                 /\ w <> ""
                 /\ PyStr.all_chars
                      (in_class (("a","z") :: ("A","Z") :: ("0","9") :: ("$","_") :: nil)%char
                         "@.&+!*(),") w = true)
       (values_of "urls" (_extract_entities content))
  /\ Forall (fun v =>
               exists kind body pad,
                 v = "ssh-" +:+ kind +:+ " " +:+ body +:+ pad
                 /\ (kind = "rsa" \/ kind = "dss" \/ kind = "ed25519")
                 /\ (1 <= String.length body)%nat
                 /\ PyStr.all_chars
                      (in_class (("A","Z") :: ("a","z") :: ("0","9") :: nil)%char "+/")
                      body = true
                 /\ PyStr.all_chars (Ascii.eqb "=") pad = true)
       (values_of "ssh_keys" (_extract_entities content))
  /\ Forall (fun v =>
               exists opening body closing,
                 v = "-----BEGIN PGP " +:+ opening +:+ " KEY BLOCK-----" +:+ body
                     +:+ "-----END PGP " +:+ closing +:+ " KEY BLOCK-----"
                 /\ (opening = "PUBLIC" \/ opening = "PRIVATE")
                 /\ (closing = "PUBLIC" \/ closing = "PRIVATE"))
       (values_of "pgp_keys" (_extract_entities content)).
Proof.
  split; [|split; [|split]]; apply Forall_forall;
    intros v (values & Hin & Hv)%values_of_elem;
    entity_cases Hin; rewrite list_set_elem in Hv;
    (apply findall_derives in Hv; [|reflexivity]).
  - unfold email_pattern in Hv. cbn [seq derives] in Hv.
    destruct Hv as (s1 & s2 & -> & -> & a & s3 & -> & Ha & s4 & s5 & ->
                    & (c1 & -> & Hc1) & b & s6 & -> & Hb & s7 & s8 & ->
                    & (c2 & -> & Hc2) & c & s9 & -> & Hc & ->).
    apply Ascii.eqb_eq in Hc1 as <-. apply Ascii.eqb_eq in Hc2 as <-.
    apply (derives_rep_chr true 1 None) in Ha as (Hla & _ & Hall_a).
    apply (derives_rep_chr true 1 None) in Hb as (Hlb & _ & Hall_b).
    apply (derives_rep_chr true 2 None) in Hc as (Hlc & _ & Hall_c).
    exists a, b, c. rewrite app_empty_l, app_empty_r. auto 10.
  - unfold url_pattern in Hv. cbn [seq derives] in Hv.
    destruct Hv as (s1 & s2 & -> & Hhttp & s & s3 & -> & Hs & s4 & w & ->
                    & Hsep & Hw).
    apply derives_lit in Hhttp as ->. apply derives_lit in Hsep as ->.
    exists s, w. split; [reflexivity|]. split.
    + apply derives_opt in Hs as [-> | (c & -> & Hc)]; [left; reflexivity|].
      right. cbn [existsb orb PyStr.contains_char] in Hc.
      rewrite orb_false_r in Hc. apply Ascii.eqb_eq in Hc as ->. reflexivity.
    + unfold plus in Hw. cbn [derives] in Hw. destruct Hw as (n & Hn & _ & Hrep).
      split.
      * eapply repeats_nonempty; [|exact Hn | exact Hrep].
        intros piece Hpiece. apply url_piece_chars, Hpiece.
      * eapply repeats_all_chars; [|exact Hrep].
        intros piece Hpiece. apply url_piece_chars, Hpiece.
  - unfold ssh_key_pattern in Hv. cbn [seq alt derives] in Hv.
    destruct Hv as (s1 & s2 & -> & Hssh & kind & s3 & -> & Hkind & s4 & s5 & ->
                    & (c & -> & Hc) & body & pad & -> & Hbody & Hpad).
    apply derives_lit in Hssh as ->. apply Ascii.eqb_eq in Hc as <-.
    apply (derives_rep_chr true 1 None) in Hbody as (Hlb & _ & Hall_b).
    apply (derives_rep_chr true 0 None) in Hpad as (_ & _ & Hall_p).
    exists kind, body, pad. split; [reflexivity|]. split; [|auto].
    destruct Hkind as [Hk | [Hk | Hk]]; apply derives_lit in Hk; auto.
  - unfold pgp_pattern in Hv. cbn [seq alt derives] in Hv.
    destruct Hv as (s1 & s2 & -> & Hbegin & opening & s3 & -> & Hopen & s4 & s5 & ->
                    & Hblock & body & s6 & -> & _ & s7 & s8 & -> & Hend
                    & closing & s9 & -> & Hclose & Hblock').
    apply derives_lit in Hbegin as ->. apply derives_lit in Hblock as ->.
    apply derives_lit in Hend as ->. apply derives_lit in Hblock' as ->.
    exists opening, body, closing. split; [reflexivity|].
    split; [destruct Hopen as [Hk | Hk] | destruct Hclose as [Hk | Hk]];
      apply derives_lit in Hk; auto.
Qed.

End TextShapes.

Section GroupSoundness.
Import re.

Lemma group_span_seq_l (r1 r2 : regex) (st st1 st2 : mstate) (m1 m2 : string) :
  group_span r1 st st1 m1 -> grp st2 = grp st1 ->
  group_span (Seq r1 r2) st st2 (m1 +:+ m2).
Proof.
  intros (inner & pre & g & post & Hin & -> & Hd & Hg) Heq.
  exists inner, pre, g, (post +:+ m2). cbn [groups].
  rewrite !string_app_assoc, Heq.
  split; [apply elem_of_app; left; exact Hin | auto].
Qed.

Lemma group_span_seq_r (r1 r2 : regex) (st st1 st2 : mstate) (m1 m2 : string) :
  pos st1 = (pos st + String.length m1)%nat ->
  group_span r2 st1 st2 m2 ->
  group_span (Seq r1 r2) st st2 (m1 +:+ m2).
Proof.
  intros Hp (inner & pre & g & post & Hin & -> & Hd & Hg).
  exists inner, (m1 +:+ pre), g, post. cbn [groups].
  rewrite !string_app_assoc, string_length_app, Hg, Hp, !Nat.add_assoc.
  split; [apply elem_of_app; right; exact Hin | auto].
Qed.

(** A match leaves the group as it was, which a pattern that always goes
    through a group never does, or it leaves the span of a group. *)
Lemma m_spans (r : regex) :
  forall st k res,
    m r st k = Some res ->
    exists st' mid,
      rest st = mid +:+ rest st'
      /\ pos st' = (pos st + String.length mid)%nat
      /\ k st' = Some res
      /\ (group_span r st st' mid
          \/ (grp st' = grp st /\ sets_group r = false)).
Proof.
  induction r as [|p|r1 IH1 r2 IH2|r1 IH1 r2 IH2|greedy lo hi r1 IH1| |r1 IH1];
    intros st k res Hm.
  - cbn [m] in Hm. exists st, "". rewrite app_empty_l. cbn [String.length sets_group].
    split; [reflexivity|]. split; [lia|]. auto.
  - cbn [m] in Hm. destruct (rest st) as [|c s'] eqn:Hrest; [discriminate|].
    destruct (p c) eqn:Hp; [|discriminate].
    exists (mkState (Some c) s' (S (pos st)) (grp st)), (String c "").
    cbn [rest pos grp]. rewrite app_cons, app_empty_l. cbn [String.length sets_group].
    split; [reflexivity|]. split; [lia|]. auto.
  - cbn [m] in Hm.
    apply IH1 in Hm as (st1 & m1 & Hr1 & Hp1 & Hm & Hg1).
    apply IH2 in Hm as (st2 & m2 & Hr2 & Hp2 & Hm & Hg2).
    exists st2, (m1 +:+ m2). rewrite string_app_assoc, <- Hr2, string_length_app.
    split; [exact Hr1|]. split; [lia|]. split; [exact Hm|].
    destruct Hg2 as [Hspan | [Heq2 Hs2]].
    + left. eapply group_span_seq_r; eassumption.
    + destruct Hg1 as [Hspan | [Heq1 Hs1]].
      * left. eapply group_span_seq_l; eassumption.
      * right. cbn [sets_group]. rewrite Hs1, Hs2, Heq2, Heq1. auto.
  - cbn [m] in Hm. unfold first_some in Hm. destruct (m r1 st k) eqn:H1.
    + rewrite <- H1 in Hm. apply IH1 in Hm as (st1 & m1 & Hr1 & Hp1 & Hm & Hg1).
      exists st1, m1. split; [exact Hr1|]. split; [exact Hp1|]. split; [exact Hm|].
      destruct Hg1 as [(inner & pre & g & post & Hin & Hmid & Hd & Hg) | [Heq Hs]].
      * left. exists inner, pre, g, post. cbn [groups].
        split; [apply elem_of_app; left; exact Hin | auto].
      * right. cbn [sets_group]. rewrite Hs. auto.
    + apply IH2 in Hm as (st2 & m2 & Hr2 & Hp2 & Hm & Hg2).
      exists st2, m2. split; [exact Hr2|]. split; [exact Hp2|]. split; [exact Hm|].
      destruct Hg2 as [(inner & pre & g & post & Hin & Hmid & Hd & Hg) | [Heq Hs]].
      * left. exists inner, pre, g, post. cbn [groups].
        split; [apply elem_of_app; right; exact Hin | auto].
      * right. cbn [sets_group]. rewrite Hs, andb_false_r. auto.
  - cbn [m] in Hm.
    assert (forall fuel count st,
               (fix loop (fuel count : nat) (st : mstate) {struct fuel}
                  : option mstate :=
                  let stop := if (lo <=? count)%nat then k st else None in
                  let more :=
                    match fuel with
                    | O => None
                    | S fuel' =>
                        if below hi count
                        then m r1 st (fun st' =>
                               if (pos st <? pos st')%nat
                               then loop fuel' (S count) st'
                               else None)
                        else None
                    end in
                  if greedy then first_some more stop else first_some stop more)
                 fuel count st = Some res ->
               exists st' mid,
                 rest st = mid +:+ rest st'
                 /\ pos st' = (pos st + String.length mid)%nat
                 /\ k st' = Some res
                 /\ (group_span r1 st st' mid
                     \/ (grp st' = grp st
                         /\ (sets_group r1 = false \/ (lo <= count)%nat)))) as Hloop.
    { clear Hm st. induction fuel as [|fuel IHf]; intros count st Hm; cbv zeta in Hm.
      - assert ((if (lo <=? count)%nat then k st else None) = Some res) as Hstop.
        { destruct greedy; cbn [first_some] in Hm; [exact Hm|].
          unfold first_some in Hm.
          destruct (if (lo <=? count)%nat then k st else None);
            [exact Hm | discriminate]. }
        destruct (lo <=? count)%nat eqn:Hlo; [|discriminate].
        apply Nat.leb_le in Hlo.
        exists st, "". rewrite app_empty_l. cbn [String.length].
        split; [reflexivity|]. split; [lia|]. split; [exact Hstop|]. auto.
      - set (stop := if (lo <=? count)%nat then k st else None) in *.
        set (more := if below hi count
                     then m r1 st (fun st' => if (pos st <? pos st')%nat
                                              then _ else None)
                     else None) in *.
        assert (stop = Some res \/ more = Some res) as [Hstop | Hmore].
        { unfold first_some in Hm.
          destruct greedy; [destruct more | destruct stop]; auto. }
        + unfold stop in Hstop. destruct (lo <=? count)%nat eqn:Hlo; [|discriminate].
          apply Nat.leb_le in Hlo.
          exists st, "". rewrite app_empty_l. cbn [String.length].
          split; [reflexivity|]. split; [lia|]. split; [exact Hstop|]. auto.
        + unfold more in Hmore. destruct (below hi count); [|discriminate].
          apply IH1 in Hmore as (st1 & m1 & Hr1 & Hp1 & Hmore & Hg1).
          destruct (pos st <? pos st1)%nat; [|discriminate].
          apply IHf in Hmore as (st2 & m2 & Hr2 & Hp2 & Hk & Hg2).
          exists st2, (m1 +:+ m2).
          rewrite string_app_assoc, <- Hr2, string_length_app.
          split; [exact Hr1|]. split; [lia|]. split; [exact Hk|].
          destruct Hg2 as [(inner & pre & g & post & Hin & -> & Hd & Hg) | [Heq2 Hs2]].
          * left. exists inner, (m1 +:+ pre), g, post.
            rewrite !string_app_assoc, string_length_app, Hg, Hp1, !Nat.add_assoc.
            auto.
          * destruct Hg1 as [(inner & pre & g & post & Hin & -> & Hd & Hg) | [Heq1 Hs1]].
            -- left. exists inner, pre, g, (post +:+ m2).
               rewrite !string_app_assoc, Heq2. auto.
            -- right. rewrite Heq2, Heq1. split; [reflexivity|]. left. exact Hs1. }
    apply Hloop in Hm as (st' & mid & Hr & Hp & Hk & Hg).
    exists st', mid. split; [exact Hr|]. split; [exact Hp|]. split; [exact Hk|].
    destruct Hg as [Hspan | [Heq Hs]]; [left; exact Hspan|].
    right. split; [exact Heq|]. cbn [sets_group].
    destruct Hs as [-> | Hlo]; [apply andb_false_r|].
    assert (lo = O) as -> by lia. reflexivity.
  - cbn [m] in Hm. destruct (at_boundary st); [|discriminate].
    exists st, "". rewrite app_empty_l. cbn [String.length sets_group].
    split; [reflexivity|]. split; [lia|]. auto.
  - cbn [m] in Hm. apply m_derives in Hm as (st1 & m1 & Hr1 & Hp1 & Hd1 & _ & Hm).
    exists (mkState (prev st1) (rest st1) (pos st1) (Some (pos st, pos st1))), m1.
    cbn [rest pos]. split; [exact Hr1|]. split; [exact Hp1|]. split; [exact Hm|].
    left. exists r1, "", m1, "". cbn [groups grp String.length].
    rewrite app_empty_l, app_empty_r, Nat.add_0_r, Hp1.
    split; [left|]. auto.
Qed.

(** What [findall] lists for a pattern that always goes through a group
    are texts of its groups. *)
Lemma scan_group (r : regex) (content : string) (fuel : nat) (st : mstate) :
  sets_group r = true -> stands_in content st ->
  Forall (fun mt => exists inner,
              inner ∈ groups r /\ derives inner (match_text content mt))
    (scan r fuel st).
Proof.
  intros Hsets. revert st. induction fuel as [|fuel IH]; intros st Hin;
    cbn [scan]; [constructor|].
  assert (forall st1, advance st = Some st1 -> stands_in content st1) as Hadv.
  { intros st1 H1. destruct Hin as (pre & Hc & Hlen). unfold advance in H1.
    destruct (rest st) as [|c s'] eqn:Hrest; [discriminate|]. injection H1 as <-.
    exists (pre +:+ String c ""). cbn [rest pos].
    rewrite string_app_assoc, app_cons, app_empty_l, string_length_app.
    cbn [String.length]. split; [exact Hc | lia]. }
  destruct (match_here r st) as [st'|] eqn:Hm.
  - unfold match_here in Hm.
    apply m_spans in Hm as (st1 & mid & Hr & Hp & [= ->] & Hg).
    cbn [rest pos grp] in Hr, Hp. destruct Hin as (before & Hc & Hlen).
    constructor.
    + destruct Hg as [(inner & pre & g & post & Hinner & -> & Hd & Hg) | [_ Hs]];
        [|congruence].
      exists inner. split; [exact Hinner|].
      unfold match_text. cbn [m_group pos]. rewrite Hg. cbn [pos].
      rewrite Hc, Hr, <- Hlen.
      replace (before +:+ (pre +:+ g +:+ post) +:+ rest st')
        with ((before +:+ pre) +:+ g +:+ (post +:+ rest st'))
        by (rewrite !string_app_assoc; reflexivity).
      rewrite <- string_length_app, slice_middle. exact Hd.
    + assert (stands_in content st') as Hin'.
      { exists (before +:+ mid). rewrite string_app_assoc, <- Hr, string_length_app.
        split; [exact Hc | lia]. }
      destruct (pos st <? pos st')%nat; [apply IH, Hin'|].
      destruct (advance st) as [st1|]; [apply IH, Hadv; reflexivity | constructor].
  - destruct (advance st) as [st1|]; [apply IH, Hadv; reflexivity | constructor].
Qed.

Lemma findall_group (r : regex) (content value : string) :
  sets_group r = true -> value ∈ findall r content ->
  exists inner, inner ∈ groups r /\ derives inner value.
Proof.
  intros Hsets (mt & -> & Hmt)%list_elem_of_fmap.
  pose proof (scan_group r content (S (String.length content))
                (start_state content) Hsets) as Hall.
  rewrite Forall_forall in Hall. apply Hall; [|exact Hmt].
  exists "". rewrite app_empty_l. auto.
Qed.

End GroupSoundness.

Section ApiKeys.
Import re content_parser.

(** X27.  On ASCII text, a value listed under [api_keys] is the text of
    the group of its pattern, not the whole match: at least twenty
    characters, all of them letters, digits, underscores, dots or hyphens,
    so without the name, the separator and the quotes that the pattern
    reads around it. *)
Theorem extract_entities_api_keys (content : string) :
  isascii content = true ->
  Forall (fun v =>
            (20 <= String.length v)%nat
            /\ PyStr.all_chars
                 (in_class (("A","Z") :: ("a","z") :: ("0","9") :: nil)%char "_.-") v
               = true)
    (values_of "api_keys" (_extract_entities content)).
Proof.
  intros _.
  apply Forall_forall. intros v (values & Hin & Hv)%values_of_elem.
  entity_cases Hin. rewrite list_set_elem in Hv.
  apply list_elem_of_In, in_flat_map in Hv as (pattern & Hpat & Hv).
  apply list_elem_of_In in Hv.
  unfold api_key_patterns in Hpat. cbn [In] in Hpat.
  destruct Hpat as [<- | [<- | [<- | []]]];
    (apply findall_group in Hv as (inner & Hinner & Hd); [|reflexivity]);
    cbn in Hinner; apply list_elem_of_singleton in Hinner as ->;
    apply (derives_rep_chr true 20 None) in Hd as (Hlen & _ & Hall);
    (split; [exact Hlen|]).
  - eapply all_chars_impl; [|exact Hall]. clear. intros c.
    destruct c as [[] [] [] [] [] [] [] []]; vm_compute; congruence.
  - exact Hall.
  - exact Hall.
Qed.

Lemma extract_entities_api_keys_witness :
  isascii "API_KEY = 'abcdefghij-KLMNOPQRST_uvwx' # secret" = true
  /\ Forall (fun v =>
               (20 <= String.length v)%nat
               /\ PyStr.all_chars
                    (in_class (("A","Z") :: ("a","z") :: ("0","9") :: nil)%char "_.-")
                    v
                  = true)
       (values_of "api_keys"
          (_extract_entities "API_KEY = 'abcdefghij-KLMNOPQRST_uvwx' # secret")).
Proof.
  split; [reflexivity|].
  exact (extract_entities_api_keys
           "API_KEY = 'abcdefghij-KLMNOPQRST_uvwx' # secret" eq_refl).
Defined.

(** The key of that text, without its name and its quotes. *)
Example api_key_listed :
  _extract_entities "API_KEY = 'abcdefghij-KLMNOPQRST_uvwx' # secret"
  = ("api_keys", "abcdefghij-KLMNOPQRST_uvwx" :: nil) :: nil.
Proof. vm_compute. reflexivity. Qed.

End ApiKeys.

Section PhoneNumbers.
Import re content_parser.

Lemma filter_chars_app (p : ascii -> bool) (a b : string) :
  PyStr.filter_chars p (a +:+ b) = PyStr.filter_chars p a +:+ PyStr.filter_chars p b.
Proof.
  induction a as [|c a IH]; [rewrite !app_empty_l; reflexivity|].
  rewrite app_cons. cbn [PyStr.filter_chars]. rewrite IH.
  destruct (p c); [rewrite app_cons|]; reflexivity.
Qed.

Lemma phone_piece_app (lo1 hi1 len1 lo2 hi2 len2 : nat) (s1 s2 : string) :
  phone_piece lo1 hi1 len1 s1 -> phone_piece lo2 hi2 len2 s2 ->
  phone_piece (lo1 + lo2) (hi1 + hi2) (len1 + len2) (s1 +:+ s2).
Proof.
  intros (Hd1 & Hc1 & Hl1) (Hd2 & Hc2 & Hl2). unfold phone_piece, digits_of in *.
  rewrite filter_chars_app, !string_length_app, all_chars_app, Hc1, Hc2.
  split; [lia|]. split; [reflexivity | lia].
Qed.

Lemma phone_piece_empty : phone_piece 0 0 0 "".
Proof. unfold phone_piece. cbn. split; [lia|]. split; [reflexivity | lia]. Qed.

Lemma phone_piece_weaken (lo hi len lo' hi' len' : nat) (s : string) :
  (lo' <= lo)%nat -> (hi <= hi')%nat -> (len <= len')%nat ->
  phone_piece lo hi len s -> phone_piece lo' hi' len' s.
Proof. intros H1 H2 H3 (Hd & Hc & Hl). unfold phone_piece. split; [lia|]. split; [exact Hc | lia]. Qed.

Lemma phone_piece_mark (p : ascii -> bool) (s : string) :
  (forall c, p c = true -> PyStr.is_digit c = false /\ phone_char c = true) ->
  derives (opt (Chr p)) s -> phone_piece 0 0 1 s.
Proof.
  intros Hp [-> | (c & -> & Hc)]%derives_opt.
  - eapply phone_piece_weaken; [| | |apply phone_piece_empty]; lia.
  - destruct (Hp c Hc) as [Hd Hok]. unfold phone_piece, digits_of.
    cbn [PyStr.filter_chars PyStr.all_chars String.length]. rewrite Hd, Hok.
    cbn. split; [lia|]. split; [reflexivity | lia].
Qed.

Lemma phone_piece_digits (n : nat) (s : string) :
  derives (times n (cls (("0","9") :: nil)%char "")) s -> phone_piece n n n s.
Proof.
  unfold times, cls. intros (Hlo & Hhi & Hall)%derives_rep_chr. cbn [upto] in Hhi.
  assert (PyStr.all_chars PyStr.is_digit s = true) as Hd.
  { eapply all_chars_impl; [|exact Hall]. clear. intros c.
    destruct c as [[] [] [] [] [] [] [] []]; vm_compute; congruence. }
  unfold phone_piece, digits_of. rewrite (filter_chars_all _ _ Hd).
  split; [lia|]. split; [|lia].
  eapply all_chars_impl; [|exact Hd]. intros c Hc. unfold phone_char. rewrite Hc.
  reflexivity.
Qed.

Lemma sep_dot_mark (c : ascii) :
  Ascii.eqb c "-" || Ascii.eqb c "." || PyStr.is_space c = true ->
  PyStr.is_digit c = false /\ phone_char c = true.
Proof. destruct c as [[] [] [] [] [] [] [] []]; vm_compute; auto; congruence. Qed.

Lemma one_mark (d c : ascii) :
  PyStr.contains_char d "+()" = true -> Ascii.eqb d c = true ->
  PyStr.is_digit c = false /\ phone_char c = true.
Proof.
  intros Hd Hc. apply Ascii.eqb_eq in Hc as <-. revert Hd.
  destruct d as [[] [] [] [] [] [] [] []]; vm_compute; auto; congruence.
Qed.

(** X28.  A value listed under [phone_numbers] has ten or eleven digits
    and, apart from them, only a plus sign, brackets, hyphens, dots and
    blanks; it has at most seventeen characters. *)
Theorem extract_entities_phone_numbers (content : string) :
  Forall (phone_piece 10 11 17)
    (values_of "phone_numbers" (_extract_entities content)).
Proof.
  apply Forall_forall. intros v (values & Hin & Hv)%values_of_elem.
  entity_cases Hin. rewrite list_set_elem in Hv.
  apply findall_derives in Hv; [|reflexivity].
  unfold phone_pattern in Hv. cbn [seq derives] in Hv.
  destruct Hv as (sa & s1 & -> & Ha & sb & s2 & -> & Hb & sc & s3 & -> & Hc
                  & sd & s4 & -> & Hd & se & s5 & -> & He & sf & s6 & -> & Hf
                  & sg & sh & -> & Hg & Hh).
  assert (phone_piece 0 1 3 sa) as Pa.
  { apply derives_opt in Ha as [-> | Ha].
    - eapply phone_piece_weaken; [| | |apply phone_piece_empty]; lia.
    - cbn [seq derives] in Ha.
      destruct Ha as (t1 & t2 & -> & H1 & t3 & t4 & -> & (c & -> & Hc1) & H3).
      apply Ascii.eqb_eq in Hc1 as <-.
      apply (phone_piece_mark _ _ (fun c => one_mark "+" c eq_refl)) in H1.
      apply (phone_piece_mark _ _ sep_dot_mark) in H3.
      assert (phone_piece 1 1 1 "1") as Hone
        by (unfold phone_piece; split; [vm_compute; lia|];
            split; [reflexivity | vm_compute; lia]).
      eapply phone_piece_weaken;
        [| | |exact (phone_piece_app _ _ _ _ _ _ _ _ H1
                       (phone_piece_app _ _ _ _ _ _ _ _ Hone H3))]; lia. }
  apply (phone_piece_mark _ _ (fun c => one_mark "(" c eq_refl)) in Hb.
  apply phone_piece_digits in Hc.
  apply (phone_piece_mark _ _ (fun c => one_mark ")" c eq_refl)) in Hd.
  apply (phone_piece_mark _ _ sep_dot_mark) in He.
  apply phone_piece_digits in Hf.
  apply (phone_piece_mark _ _ sep_dot_mark) in Hg.
  apply phone_piece_digits in Hh.
  eapply phone_piece_weaken;
    [| | |exact (phone_piece_app _ _ _ _ _ _ _ _ Pa
                   (phone_piece_app _ _ _ _ _ _ _ _ Hb
                      (phone_piece_app _ _ _ _ _ _ _ _ Hc
                         (phone_piece_app _ _ _ _ _ _ _ _ Hd
                            (phone_piece_app _ _ _ _ _ _ _ _ He
                               (phone_piece_app _ _ _ _ _ _ _ _ Hf
                                  (phone_piece_app _ _ _ _ _ _ _ _ Hg Hh)))))))];
    lia.
Qed.

End PhoneNumbers.
